(** * Annotation interchange engine: conversation format and VLM responses

    A shallow embedding of [labelme/conversation_format.py],
    [labelme/vlm/utils.py] and the response dispatch of
    [labelme/vlm/bbox_detection.py], with the properties of the
    interchange specification stated and proved over it.

    Modelling conventions.
    - A Python [str] is a list of characters ([text]); characters are
      the code points below 256.
    - A Python [float] is [pyfloat]: a rational, an infinity or NaN; the
      sign of zero is not kept.  There are two arithmetic layers.  In
      [Py] a product and a quotient of finite values are exact; the
      statements about structure (counts, labels, order, bounds inside
      the image) are made over this layer.  In [Binary64] every result is
      rounded to the nearest binary64 number, ties to even, it overflows
      to an infinity, and an int is converted before it is used; the
      functions that compute with floats are embedded a second time over
      this layer ([ConversationFormat64], [VlmUtils64]), and the
      statements about the numbers themselves (the round trip through the
      text, the geometry kind of the parsed tags, the scaling of boxes)
      are made there.
    - Exceptions are values of [exn] carried by [result].
    - [re] patterns are values of [regex], run by a backtracking matcher
      that explores alternatives in the priority order of Python's engine. *)

From Stdlib Require Import Ascii String List Bool Arith ZArith QArith Qpower Qround Qabs Qminmax Lia Lqa.
Import ListNotations.


Close Scope Q_scope.

(* ================================================================= *)
(** * Python base layer *)
(* ================================================================= *)

Module Py.

Definition text := list ascii.

(** A string literal of the source. *)
Definition T (s : string) : text := list_ascii_of_string s.

Fixpoint text_eqb (a b : text) : bool :=
  match a, b with
  | [], [] => true
  | x :: a', y :: b' => Ascii.eqb x y && text_eqb a' b'
  | _, _ => false
  end.

(** ** Exceptions *)

Inductive exn :=
| ValueError | IndexError | ZeroDivisionError | OverflowError
| AttributeError | TypeError | KeyError.

Inductive result (A : Type) :=
| Ok (a : A)
| Raise (e : exn).
Arguments Ok {A} a.
Arguments Raise {A} e.

Definition bind {A B} (m : result A) (f : A -> result B) : result B :=
  match m with
  | Ok a => f a
  | Raise e => Raise e
  end.

Notation "x <- m ;; k" := (bind m (fun x => k))
  (at level 61, m at next level, right associativity).

(** [[f(x) for x in xs]] where [f] may raise: the first exception wins. *)
Fixpoint mapM {A B} (f : A -> result B) (xs : list A) : result (list B) :=
  match xs with
  | [] => Ok []
  | x :: tl => y <- f x ;; ys <- mapM f tl ;; Ok (y :: ys)
  end.

(** ** [str] methods *)

Definition code (c : ascii) : nat := nat_of_ascii c.

(** [str.isspace] on one character: TAB..CR, FS..US, space, NEL, NBSP. *)
Definition is_space (c : ascii) : bool :=
  let n := code c in
  ((9 <=? n) && (n <=? 13)) || ((28 <=? n) && (n <=? 31))
  || (n =? 32) || (n =? 133) || (n =? 160).

Fixpoint lstrip (s : text) : text :=
  match s with
  | [] => []
  | c :: tl => if is_space c then lstrip tl else s
  end.

Definition rstrip (s : text) : text := rev (lstrip (rev s)).

(** [s.strip()] *)
Definition strip (s : text) : text := rstrip (lstrip s).

(** [s.split(sep)] for a one-character separator: never the empty list. *)
Fixpoint split (sep : ascii) (s : text) : list text :=
  match s with
  | [] => [[]]
  | c :: tl =>
      if Ascii.eqb c sep then [] :: split sep tl
      else match split sep tl with
           | p :: ps => (c :: p) :: ps
           | [] => [[c]]
           end
  end.

(** [sep.join(parts)] *)
Fixpoint join (sep : text) (parts : list text) : text :=
  match parts with
  | [] => []
  | [p] => p
  | p :: tl => p ++ sep ++ join sep tl
  end.

(** [s.startswith(p)], returning what follows the prefix. *)
Fixpoint strip_prefix (p s : text) : option text :=
  match p, s with
  | [], _ => Some s
  | x :: p', y :: s' => if Ascii.eqb x y then strip_prefix p' s' else None
  | _ :: _, [] => None
  end.

Definition startswith (p s : text) : bool :=
  match strip_prefix p s with Some _ => true | None => false end.

Definition endswith (p s : text) : bool := startswith (rev p) (rev s).

(** [p in s] for strings. *)
Fixpoint contains (p s : text) : bool :=
  startswith p s ||
  match s with
  | [] => false
  | _ :: tl => contains p tl
  end.

Definition lower_char (c : ascii) : ascii :=
  let n := code c in
  if (65 <=? n) && (n <=? 90) then ascii_of_nat (n + 32) else c.

Definition lower (s : text) : text := map lower_char s.

(** ** [float] *)

Inductive pyfloat :=
| Finite (q : Q)
| Infinity (negative : bool)
| NaN.

Definition digit_val (c : ascii) : option Z :=
  let n := code c in
  if (48 <=? n) && (n <=? 57) then Some (Z.of_nat (n - 48)) else None.

(** [digitpart ::= digit (["_"] digit)*] : the digits, most significant
    first, or [None] when the text is not a digitpart. *)
Fixpoint digitpart_from (after_digit : bool) (s : text) : option (list Z) :=
  match s with
  | [] => if after_digit then Some [] else None
  | c :: tl =>
      match digit_val c with
      | Some d => option_map (cons d) (digitpart_from true tl)
      | None =>
          if Ascii.eqb c "_" && after_digit then digitpart_from false tl
          else None
      end
  end.

Definition digitpart (s : text) : option (list Z) := digitpart_from false s.

Definition digits_value (ds : list Z) : Z :=
  fold_left (fun a d => 10 * a + d)%Z ds 0%Z.

(** Cut [s] at the first character satisfying [p]. *)
Fixpoint break (p : ascii -> bool) (s : text) : text * option text :=
  match s with
  | [] => ([], None)
  | c :: tl =>
      if p c then ([], Some tl)
      else let (a, b) := break p tl in (c :: a, b)
  end.

Definition take_sign (s : text) : bool * text :=
  match s with
  | c :: tl =>
      if Ascii.eqb c "-" then (true, tl)
      else if Ascii.eqb c "+" then (false, tl)
      else (false, s)
  | [] => (false, s)
  end.

Definition int_value (s : text) : option Q :=
  option_map (fun ds => inject_Z (digits_value ds)) (digitpart s).

Definition frac_value (s : text) : option Q :=
  option_map
    (fun ds => inject_Z (digits_value ds) / inject_Z (10 ^ Z.of_nat (length ds))%Z)%Q
    (digitpart s).

(** [number ::= [digitpart] "." digitpart | digitpart ["."]] *)
Definition parse_number (s : text) : option Q :=
  match break (Ascii.eqb ".") s with
  | (ip, None) => int_value ip
  | (ip, Some fp) =>
      match ip, fp with
      | [], [] => None
      | _ :: _, [] => int_value ip
      | [], _ :: _ => frac_value fp
      | _ :: _, _ :: _ =>
          match int_value ip, frac_value fp with
          | Some i, Some f => Some (i + f)%Q
          | _, _ => None
          end
      end
  end.

(** [exponent ::= ("e" | "E") [sign] digitpart], after the letter. *)
Definition parse_exponent (s : text) : option Z :=
  let (neg, ds) := take_sign s in
  option_map (fun d => if neg then (- digits_value d)%Z else digits_value d)
             (digitpart ds).

Definition is_e (c : ascii) : bool := Ascii.eqb c "e" || Ascii.eqb c "E".

Definition parse_floatnumber (s : text) : option Q :=
  match break is_e s with
  | (m, None) => parse_number m
  | (m, Some ex) =>
      match parse_number m, parse_exponent ex with
      | Some v, Some e => Some (v * (10 # 1) ^ e)%Q
      | _, _ => None
      end
  end.

(** [float(s)] for a string argument; [ValueError] when [s] is not a
    float literal. *)
Definition float (s : text) : result pyfloat :=
  let (neg, body) := take_sign (strip s) in
  let low := lower body in
  if text_eqb low (T "inf") || text_eqb low (T "infinity") then Ok (Infinity neg)
  else if text_eqb low (T "nan") then Ok NaN
  else match parse_floatnumber body with
       | Some v => Ok (Finite (if neg then (- v)%Q else v))
       | None => Raise ValueError
       end.

(** Round to the nearest integer, ties to even. *)
Definition round_half_even (q : Q) : Z :=
  let f := Qfloor q in
  match ((q - inject_Z f) ?= (1 # 2))%Q with
  | Lt => f
  | Gt => (f + 1)%Z
  | Eq => if Z.even f then f else (f + 1)%Z
  end.

Definition digit_char (d : Z) : ascii := ascii_of_nat (48 + Z.to_nat d).

Fixpoint decimal_fuel (fuel : nat) (n : Z) (acc : text) : text :=
  match fuel with
  | O => acc
  | S fuel' =>
      let acc' := digit_char (n mod 10)%Z :: acc in
      if (n <? 10)%Z then acc' else decimal_fuel fuel' (n / 10)%Z acc'
  end.

(** Decimal digits of a natural number, without leading zeros. *)
Definition decimal (n : Z) : text :=
  decimal_fuel (S (Z.to_nat (Z.log2 n))) n [].

(** [f"{x:.3f}"] *)
Definition format_3f (x : pyfloat) : text :=
  match x with
  | Finite q =>
      let n := round_half_even (Qabs q * 1000)%Q in
      (if Qlt_le_dec q 0%Q then T "-" else [])
        ++ decimal (n / 1000)%Z ++ T "."
        ++ [digit_char (n / 100 mod 10)%Z; digit_char (n / 10 mod 10)%Z;
            digit_char (n mod 10)%Z]
  | Infinity neg => if neg then T "-inf" else T "inf"
  | NaN => T "nan"
  end.

(** [round(x, 3)] *)
Definition round3 (x : pyfloat) : pyfloat :=
  match x with
  | Finite q =>
      let n := round_half_even (Qabs q * 1000)%Q in
      Finite ((if Qlt_le_dec q 0%Q then -1 else 1) * (inject_Z n / 1000))%Q
  | other => other
  end.

(** [x * n] for a float and an int. *)
Definition fmul (x : pyfloat) (n : Z) : pyfloat :=
  match x with
  | Finite q => Finite (q * inject_Z n)%Q
  | Infinity neg =>
      if (n =? 0)%Z then NaN else Infinity (xorb neg (n <? 0)%Z)
  | NaN => NaN
  end.

(** [x / n] for a float and an int. *)
Definition fdiv (x : pyfloat) (n : Z) : result pyfloat :=
  if (n =? 0)%Z then Raise ZeroDivisionError
  else match x with
       | Finite q => Ok (Finite (q / inject_Z n)%Q)
       | Infinity neg => Ok (Infinity (xorb neg (n <? 0)%Z))
       | NaN => Ok NaN
       end.

(** [int(x)]: truncation toward zero. *)
Definition int (x : pyfloat) : result Z :=
  match x with
  | Finite q => Ok (Z.quot (Qnum q) (Zpos (Qden q)))
  | Infinity _ => Raise OverflowError
  | NaN => Raise ValueError
  end.

(** ** [re] *)

Inductive regex :=
| Lit (t : text)                   (* the characters of [t] *)
| Many1 (cls : ascii -> bool)      (* [[cls]+]  greedy *)
| Many0 (cls : ascii -> bool)      (* [[cls]*]  greedy *)
| Lazy1 (cls : ascii -> bool)      (* [[cls]+?] lazy *)
| Maybe (r : regex)                (* [(?:r)?]  greedy *)
| Cap (r : regex)                  (* [(r)]     capturing group *)
| Cat (r1 r2 : regex).

Definition outcome := option (list text * text).

(** Longest run first, then shorter ones. *)
Fixpoint greedy (cls : ascii -> bool) (s : text) (k : text -> outcome) : outcome :=
  match s with
  | c :: tl =>
      if cls c then
        match greedy cls tl k with
        | Some x => Some x
        | None => k s
        end
      else k s
  | [] => k []
  end.

(** Shortest run first, then longer ones. *)
Fixpoint lazy (cls : ascii -> bool) (s : text) (k : text -> outcome) : outcome :=
  match k s with
  | Some x => Some x
  | None =>
      match s with
      | c :: tl => if cls c then lazy cls tl k else None
      | [] => None
      end
  end.

(** The part of [s] consumed when [s'] is what remains. *)
Definition consumed (s s' : text) : text := firstn (length s - length s') s.

(** [rmatch r s k]: match [r] at the start of [s], then continue with [k]
    on the rest; on failure of [k] the next alternative of [r] is tried.
    The result lists the captured groups in order and the unread text. *)
Fixpoint rmatch (r : regex) (s : text) (k : text -> outcome) : outcome :=
  match r with
  | Lit t =>
      match strip_prefix t s with
      | Some s' => k s'
      | None => None
      end
  | Many1 cls =>
      match s with
      | c :: tl => if cls c then greedy cls tl k else None
      | [] => None
      end
  | Many0 cls => greedy cls s k
  | Lazy1 cls =>
      match s with
      | c :: tl => if cls c then lazy cls tl k else None
      | [] => None
      end
  | Maybe r1 =>
      match rmatch r1 s k with
      | Some x => Some x
      | None => k s
      end
  | Cap r1 =>
      rmatch r1 s
        (fun s' =>
           match k s' with
           | Some (caps, rest) => Some (consumed s s' :: caps, rest)
           | None => None
           end)
  | Cat r1 r2 => rmatch r1 s (fun s' => rmatch r2 s' k)
  end.

(** [pattern.match(s)]: groups and the text after the match. *)
Definition match_at (r : regex) (s : text) : outcome :=
  rmatch r s (fun rest => Some ([], rest)).

(** [re.search(pattern, s)]: the leftmost match. *)
Fixpoint search (r : regex) (s : text) : outcome :=
  match match_at r s with
  | Some x => Some x
  | None =>
      match s with
      | [] => None
      | _ :: tl => search r tl
      end
  end.

(** [pattern.findall(s)]: the groups of the successive non-overlapping
    matches, scanning left to right.  The patterns of this program
    contain a literal, so no match is empty. *)
Fixpoint findall_fuel (fuel : nat) (r : regex) (s : text) : list (list text) :=
  match fuel with
  | O => []
  | S fuel' =>
      match match_at r s with
      | Some (caps, rest) => caps :: findall_fuel fuel' r rest
      | None =>
          match s with
          | [] => []
          | _ :: tl => findall_fuel fuel' r tl
          end
      end
  end.

Definition findall (r : regex) (s : text) : list (list text) :=
  findall_fuel (S (length s)) r s.

End Py.

(* ================================================================= *)
(** * binary64 arithmetic *)
(* ================================================================= *)

Module Binary64.
Import Py.

(** [2 ** e] *)
Definition pow2 (e : Z) : Q := ((2 # 1) ^ e)%Q.

(** The exponent of the leading bit of a positive rational:
    [2 ** ilog2 q <= q < 2 ** (ilog2 q + 1)]. *)
Definition ilog2 (q : Q) : Z :=
  let e := (Z.log2 (Qnum q) - Z.log2 (Zpos (Qden q)))%Z in
  if Qle_bool (pow2 e) q then e else (e - 1)%Z.

(** The exponent of the last of the 53 bits kept for [q]; the
    subnormal numbers share the exponent [-1074]. *)
Definition last_bit (q : Q) : Z := Z.max (ilog2 (Qabs q) - 52) (-1074).

Definition negative (q : Q) : bool := if Qlt_le_dec q 0%Q then true else false.

(** The binary64 number nearest to [q], ties to the even significand;
    from [2 ** 1024] on the result is an infinity. *)
Definition round64 (q : Q) : pyfloat :=
  if Qeq_bool q 0%Q then Finite 0%Q
  else
    let e := last_bit q in
    let m := round_half_even (Qabs q / pow2 e)%Q in
    let v := (inject_Z m * pow2 e)%Q in
    if Qle_bool (pow2 1024) v then Infinity (negative q)
    else Finite (Qred (if negative q then - v else v)%Q).

(** [float(n)] for an int, as the mixed operations convert it. *)
Definition float_of_int (n : Z) : result pyfloat :=
  match round64 (inject_Z n) with
  | Infinity _ => Raise OverflowError
  | x => Ok x
  end.

Definition is_zero (x : pyfloat) : bool :=
  match x with
  | Finite q => Qeq_bool q 0%Q
  | _ => false
  end.

Definition sign (x : pyfloat) : bool :=
  match x with
  | Finite q => negative q
  | Infinity neg => neg
  | NaN => false
  end.

(** [x * y] on floats. *)
Definition mul (x y : pyfloat) : pyfloat :=
  match x, y with
  | NaN, _ => NaN
  | _, NaN => NaN
  | Finite a, Finite b => round64 (a * b)%Q
  | _, _ => if is_zero x || is_zero y then NaN else Infinity (xorb (sign x) (sign y))
  end.

(** [x / y] on floats, for a divisor other than zero. *)
Definition div (x y : pyfloat) : pyfloat :=
  match x, y with
  | NaN, _ => NaN
  | _, NaN => NaN
  | Finite a, Finite b => round64 (a / b)%Q
  | Finite _, Infinity _ => Finite 0%Q
  | Infinity neg, Finite _ => Infinity (xorb neg (sign y))
  | Infinity _, Infinity _ => NaN
  end.

(** [x * n] for a float and an int. *)
Definition fmul (x : pyfloat) (n : Z) : result pyfloat :=
  y <- float_of_int n ;; Ok (mul x y).

(** [x / n] for a float and an int. *)
Definition fdiv (x : pyfloat) (n : Z) : result pyfloat :=
  y <- float_of_int n ;;
  if is_zero y then Raise ZeroDivisionError else Ok (div x y).

(** [float(s)] for a string argument. *)
Definition float (s : text) : result pyfloat :=
  x <- Py.float s ;;
  Ok (match x with
      | Finite q => round64 q
      | other => other
      end).

End Binary64.

(* ================================================================= *)
(** * The bracketed-tag patterns *)
(* ================================================================= *)

Module Tags.
Import Py.

(** [[^x]] *)
Definition other_than (x c : ascii) : bool := negb (Ascii.eqb c x).

(** [[0-9.,]] *)
Definition digit_dot_comma (c : ascii) : bool :=
  ((48 <=? code c) && (code c <=? 57)) || Ascii.eqb c "." || Ascii.eqb c ",".

Definition group (grouped : bool) (r : regex) : regex :=
  if grouped then Cap r else r.

(** The three tag patterns of the program are
    [<p>([^<]+)</p>\[(C+)\]] for a character class [C], with or without
    the two capturing groups. *)
Definition tag_pattern (grouped : bool) (coord_char : ascii -> bool) : regex :=
  Cat (Lit (T "<p>"))
  (Cat (group grouped (Many1 (other_than "<")))
  (Cat (Lit (T "</p>["))
  (Cat (group grouped (Many1 coord_char))
       (Lit (T "]"))))).

End Tags.

(* ================================================================= *)
(** * labelme/conversation_format.py : loader and conversation exporter *)
(* ================================================================= *)

Module ConversationFormat.
Import Py Tags.

(** [annotation_type] is one of ['bbox'], ['polygon'], ['point']. *)
Inductive AnnotationType := point | bbox | polygon.

Record ConversationAnnotation := {
  label : text;
  coordinates : list pyfloat;
  annotation_type : AnnotationType
}.

(** One entry of a [conversations] list: a dict with string values; a
    field is [None] when the key is absent. *)
Record Turn := {
  from : option text;
  value : option text;
  attribute : option text
}.

(** [d.get(key, default)] *)
Definition get {A} (field : option A) (default : A) : A :=
  match field with
  | Some v => v
  | None => default
  end.

(** [d.get(key) == s] *)
Definition get_eq (field : option text) (s : text) : bool :=
  match field with
  | Some v => text_eqb v s
  | None => false
  end.

(** [re.compile(r'<p>([^<]+)</p>\[([^\]]+)\]')] *)
Definition annotation_pattern : regex := tag_pattern true (other_than "]").

(** [[float(x.strip()) for x in coord_str.split(',')]] *)
Definition parse_coords (coord_str : text) : result (list pyfloat) :=
  mapM (fun x => float (strip x)) (split "," coord_str).

(** The body of the loop of [_parse_gpt_annotations] for one match:
    [None] is [continue] (either branch that logs a warning). *)
Definition parse_match (groups : list text) : option ConversationAnnotation :=
  match groups with
  | [label; coord_str] =>
      match parse_coords coord_str with
      | Ok coords =>
          if length coords =? 2 then
            Some {| label := strip label; coordinates := coords;
                    annotation_type := point |}
          else if length coords =? 4 then
            Some {| label := strip label; coordinates := coords;
                    annotation_type := bbox |}
          else if (6 <=? length coords) && (length coords mod 2 =? 0) then
            Some {| label := strip label; coordinates := coords;
                    annotation_type := polygon |}
          else None
      | Raise _ => None
      end
  | _ => None
  end.

Definition keep {A} (o : option A) : list A :=
  match o with
  | Some a => [a]
  | None => []
  end.

Definition _parse_gpt_annotations (gpt_response : text) : list ConversationAnnotation :=
  flat_map (fun groups => keep (parse_match groups))
           (findall annotation_pattern gpt_response).

(** A list is truthy when it is not empty. *)
Definition truthy {A} (l : list A) : bool :=
  match l with
  | [] => false
  | _ :: _ => true
  end.

Record Stats := {
  total_conversations : nat;
  grounding_conversations : nat;
  pure_text_conversations : nat;
  total_annotations : nat
}.

Definition analyze_step (stats : Stats) (conv : Turn) : Stats :=
  if get_eq (from conv) (T "gpt") then
    let annotations := _parse_gpt_annotations (get (value conv) []) in
    if truthy annotations then
      {| total_conversations := total_conversations stats;
         grounding_conversations := grounding_conversations stats + 1;
         pure_text_conversations := pure_text_conversations stats;
         total_annotations := total_annotations stats + length annotations |}
    else
      {| total_conversations := total_conversations stats;
         grounding_conversations := grounding_conversations stats;
         pure_text_conversations := pure_text_conversations stats + 1;
         total_annotations := total_annotations stats |}
  else stats.

Definition analyze_conversations (conversations : list Turn) : Stats :=
  fold_left analyze_step conversations
    {| total_conversations := length conversations;
       grounding_conversations := 0;
       pure_text_conversations := 0;
       total_annotations := 0 |}.

(** The [while i < len(conversations)] loop of
    [separate_conversation_types]; [fuel] bounds the iterations.
    [conversations[i]] is read with [nth_error]: [None] at [i] is
    [i >= len(conversations)], and [None] at [i + 1] is the [else] of
    [if i + 1 < len(conversations)]. *)
Fixpoint separate_loop (fuel : nat) (conversations : list Turn) (i : nat)
    (grounding_conversations text_conversations : list Turn)
    : list Turn * list Turn :=
  match fuel with
  | O => (grounding_conversations, text_conversations)
  | S fuel' =>
      match nth_error conversations i with
      | None => (grounding_conversations, text_conversations)
      | Some human_conv =>
          match nth_error conversations (i + 1) with
          | Some gpt_conv =>
              if get_eq (from human_conv) (T "human")
                 && get_eq (from gpt_conv) (T "gpt") then
                let annotations := _parse_gpt_annotations (get (value gpt_conv) []) in
                let conversation_pair := [human_conv; gpt_conv] in
                if truthy annotations then
                  separate_loop fuel' conversations (i + 2)
                    (grounding_conversations ++ conversation_pair)
                    text_conversations
                else
                  separate_loop fuel' conversations (i + 2)
                    grounding_conversations
                    (text_conversations ++ conversation_pair)
              else
                separate_loop fuel' conversations (i + 1)
                  grounding_conversations (text_conversations ++ [human_conv])
          | None =>
              separate_loop fuel' conversations (i + 1)
                grounding_conversations (text_conversations ++ [human_conv])
          end
      end
  end.

Definition separate_conversation_types (conversations : list Turn)
    : list Turn * list Turn :=
  separate_loop (length conversations) conversations 0 [] [].

(** ** Shapes *)

(** [other_data] of a shape dict: the key may be absent, hold [None], or
    hold a dict. *)
Inductive OtherData :=
| Absent
| IsNone
| Dict (items : list (text * text)).

(** A labelme shape dict, with the keys this module reads. *)
Record Shape := {
  shape_label : text;
  points : list (pyfloat * pyfloat);
  shape_type : text;
  vlm_task : option text;
  other_data : OtherData
}.

(** [coords[i]] *)
Definition item {A} (l : list A) (i : nat) : result A :=
  match nth_error l i with
  | Some a => Ok a
  | None => Raise IndexError
  end.

(** The polygon loop [for i in range(0, len(coords), 2)]. *)
Fixpoint polygon_points (coords : list pyfloat) (img_width img_height : Z)
    : result (list (pyfloat * pyfloat)) :=
  match coords with
  | [] => Ok []
  | [x] => Raise IndexError
  | x :: y :: tl =>
      rest <- polygon_points tl img_width img_height ;;
      Ok ((fmul x img_width, fmul y img_height) :: rest)
  end.

Definition convert_points (annotation : ConversationAnnotation)
    (img_width img_height : Z) : result (list (pyfloat * pyfloat) * text) :=
  let coords := coordinates annotation in
  match annotation_type annotation with
  | point =>
      x <- item coords 0 ;; y <- item coords 1 ;;
      Ok ([(fmul x img_width, fmul y img_height)], T "point")
  | bbox =>
      x1 <- item coords 0 ;; y1 <- item coords 1 ;;
      x2 <- item coords 2 ;; y2 <- item coords 3 ;;
      Ok ([(fmul x1 img_width, fmul y1 img_height);
           (fmul x2 img_width, fmul y2 img_height)], T "rectangle")
  | polygon =>
      pts <- polygon_points coords img_width img_height ;;
      Ok (pts, T "polygon")
  end.

(** [None] when the body raised (the [except Exception] handler). *)
Definition _convert_annotation_to_shape (annotation : ConversationAnnotation)
    (img_width img_height : Z) : option Shape :=
  match convert_points annotation img_width img_height with
  | Ok (pts, ty) =>
      Some {| shape_label := label annotation; points := pts;
              shape_type := ty; vlm_task := None; other_data := Dict [] |}
  | Raise _ => None
  end.

(** [f"<p>{label}</p>[{coord_str}]"] *)
Definition tag (label coord_str : text) : text :=
  T "<p>" ++ label ++ T "</p>[" ++ coord_str ++ T "]".

Fixpoint polygon_coords (points : list (pyfloat * pyfloat)) (img_width img_height : Z)
    : result (list text) :=
  match points with
  | [] => Ok []
  | p :: tl =>
      x_norm <- fdiv (fst p) img_width ;;
      y_norm <- fdiv (snd p) img_height ;;
      rest <- polygon_coords tl img_width img_height ;;
      Ok (format_3f x_norm :: format_3f y_norm :: rest)
  end.

(** One iteration of the shape loop of [_format_annotations_in_response]:
    the part appended, or [None] for an unsupported shape type. *)
Definition format_shape (shape : Shape) (img_width img_height : Z)
    : result (option text) :=
  let label := shape_label shape in
  let points := points shape in
  if text_eqb (shape_type shape) (T "point") then
    p0 <- item points 0 ;;
    x_norm <- fdiv (fst p0) img_width ;;
    y_norm <- fdiv (snd p0) img_height ;;
    Ok (Some (tag label (format_3f x_norm ++ T "," ++ format_3f y_norm)))
  else if text_eqb (shape_type shape) (T "rectangle") then
    p0 <- item points 0 ;;
    x1_norm <- fdiv (fst p0) img_width ;;
    y1_norm <- fdiv (snd p0) img_height ;;
    p1 <- item points 1 ;;
    x2_norm <- fdiv (fst p1) img_width ;;
    y2_norm <- fdiv (snd p1) img_height ;;
    Ok (Some (tag label (format_3f x1_norm ++ T "," ++ format_3f y1_norm ++ T ","
                         ++ format_3f x2_norm ++ T "," ++ format_3f y2_norm)))
  else if text_eqb (shape_type shape) (T "polygon") then
    coords <- polygon_coords points img_width img_height ;;
    Ok (Some (tag label (join (T ",") coords)))
  else Ok None.

Fixpoint format_parts (shapes : list Shape) (img_width img_height : Z)
    : result (list text) :=
  match shapes with
  | [] => Ok []
  | shape :: tl =>
      part <- format_shape shape img_width img_height ;;
      rest <- format_parts tl img_width img_height ;;
      Ok (keep part ++ rest)
  end.

Definition _format_annotations_in_response (shapes : list Shape)
    (img_width img_height : Z) : result text :=
  match shapes with
  | [] => Ok (T "I don't see any specific objects to detect in this image.")
  | _ :: _ =>
      parts <- format_parts shapes img_width img_height ;;
      match parts with
      | [p0] => Ok (T "There is " ++ p0 ++ T " in the image.")
      | [p0; p1] =>
          Ok (T "There are " ++ p0 ++ T " and " ++ p1 ++ T " in the image.")
      | _ =>
          last_part <- item (rev parts) 0 ;;
          Ok (T "There are " ++ join (T ", ") (removelast parts)
                ++ T ", and " ++ last_part ++ T " in the image.")
      end
  end.

(** ** ShareGPT exporter *)

(** An entry of [caption_history]. *)
Record HistoryEntry := {
  prompt : option text;
  entry_description : option text
}.

(** [label_file.otherData], a dict. *)
Record OtherDataDict := {
  caption_history : option (list HistoryEntry)
}.

Record LabelFile := {
  imageData : option (list Byte.byte);
  imagePath : option text;
  shapes : list Shape;
  otherData : option OtherDataDict
}.

(** One JSON object written to the output file. *)
Record Document := {
  doc_image : option text;
  doc_task : text;
  doc_conversations : list Turn
}.

(** What an export call did: the value returned and the documents
    written to [output_filename] ([None]: the file was not opened). *)
Record Outcome := {
  returned : bool;
  written : option (list Document)
}.

Definition failed : Outcome := {| returned := false; written := None |}.

Definition say (speaker content : text) : Turn :=
  {| from := Some speaker; value := Some content; attribute := None |}.

(** [a < b] on floats. *)
Definition flt (a b : pyfloat) : bool :=
  match a, b with
  | Finite x, Finite y => negb (Qle_bool y x)
  | Finite _, Infinity neg => negb neg
  | Infinity neg, Finite _ => neg
  | Infinity n1, Infinity n2 => n1 && negb n2
  | _, _ => false
  end.

(** [min(xs)] and [max(xs)] of a non-empty list: the builtin keeps the
    first element until a later one compares strictly below (above). *)
Definition py_min (first : pyfloat) (others : list pyfloat) : pyfloat :=
  fold_left (fun best x => if flt x best then x else best) others first.

Definition py_max (first : pyfloat) (others : list pyfloat) : pyfloat :=
  fold_left (fun best x => if flt best x then x else best) others first.

(** [osp.basename] on POSIX paths. *)
Definition basename (path : text) : text :=
  fold_left (fun acc c => if Ascii.eqb c "/" then [] else acc ++ [c]) path [].

(** [x or default] for an optional string. *)
Definition or_default (x : option text) (default : text) : text :=
  match x with
  | Some (c :: tl) => c :: tl
  | _ => default
  end.

Section Exporter.

(** The size [PIL.Image.open(io.BytesIO(image_data)).size]. *)
Variable image_size : list Byte.byte -> result (Z * Z).

(** The order in which [list(set(labels))] lists the distinct labels. *)
Variable list_of_set : list text -> list text.

(** [json.dumps({"bbox_2d": box, "label": label}, separators=(',', ': '))] *)
Variable json_dumps_box : list pyfloat -> text -> text.

Definition box_object (x1 y1 x2 y2 : pyfloat) (label : text)
    (img_width img_height : Z) : result text :=
  x1_norm <- fdiv x1 img_width ;;
  y1_norm <- fdiv y1 img_height ;;
  x2_norm <- fdiv x2 img_width ;;
  y2_norm <- fdiv y2 img_height ;;
  Ok (json_dumps_box [round3 x1_norm; round3 y1_norm; round3 x2_norm; round3 y2_norm]
                     label).

(** One iteration of the shape loop of [_format_shapes_as_json]. *)
Definition shape_as_json (shape : Shape) (img_width img_height : Z)
    : result (option text) :=
  let label := shape_label shape in
  match points shape with
  | p0 :: p1 :: more =>
      if text_eqb (shape_type shape) (T "rectangle") then
        line <- box_object (fst p0) (snd p0) (fst p1) (snd p1) label
                           img_width img_height ;;
        Ok (Some line)
      else if text_eqb (shape_type shape) (T "polygon") && (3 <=? length (points shape)) then
        let xs := map fst (p1 :: more) in
        let ys := map snd (p1 :: more) in
        line <- box_object (py_min (fst p0) xs) (py_min (snd p0) ys)
                           (py_max (fst p0) xs) (py_max (snd p0) ys) label
                           img_width img_height ;;
        Ok (Some line)
      else Ok None
  | _ => Ok None
  end.

Fixpoint shapes_as_json (shapes : list Shape) (img_width img_height : Z)
    : result (list text) :=
  match shapes with
  | [] => Ok []
  | shape :: tl =>
      line <- shape_as_json shape img_width img_height ;;
      rest <- shapes_as_json tl img_width img_height ;;
      Ok (keep line ++ rest)
  end.

Definition _format_shapes_as_json (shapes : list Shape) (img_width img_height : Z)
    : result text :=
  match shapes with
  | [] => Ok []
  | _ :: _ =>
      json_lines <- shapes_as_json shapes img_width img_height ;;
      Ok (join (T ",") json_lines)
  end.

(** The caption loop shared by the export functions: one
    human/gpt pair for each entry with a prompt and a description. *)
Definition caption_pair (entry : HistoryEntry) : option (Turn * Turn) :=
  let prompt := strip (get (prompt entry) []) in
  let description := strip (get (entry_description entry) []) in
  if truthy prompt && truthy description then
    Some (say (T "human") prompt, say (T "gpt") description)
  else None.

(** The grouping loop of [export_single_file]: only [vlm_task], a key of
    the shape itself, is read. *)
Definition single_file_step (groups : list Shape * list Shape) (shape : Shape)
    : list Shape * list Shape :=
  let (detection_shapes, ocr_shapes) := groups in
  let task_type := vlm_task shape in
  if get_eq task_type (T "Detection") then (detection_shapes ++ [shape], ocr_shapes)
  else if get_eq task_type (T "OCR") then (detection_shapes, ocr_shapes ++ [shape])
  else (detection_shapes, ocr_shapes).

Definition single_file_groups (shapes : list Shape) : list Shape * list Shape :=
  fold_left single_file_step shapes ([], []).

Definition task_document (image task human_prompt gpt_response : text) : Document :=
  {| doc_image := Some image; doc_task := task;
     doc_conversations := [say (T "human") human_prompt; say (T "gpt") gpt_response] |}.

Definition detection_prompt : text :=
  T "Outline all object with bounding box using this format: <p>label</p>[x1,y1,x2,y2], <p>label</p>[x1,y1,x2,y2]".

Definition ocr_prompt : text :=
  T "Read and Outline all words with bounding box using this format: <p>label</p>[x1,y1,x2,y2], <p>label</p>[x1,y1,x2,y2]".

(** The body of the [try] block of [export_single_file] up to the list
    [json_objects]. *)
Definition single_file_objects (label_file : LabelFile) (image_data : list Byte.byte)
    : result (list Document) :=
  size <- image_size image_data ;;
  let (img_width, img_height) := size in
  let caption_history :=
    match otherData label_file with
    | Some other => get (caption_history other) []
    | None => []
    end in
  let (detection_shapes, ocr_shapes) := single_file_groups (shapes label_file) in
  let image := basename (or_default (imagePath label_file) (T "image.jpg")) in
  let captions :=
    flat_map (fun entry =>
                match caption_pair entry with
                | Some (h, g) =>
                    [{| doc_image := Some image; doc_task := T "Caption";
                        doc_conversations := [h; g] |}]
                | None => []
                end) caption_history in
  detection <-
    (if truthy detection_shapes then
       gpt_response <- _format_shapes_as_json detection_shapes img_width img_height ;;
       Ok [task_document image (T "Detection") detection_prompt gpt_response]
     else Ok []) ;;
  ocr <-
    (if truthy ocr_shapes then
       gpt_response <- _format_shapes_as_json ocr_shapes img_width img_height ;;
       Ok [task_document image (T "OCR") ocr_prompt gpt_response]
     else Ok []) ;;
  Ok (captions ++ detection ++ ocr).

Definition export_single_file (label_file : LabelFile) : Outcome :=
  match imageData label_file with
  | Some (b :: image_data) =>
      match single_file_objects label_file (b :: image_data) with
      | Ok [] => failed
      | Ok (obj :: objs) => {| returned := true; written := Some (obj :: objs) |}
      | Raise _ => failed
      end
  | _ => failed
  end.

(** [hasattr(shape, 'other_data')]: a shape is a dict, and a key of a
    dict is not an attribute of it. *)
Definition hasattr_other_data (shape : Shape) : bool := false.

(** [d.get('vlm_task')] on the [other_data] dict. *)
Definition dict_vlm_task (items : list (text * text)) : option text :=
  option_map snd (find (fun kv => text_eqb (fst kv) (T "vlm_task")) items).

(** The [task_type] computed at the head of the grouping loop of [export]. *)
Definition export_task_type (shape : Shape) : option text :=
  match other_data shape with
  | Dict (kv :: items) =>
      if hasattr_other_data shape then dict_vlm_task (kv :: items) else None
  | _ => None
  end.

(** The grouping loop of [export]. *)
Definition export_step (groups : list Shape * list Shape) (shape : Shape)
    : list Shape * list Shape :=
  let (detection_shapes, ocr_shapes) := groups in
  let task_type := export_task_type shape in
  if get_eq task_type (T "Detection") then (detection_shapes ++ [shape], ocr_shapes)
  else if get_eq task_type (T "OCR") then (detection_shapes, ocr_shapes ++ [shape])
  else (detection_shapes ++ [shape], ocr_shapes).

Definition export_groups (shapes : list Shape) : list Shape * list Shape :=
  fold_left export_step shapes ([], []).

(** A word between double quotes. *)
Definition quoted (word : text) : text :=
  [ascii_of_nat 34] ++ word ++ [ascii_of_nat 34].

(** [f'Outline the position of each {objects_text} and output ...'] *)
Definition outline_prompt (group : list Shape) : text :=
  let unique_labels := list_of_set (map shape_label group) in
  let objects_text :=
    match unique_labels with
    | [only] => only
    | _ => join (T ", ") unique_labels
    end in
  T "Outline the position of each " ++ objects_text
    ++ T " and output all the coordinates in JSON format {" ++ quoted (T "bbox_2d")
    ++ T ": [x1, y1, x2, y2], " ++ quoted (T "label") ++ T ": " ++ quoted (T "label")
    ++ T "}".

(** [shape.get('other_data', {}).get('vlm_task') == task] *)
Definition tagged_in_other_data (task : text) (shape : Shape) : result bool :=
  match other_data shape with
  | Absent => Ok false
  | IsNone => Raise AttributeError
  | Dict items => Ok (get_eq (dict_vlm_task items) task)
  end.

(** [sum(1 for shape in shapes if ...)] *)
Fixpoint count_tagged (task : text) (shapes : list Shape) : result nat :=
  match shapes with
  | [] => Ok 0
  | shape :: tl =>
      hit <- tagged_in_other_data task shape ;;
      n <- count_tagged task tl ;;
      Ok ((if hit then 1 else 0) + n)
  end.

(** The body of the [try] block of [export] up to [sharegpt_data]. *)
Definition export_document (label_file : LabelFile) (image_data : list Byte.byte)
    : result Document :=
  size <- image_size image_data ;;
  let (img_width, img_height) := size in
  other <- match otherData label_file with
           | Some other => Ok other
           | None => Raise AttributeError
           end ;;
  let caption_history := get (caption_history other) [] in
  let captions :=
    flat_map (fun entry =>
                match caption_pair entry with
                | Some (h, g) => [h; g]
                | None => []
                end) caption_history in
  let (detection_shapes, ocr_shapes) := export_groups (shapes label_file) in
  detection <-
    (if truthy detection_shapes then
       gpt_response <- _format_shapes_as_json detection_shapes img_width img_height ;;
       Ok [say (T "human") (outline_prompt detection_shapes); say (T "gpt") gpt_response]
     else Ok []) ;;
  ocr <-
    (if truthy ocr_shapes then
       gpt_response <- _format_shapes_as_json ocr_shapes img_width img_height ;;
       Ok [say (T "human") (outline_prompt ocr_shapes); say (T "gpt") gpt_response]
     else Ok []) ;;
  detection_count <- count_tagged (T "Detection") (shapes label_file) ;;
  ocr_count <- count_tagged (T "OCR") (shapes label_file) ;;
  let task_type :=
    if 0 <? detection_count then T "Detection"
    else if 0 <? ocr_count then T "OCR"
    else T "Caption" in
  Ok {| doc_image := imagePath label_file; doc_task := task_type;
        doc_conversations := captions ++ detection ++ ocr |}.

Definition export (label_file : LabelFile) : Outcome :=
  match imageData label_file with
  | Some (b :: image_data) =>
      match export_document label_file (b :: image_data) with
      | Ok sharegpt_data => {| returned := true; written := Some [sharegpt_data] |}
      | Raise _ => failed
      end
  | _ => failed
  end.

End Exporter.

End ConversationFormat.

(* ================================================================= *)
(** * labelme/vlm/utils.py and the dispatch of bbox_detection.py *)
(* ================================================================= *)

Module VlmUtils.
Import Py Tags.

(** What [json.loads] returns. *)
#[warnings="-register-all"]
Inductive value :=
| VNone
| VBool (b : bool)
| VInt (z : Z)
| VFloat (f : pyfloat)
| VStr (s : text)
| VList (items : list value)
| VDict (entries : list (text * value)).

(** [d.get(key)] on the entries of a dict. *)
Fixpoint lookup (key : text) (entries : list (text * value)) : option value :=
  match entries with
  | [] => None
  | (k, v) :: tl => if text_eqb k key then Some v else lookup key tl
  end.

(** [key in d] *)
Definition has_key (key : text) (entries : list (text * value)) : bool :=
  match lookup key entries with
  | Some _ => true
  | None => false
  end.

(** [d.get(key, default)] *)
Definition get_or (key : text) (entries : list (text * value)) (default : value) : value :=
  match lookup key entries with
  | Some v => v
  | None => default
  end.

(** [isinstance(item, dict) and k1 in item and k2 in item] *)
Definition dict_with (k1 k2 : text) (item : value) : bool :=
  match item with
  | VDict entries => has_key k1 entries && has_key k2 entries
  | _ => false
  end.

(** [isinstance(data, list) and all(dict_with k1 k2 item for item in data)] *)
Definition list_of_dicts_with (k1 k2 : text) (data : value) : bool :=
  match data with
  | VList items => forallb (dict_with k1 k2) items
  | _ => false
  end.

(** [item[key]] *)
Definition subscript (item : value) (key : text) : result value :=
  match item with
  | VDict entries =>
      match lookup key entries with
      | Some v => Ok v
      | None => Raise KeyError
      end
  | _ => Raise TypeError
  end.

(** [item.get(key, default)]; only dicts have the method. *)
Definition method_get (item : value) (key : text) (default : value) : result value :=
  match item with
  | VDict entries => Ok (get_or key entries default)
  | _ => Raise AttributeError
  end.

Definition canonical (bbox label description confidence : value) : value :=
  VDict [(T "bbox", bbox); (T "label", label);
         (T "description", description); (T "confidence", confidence)].

(** The loop body of schema B. *)
Definition convert_bbox_2d (item : value) : result value :=
  bbox <- subscript item (T "bbox_2d") ;;
  label <- subscript item (T "label") ;;
  description <- method_get item (T "description") (VStr []) ;;
  confidence <- method_get item (T "confidence") VNone ;;
  Ok (canonical bbox label description confidence).

(** The loop body of schema C. *)
Definition convert_position (item : value) : result value :=
  pos <- subscript item (T "position") ;;
  x <- method_get pos (T "x") (VInt 0) ;;
  y <- method_get pos (T "y") (VInt 0) ;;
  label <- subscript item (T "type") ;;
  description <- method_get item (T "description") (VStr []) ;;
  confidence <- method_get item (T "confidence") VNone ;;
  Ok (canonical (VList [x; y; x; y]) label description confidence).

Definition elements (data : value) : list value :=
  match data with
  | VList items => items
  | _ => []
  end.

(** The schema cascade applied to the decoded payload. *)
Definition normalize_detections (data : value) : result (list value * text) :=
  if list_of_dicts_with (T "bbox") (T "label") data then
    Ok (elements data, [])
  else if list_of_dicts_with (T "bbox_2d") (T "label") data then
    converted <- mapM convert_bbox_2d (elements data) ;;
    Ok (converted, [])
  else if list_of_dicts_with (T "position") (T "type") data then
    converted <- mapM convert_position (elements data) ;;
    Ok (converted, [])
  else Raise ValueError.

(** [r"```(?:json)?\s*(.+?)```"] with [re.DOTALL] *)
Definition fence_pattern : regex :=
  Cat (Lit (T "```"))
  (Cat (Maybe (Lit (T "json")))
  (Cat (Many0 is_space)
  (Cat (Cap (Lazy1 (fun _ => true)))
       (Lit (T "```"))))).

Section JsonDecoder.

(** [json.loads]; [None] stands for [json.JSONDecodeError]. *)
Variable json_loads : text -> option value.

Definition parse_vlm_json_response (text : text) : result (list value * Py.text) :=
  let cleaned_text := strip text in
  let cleaned_text :=
    match search fence_pattern cleaned_text with
    | Some (group1 :: _, _) => strip group1
    | _ => cleaned_text
    end in
  match json_loads cleaned_text with
  | Some data => normalize_detections data
  | None => Raise ValueError
  end.

End JsonDecoder.

(** The detection dict built by [parse_conversation_format_response]. *)
Record Detection := {
  det_bbox : list pyfloat;
  det_label : text;
  det_description : text
}.

(** [r'<p>([^<]+)</p>\[([0-9.,]+)\]'] *)
Definition response_pattern : regex := tag_pattern true digit_dot_comma.

Definition parse_detection (groups : list text) : option Detection :=
  match groups with
  | [label; coords_str] =>
      match mapM (fun x => float (strip x)) (split "," coords_str) with
      | Ok coords =>
          if length coords =? 4 then
            Some {| det_bbox := coords; det_label := strip label;
                    det_description := [] |}
          else None
      | Raise _ => None
      end
  | _ => None
  end.

Definition parse_conversation_format_response (text : text)
    : list Detection * Py.text :=
  (flat_map (fun groups => match parse_detection groups with
                           | Some d => [d]
                           | None => []
                           end)
            (findall response_pattern text),
   text).

Definition is_json_response (text : text) : bool :=
  let cleaned := strip text in
  (startswith (T "[") cleaned && endswith (T "]") cleaned)
  || contains (T "```json") cleaned.

(** [bool(re.search(r'<p>[^<]+</p>\[[0-9.,]+\]', text))] *)
Definition is_conversation_format_response (text : text) : bool :=
  match search (tag_pattern false digit_dot_comma) text with
  | Some _ => true
  | None => false
  end.

Record BboxDetection := {
  bbox : list pyfloat;
  label : text;
  confidence : option pyfloat;
  description : option text
}.

(** The shape dict built by [convert_detections_to_labelme_shapes]
    ([group_id] is [None] and [flags] is empty). *)
Record RectangleShape := {
  rect_label : text;
  rect_points : list (Z * Z);
  rect_shape_type : text;
  rect_description : text
}.

(** [int(x * size)] *)
Definition to_pixels (x : pyfloat) (size : Z) : result Z := int (fmul x size).

(** [int(x / input_size * size)] *)
Definition rescale (x : pyfloat) (input_size size : Z) : result Z :=
  v <- fdiv x input_size ;; int (fmul v size).

(** [description or ""] *)
Definition or_empty (d : option text) : text :=
  match d with
  | Some s => s
  | None => []
  end.

(** The loop body of [convert_detections_to_labelme_shapes]. *)
Definition convert_detection (detection : BboxDetection) (image_shape : Z * Z)
    (model_input_size : option (Z * Z)) (normalized_coords : bool)
    : result RectangleShape :=
  let (img_height, img_width) := image_shape in
  match bbox detection with
  | [x1; y1; x2; y2] =>
      corners <-
        (if normalized_coords then
           abs_x1 <- to_pixels x1 img_width ;;
           abs_y1 <- to_pixels y1 img_height ;;
           abs_x2 <- to_pixels x2 img_width ;;
           abs_y2 <- to_pixels y2 img_height ;;
           Ok (abs_x1, abs_y1, abs_x2, abs_y2)
         else
           match model_input_size with
           | None => Raise ValueError
           | Some (input_height, input_width) =>
               abs_x1 <- rescale x1 input_width img_width ;;
               abs_y1 <- rescale y1 input_height img_height ;;
               abs_x2 <- rescale x2 input_width img_width ;;
               abs_y2 <- rescale y2 input_height img_height ;;
               Ok (abs_x1, abs_y1, abs_x2, abs_y2)
           end) ;;
      let '(abs_x1, abs_y1, abs_x2, abs_y2) := corners in
      let '(abs_x1, abs_x2) :=
        if (abs_x1 >? abs_x2)%Z then (abs_x2, abs_x1) else (abs_x1, abs_x2) in
      let '(abs_y1, abs_y2) :=
        if (abs_y1 >? abs_y2)%Z then (abs_y2, abs_y1) else (abs_y1, abs_y2) in
      Ok {| rect_label := label detection;
            rect_points := [(abs_x1, abs_y1); (abs_x2, abs_y2)];
            rect_shape_type := T "rectangle";
            rect_description := or_empty (description detection) |}
  | _ => Raise ValueError
  end.

Definition convert_detections_to_labelme_shapes (detections : list BboxDetection)
    (image_shape : Z * Z) (model_input_size : option (Z * Z))
    (normalized_coords : bool) : result (list RectangleShape) :=
  mapM (fun detection =>
          convert_detection detection image_shape model_input_size normalized_coords)
       detections.

(** The branch taken by [detect_objects_with_vlm] once the model has
    answered [raw_output]; the last branch returns at once. *)
Inductive Dispatch :=
| ParseConversationFormat
| ParseJson
| NoBoxes (shapes : list RectangleShape) (description_text : text).

Definition dispatch_response (raw_output : text) : Dispatch :=
  if is_conversation_format_response raw_output then ParseConversationFormat
  else if is_json_response raw_output then ParseJson
  else NoBoxes [] raw_output.

End VlmUtils.

(* ================================================================= *)
(** * The numeric paths in binary64 *)
(* ================================================================= *)

(** The functions of [labelme/conversation_format.py] that compute with
    floats, with the arithmetic of [Binary64]: a product and a quotient
    are rounded, and converting an int that is too large raises. *)
Module ConversationFormat64.
Import Py Tags ConversationFormat.

(** [[float(x.strip()) for x in coord_str.split(',')]] *)
Definition parse_coords (coord_str : text) : result (list pyfloat) :=
  mapM (fun x => Binary64.float (strip x)) (split "," coord_str).

(** The body of the loop of [_parse_gpt_annotations] for one match. *)
Definition parse_match (groups : list text) : option ConversationAnnotation :=
  match groups with
  | [label; coord_str] =>
      match parse_coords coord_str with
      | Ok coords =>
          if length coords =? 2 then
            Some {| label := strip label; coordinates := coords;
                    annotation_type := point |}
          else if length coords =? 4 then
            Some {| label := strip label; coordinates := coords;
                    annotation_type := bbox |}
          else if (6 <=? length coords) && (length coords mod 2 =? 0) then
            Some {| label := strip label; coordinates := coords;
                    annotation_type := polygon |}
          else None
      | Raise _ => None
      end
  | _ => None
  end.

Definition _parse_gpt_annotations (gpt_response : text) : list ConversationAnnotation :=
  flat_map (fun groups => keep (parse_match groups))
           (findall annotation_pattern gpt_response).

(** The polygon loop [for i in range(0, len(coords), 2)]. *)
Fixpoint polygon_points (coords : list pyfloat) (img_width img_height : Z)
    : result (list (pyfloat * pyfloat)) :=
  match coords with
  | [] => Ok []
  | [x] => _ <- Binary64.fmul x img_width ;; Raise IndexError
  | x :: y :: tl =>
      x_abs <- Binary64.fmul x img_width ;;
      y_abs <- Binary64.fmul y img_height ;;
      rest <- polygon_points tl img_width img_height ;;
      Ok ((x_abs, y_abs) :: rest)
  end.

Definition convert_points (annotation : ConversationAnnotation)
    (img_width img_height : Z) : result (list (pyfloat * pyfloat) * text) :=
  let coords := coordinates annotation in
  match annotation_type annotation with
  | point =>
      x <- item coords 0 ;; x_abs <- Binary64.fmul x img_width ;;
      y <- item coords 1 ;; y_abs <- Binary64.fmul y img_height ;;
      Ok ([(x_abs, y_abs)], T "point")
  | bbox =>
      x1 <- item coords 0 ;; x1_abs <- Binary64.fmul x1 img_width ;;
      y1 <- item coords 1 ;; y1_abs <- Binary64.fmul y1 img_height ;;
      x2 <- item coords 2 ;; x2_abs <- Binary64.fmul x2 img_width ;;
      y2 <- item coords 3 ;; y2_abs <- Binary64.fmul y2 img_height ;;
      Ok ([(x1_abs, y1_abs); (x2_abs, y2_abs)], T "rectangle")
  | polygon =>
      pts <- polygon_points coords img_width img_height ;;
      Ok (pts, T "polygon")
  end.

(** [None] when the body raised (the [except Exception] handler). *)
Definition _convert_annotation_to_shape (annotation : ConversationAnnotation)
    (img_width img_height : Z) : option Shape :=
  match convert_points annotation img_width img_height with
  | Ok (pts, ty) =>
      Some {| shape_label := label annotation; points := pts;
              shape_type := ty; vlm_task := None; other_data := Dict [] |}
  | Raise _ => None
  end.

Fixpoint polygon_coords (points : list (pyfloat * pyfloat)) (img_width img_height : Z)
    : result (list text) :=
  match points with
  | [] => Ok []
  | p :: tl =>
      x_norm <- Binary64.fdiv (fst p) img_width ;;
      y_norm <- Binary64.fdiv (snd p) img_height ;;
      rest <- polygon_coords tl img_width img_height ;;
      Ok (format_3f x_norm :: format_3f y_norm :: rest)
  end.

(** One iteration of the shape loop of [_format_annotations_in_response]:
    the part appended, or [None] for an unsupported shape type. *)
Definition format_shape (shape : Shape) (img_width img_height : Z)
    : result (option text) :=
  let label := shape_label shape in
  let points := points shape in
  if text_eqb (shape_type shape) (T "point") then
    p0 <- item points 0 ;;
    x_norm <- Binary64.fdiv (fst p0) img_width ;;
    y_norm <- Binary64.fdiv (snd p0) img_height ;;
    Ok (Some (tag label (format_3f x_norm ++ T "," ++ format_3f y_norm)))
  else if text_eqb (shape_type shape) (T "rectangle") then
    p0 <- item points 0 ;;
    x1_norm <- Binary64.fdiv (fst p0) img_width ;;
    y1_norm <- Binary64.fdiv (snd p0) img_height ;;
    p1 <- item points 1 ;;
    x2_norm <- Binary64.fdiv (fst p1) img_width ;;
    y2_norm <- Binary64.fdiv (snd p1) img_height ;;
    Ok (Some (tag label (format_3f x1_norm ++ T "," ++ format_3f y1_norm ++ T ","
                         ++ format_3f x2_norm ++ T "," ++ format_3f y2_norm)))
  else if text_eqb (shape_type shape) (T "polygon") then
    coords <- polygon_coords points img_width img_height ;;
    Ok (Some (tag label (join (T ",") coords)))
  else Ok None.

Fixpoint format_parts (shapes : list Shape) (img_width img_height : Z)
    : result (list text) :=
  match shapes with
  | [] => Ok []
  | shape :: tl =>
      part <- format_shape shape img_width img_height ;;
      rest <- format_parts tl img_width img_height ;;
      Ok (keep part ++ rest)
  end.

Definition _format_annotations_in_response (shapes : list Shape)
    (img_width img_height : Z) : result text :=
  match shapes with
  | [] => Ok (T "I don't see any specific objects to detect in this image.")
  | _ :: _ =>
      parts <- format_parts shapes img_width img_height ;;
      match parts with
      | [p0] => Ok (T "There is " ++ p0 ++ T " in the image.")
      | [p0; p1] =>
          Ok (T "There are " ++ p0 ++ T " and " ++ p1 ++ T " in the image.")
      | _ =>
          last_part <- item (rev parts) 0 ;;
          Ok (T "There are " ++ join (T ", ") (removelast parts)
                ++ T ", and " ++ last_part ++ T " in the image.")
      end
  end.

End ConversationFormat64.

(** [convert_detections_to_labelme_shapes] of [labelme/vlm/utils.py]
    with the arithmetic of [Binary64]. *)
Module VlmUtils64.
Import Py VlmUtils.

(** [int(x * size)] *)
Definition to_pixels (x : pyfloat) (size : Z) : result Z :=
  v <- Binary64.fmul x size ;; int v.

(** [int(x / input_size * size)] *)
Definition rescale (x : pyfloat) (input_size size : Z) : result Z :=
  v <- Binary64.fdiv x input_size ;; w <- Binary64.fmul v size ;; int w.

(** The loop body of [convert_detections_to_labelme_shapes]. *)
Definition convert_detection (detection : BboxDetection) (image_shape : Z * Z)
    (model_input_size : option (Z * Z)) (normalized_coords : bool)
    : result RectangleShape :=
  let (img_height, img_width) := image_shape in
  match bbox detection with
  | [x1; y1; x2; y2] =>
      corners <-
        (if normalized_coords then
           abs_x1 <- to_pixels x1 img_width ;;
           abs_y1 <- to_pixels y1 img_height ;;
           abs_x2 <- to_pixels x2 img_width ;;
           abs_y2 <- to_pixels y2 img_height ;;
           Ok (abs_x1, abs_y1, abs_x2, abs_y2)
         else
           match model_input_size with
           | None => Raise ValueError
           | Some (input_height, input_width) =>
               abs_x1 <- rescale x1 input_width img_width ;;
               abs_y1 <- rescale y1 input_height img_height ;;
               abs_x2 <- rescale x2 input_width img_width ;;
               abs_y2 <- rescale y2 input_height img_height ;;
               Ok (abs_x1, abs_y1, abs_x2, abs_y2)
           end) ;;
      let '(abs_x1, abs_y1, abs_x2, abs_y2) := corners in
      let '(abs_x1, abs_x2) :=
        if (abs_x1 >? abs_x2)%Z then (abs_x2, abs_x1) else (abs_x1, abs_x2) in
      let '(abs_y1, abs_y2) :=
        if (abs_y1 >? abs_y2)%Z then (abs_y2, abs_y1) else (abs_y1, abs_y2) in
      Ok {| rect_label := label detection;
            rect_points := [(abs_x1, abs_y1); (abs_x2, abs_y2)];
            rect_shape_type := T "rectangle";
            rect_description := or_empty (description detection) |}
  | _ => Raise ValueError
  end.

Definition convert_detections_to_labelme_shapes (detections : list BboxDetection)
    (image_shape : Z * Z) (model_input_size : option (Z * Z))
    (normalized_coords : bool) : result (list RectangleShape) :=
  mapM (fun detection =>
          convert_detection detection image_shape model_input_size normalized_coords)
       detections.

End VlmUtils64.

(* ================================================================= *)
(** * Facts about the base layer *)
(* ================================================================= *)

Module PyFacts.
Import Py.

Lemma strip_prefix_app p s : strip_prefix p (p ++ s) = Some s.
Proof.
  induction p as [|x p IH]; simpl; [reflexivity|].
  rewrite Ascii.eqb_refl. exact IH.
Qed.

Lemma strip_prefix_inv p : forall s s', strip_prefix p s = Some s' -> s = p ++ s'.
Proof.
  induction p as [|x p IH]; simpl; intros s s' H.
  - congruence.
  - destruct s as [|y s]; [discriminate|].
    destruct (Ascii.eqb x y) eqn:E; [|discriminate].
    apply Ascii.eqb_eq in E. subst y. f_equal. apply IH. exact H.
Qed.

Lemma consumed_app (x y : text) : consumed (x ++ y) y = x.
Proof.
  unfold consumed. rewrite length_app.
  replace (length x + length y - length y) with (length x) by lia.
  rewrite firstn_app, Nat.sub_diag, firstn_all. simpl. apply app_nil_r.
Qed.

(** What a greedy run hands to its continuation. *)
Lemma greedy_sound cls k x : forall s,
  greedy cls s k = Some x ->
  exists pre post, s = pre ++ post /\ forallb cls pre = true /\ k post = Some x.
Proof.
  induction s as [|c tl IH]; simpl; intros H.
  - exists [], []. auto.
  - destruct (cls c) eqn:Ec.
    + destruct (greedy cls tl k) as [y|] eqn:G.
      * injection H as ->. destruct (IH eq_refl) as (pre & post & -> & Hp & Hk).
        exists (c :: pre), post. simpl. rewrite Ec. auto.
      * exists [], (c :: tl). auto.
    + exists [], (c :: tl). auto.
Qed.

(** The head of [s], if any, is outside the class. *)
Definition stops (cls : ascii -> bool) (s : text) : Prop :=
  match s with
  | [] => True
  | c :: _ => cls c = false
  end.

Lemma greedy_longest cls k x post : forall pre,
  forallb cls pre = true -> stops cls post -> k post = Some x ->
  greedy cls (pre ++ post) k = Some x.
Proof.
  induction pre as [|a pre IH]; simpl; intros Hp Hs Hk.
  - destruct post as [|c tl]; simpl; [exact Hk|].
    simpl in Hs. rewrite Hs. exact Hk.
  - apply andb_true_iff in Hp as [Ha Hp]. rewrite Ha.
    rewrite (IH Hp Hs Hk). reflexivity.
Qed.

Definition with_group (g : bool) (pre : text) (y : list text * text) : list text * text :=
  if g then (pre :: fst y, snd y) else y.

Lemma group_many1_sound g cls k x s :
  rmatch (Tags.group g (Many1 cls)) s k = Some x ->
  exists pre post y, s = pre ++ post /\ pre <> [] /\ forallb cls pre = true
                     /\ k post = Some y /\ x = with_group g pre y.
Proof.
  destruct g; simpl.
  - destruct s as [|c tl]; [discriminate|].
    destruct (cls c) eqn:Ec; [|discriminate].
    intros H. apply greedy_sound in H as (pre & post & -> & Hp & Hk).
    destruct (k post) as [[caps rest]|] eqn:Ek; [|discriminate].
    injection Hk as <-.
    exists (c :: pre), post, (caps, rest). simpl. rewrite Ec, Hp.
    repeat split; try congruence.
    change (c :: pre ++ post) with ((c :: pre) ++ post).
    rewrite consumed_app. reflexivity.
  - destruct s as [|c tl]; [discriminate|].
    destruct (cls c) eqn:Ec; [|discriminate].
    intros H. apply greedy_sound in H as (pre & post & -> & Hp & Hk).
    exists (c :: pre), post, x. simpl. rewrite Ec, Hp.
    repeat split; try congruence.
Qed.

Lemma group_many1_complete g cls k y pre post :
  pre <> [] -> forallb cls pre = true -> stops cls post -> k post = Some y ->
  rmatch (Tags.group g (Many1 cls)) (pre ++ post) k = Some (with_group g pre y).
Proof.
  intros Hne Hp Hs Hk.
  destruct pre as [|c pre]; [congruence|].
  simpl in Hp. apply andb_true_iff in Hp as [Hc Hp].
  destruct g; simpl; rewrite Hc.
  - apply greedy_longest; auto.
    rewrite Hk. destruct y as [caps rest]. simpl.
    change (c :: pre ++ post) with ((c :: pre) ++ post).
    rewrite consumed_app. reflexivity.
  - apply greedy_longest; auto.
Qed.

End PyFacts.

Module TagFacts.
Import Py Tags PyFacts.

(** [s] starts with a tag labelled [l] with bracket content [c], and
    [rest] follows it. *)
Record tag_at (cls : ascii -> bool) (s l c rest : text) : Prop := {
  tag_shape : s = T "<p>" ++ l ++ T "</p>[" ++ c ++ T "]" ++ rest;
  tag_label_nonempty : l <> [];
  tag_label_chars : forallb (other_than "<") l = true;
  tag_coords_nonempty : c <> [];
  tag_coords_chars : forallb cls c = true
}.

Definition groups_of (g : bool) (l c : text) : list text :=
  if g then [l; c] else [].

Lemma rmatch_lit_app t r s k : rmatch (Cat (Lit t) r) (t ++ s) k = rmatch r s k.
Proof. cbn [rmatch]. rewrite strip_prefix_app. reflexivity. Qed.

Lemma rmatch_lit_inv t r s k x :
  rmatch (Cat (Lit t) r) s k = Some x ->
  exists s', s = t ++ s' /\ rmatch r s' k = Some x.
Proof.
  cbn [rmatch]. destruct (strip_prefix t s) as [s'|] eqn:E; [|discriminate].
  intros H. exists s'. split; [apply strip_prefix_inv; exact E | exact H].
Qed.

Lemma tag_match_complete g cls s l c rest :
  cls "]"%char = false -> tag_at cls s l c rest ->
  match_at (tag_pattern g cls) s = Some (groups_of g l c, rest).
Proof.
  intros Hcls [-> Hl Hlc Hc Hcc].
  unfold match_at, tag_pattern.
  rewrite rmatch_lit_app. cbn [rmatch].
  erewrite group_many1_complete; [| exact Hl | exact Hlc | reflexivity | ].
  2:{ rewrite strip_prefix_app.
      erewrite group_many1_complete; [reflexivity | exact Hc | exact Hcc | exact Hcls | ].
      cbn [rmatch]. rewrite strip_prefix_app. reflexivity. }
  destruct g; reflexivity.
Qed.

Lemma tag_match_sound g cls s caps rest :
  match_at (tag_pattern g cls) s = Some (caps, rest) ->
  exists l c, tag_at cls s l c rest /\ caps = groups_of g l c.
Proof.
  unfold match_at, tag_pattern. intros H.
  apply rmatch_lit_inv in H as (s1 & -> & H).
  cbn [rmatch] in H.
  apply group_many1_sound in H as (l & p1 & y1 & -> & Hl & Hlc & H & Hx).
  destruct (strip_prefix (T "</p>[") p1) as [s3|] eqn:E3; [|discriminate].
  apply strip_prefix_inv in E3 as ->.
  apply group_many1_sound in H as (c & p2 & y2 & -> & Hc & Hcc & H & Hy).
  cbn [rmatch] in H.
  destruct (strip_prefix (T "]") p2) as [s5|] eqn:E5; [|discriminate].
  apply strip_prefix_inv in E5 as ->. injection H as <-.
  exists l, c. subst y1.
  destruct g; simpl in Hx; injection Hx as -> ->;
    (split; [constructor; auto | reflexivity]).
Qed.

Lemma tag_match_progress g cls s caps rest :
  match_at (tag_pattern g cls) s = Some (caps, rest) -> length rest < length s.
Proof.
  intros H. apply tag_match_sound in H as (l & c & [-> _ _ _ _] & _).
  rewrite !length_app. simpl. lia.
Qed.

(** The first character of a match is [<]. *)
Lemma tag_match_head g cls a s :
  a <> "<"%char -> match_at (tag_pattern g cls) (a :: s) = None.
Proof.
  intros Ha. destruct (match_at (tag_pattern g cls) (a :: s)) as [[caps rest]|] eqn:E;
    [|reflexivity].
  apply tag_match_sound in E as (l & c & [Hs _ _ _ _] & _).
  injection Hs as -> _. congruence.
Qed.

End TagFacts.

Module FindallFacts.
Import Py Tags PyFacts TagFacts.

(** Every match of [r] consumes at least one character. *)
Definition progress (r : regex) : Prop :=
  forall s caps rest, match_at r s = Some (caps, rest) -> length rest < length s.

Section Progress.
Variable r : regex.
Hypothesis Hr : progress r.

Lemma findall_fuel_irrelevant : forall fuel1 fuel2 s,
  length s < fuel1 -> length s < fuel2 ->
  findall_fuel fuel1 r s = findall_fuel fuel2 r s.
Proof.
  induction fuel1 as [|f1 IH]; intros fuel2 s H1 H2; [lia|].
  destruct fuel2 as [|f2]; [lia|]. simpl.
  destruct (match_at r s) as [[caps rest]|] eqn:E.
  - f_equal. apply Hr in E. apply IH; lia.
  - destruct s as [|c tl]; [reflexivity|]. simpl in *. apply IH; lia.
Qed.

Lemma findall_fuel_S fuel s :
  findall_fuel (S fuel) r s =
  match match_at r s with
  | Some (caps, rest) => caps :: findall_fuel fuel r rest
  | None =>
      match s with
      | [] => []
      | _ :: tl => findall_fuel fuel r tl
      end
  end.
Proof. reflexivity. Qed.

Lemma findall_match s caps rest :
  match_at r s = Some (caps, rest) -> findall r s = caps :: findall r rest.
Proof.
  intros E. unfold findall. rewrite findall_fuel_S, E. f_equal.
  apply Hr in E. apply findall_fuel_irrelevant; lia.
Qed.

Lemma findall_skip c s :
  match_at r (c :: s) = None -> findall r (c :: s) = findall r s.
Proof.
  intros E. unfold findall. rewrite findall_fuel_S, E. reflexivity.
Qed.

Lemma findall_nil : match_at r [] = None -> findall r [] = [].
Proof. intros E. unfold findall. rewrite findall_fuel_S, E. reflexivity. Qed.

End Progress.

Lemma tag_progress g cls : progress (tag_pattern g cls).
Proof. intros s caps rest. apply tag_match_progress. Qed.

Lemma findall_tag_skip g cls pre s :
  forallb (other_than "<") pre = true ->
  findall (tag_pattern g cls) (pre ++ s) = findall (tag_pattern g cls) s.
Proof.
  induction pre as [|a pre IH]; simpl; intros H; [reflexivity|].
  apply andb_true_iff in H as [Ha H].
  rewrite findall_skip; [apply IH; exact H |].
  apply tag_match_head. unfold other_than in Ha.
  intros ->. rewrite Ascii.eqb_refl in Ha. discriminate.
Qed.

Lemma findall_tag_here g cls s l c rest :
  cls "]"%char = false -> tag_at cls s l c rest ->
  findall (tag_pattern g cls) s = groups_of g l c :: findall (tag_pattern g cls) rest.
Proof.
  intros Hcls Ht. apply findall_match; [apply tag_progress|].
  apply tag_match_complete; assumption.
Qed.

Lemma findall_tag_nil g cls : findall (tag_pattern g cls) [] = [].
Proof. reflexivity. Qed.

(** Every element found by a grouped tag pattern has two groups. *)
Lemma findall_fuel_two_groups cls : forall fuel s groups,
  In groups (findall_fuel fuel (tag_pattern true cls) s) ->
  exists l c, groups = [l; c] /\ l <> [] /\ c <> [] /\ forallb cls c = true.
Proof.
  induction fuel as [|f IH]; intros s groups H; [contradiction|].
  rewrite findall_fuel_S in H.
  destruct (match_at (tag_pattern true cls) s) as [[caps rest]|] eqn:E.
  - destruct H as [<-|H]; [|eapply IH; exact H].
    apply tag_match_sound in E as (l & c & [_ Hl _ Hc Hcc] & ->).
    exists l, c. auto.
  - destruct s as [|a tl]; [contradiction|]. eapply IH; exact H.
Qed.

End FindallFacts.

(* ================================================================= *)
(** * One tag occurrence in a text *)
(* ================================================================= *)

Module OccurrenceFacts.
Import Py Tags PyFacts TagFacts FindallFacts ConversationFormat.

(** A label and a bracket content that the loader's pattern accepts. *)
Definition valid_item (it : text * text) : Prop :=
  fst it <> [] /\ forallb (other_than "<") (fst it) = true
  /\ snd it <> [] /\ forallb (other_than "]") (snd it) = true.

Definition part (it : text * text) : text := tag (fst it) (snd it).

Definition groups (it : text * text) : list text := [fst it; snd it].

Lemma findall_part it rest :
  valid_item it ->
  findall annotation_pattern (part it ++ rest)
  = groups it :: findall annotation_pattern rest.
Proof.
  intros (Hl & Hlc & Hc & Hcc). unfold annotation_pattern.
  apply (findall_tag_here true (other_than "]") _ (fst it) (snd it) rest eq_refl).
  constructor; auto. unfold part, tag. rewrite <- !app_assoc. reflexivity.
Qed.

Lemma findall_plain s :
  forallb (other_than "<") s = true -> findall annotation_pattern s = [].
Proof.
  intros H. rewrite <- (app_nil_r s). unfold annotation_pattern.
  rewrite findall_tag_skip by exact H. reflexivity.
Qed.

Lemma findall_skip_plain pre s :
  forallb (other_than "<") pre = true ->
  findall annotation_pattern (pre ++ s) = findall annotation_pattern s.
Proof. intros H. unfold annotation_pattern. apply findall_tag_skip. exact H. Qed.

(** The records of a text that starts, after tag-free characters, with
    a tag: what the loop body makes of this tag, then the records of the
    rest. *)
Lemma parse_at_occurrence pre it post :
  forallb (other_than "<") pre = true -> valid_item it ->
  _parse_gpt_annotations (pre ++ part it ++ post)
  = keep (parse_match (groups it)) ++ _parse_gpt_annotations post.
Proof.
  intros Hpre Hit. unfold _parse_gpt_annotations.
  rewrite findall_skip_plain by exact Hpre.
  rewrite findall_part by exact Hit. reflexivity.
Qed.

End OccurrenceFacts.

Module LoaderFacts.
Import Py Tags PyFacts TagFacts FindallFacts OccurrenceFacts ConversationFormat.

Lemma split_nonempty sep s : split sep s <> [].
Proof.
  destruct s as [|c tl]; simpl; [discriminate|].
  destruct (Ascii.eqb c sep); [discriminate|].
  destruct (split sep tl); discriminate.
Qed.

Lemma mapM_length {A B} (f : A -> result B) : forall xs ys,
  mapM f xs = Ok ys -> length ys = length xs.
Proof.
  induction xs as [|x xs IH]; simpl; intros ys H.
  - injection H as <-. reflexivity.
  - destruct (f x) as [y|e]; simpl in H; [|discriminate].
    destruct (mapM f xs) as [ys'|e]; simpl in H; [|discriminate].
    injection H as <-. simpl. f_equal. apply IH. reflexivity.
Qed.

Lemma parse_coords_count coord_str coords :
  parse_coords coord_str = Ok coords -> length coords <> 0.
Proof.
  unfold parse_coords. intros H. apply mapM_length in H. rewrite H.
  pose proof (split_nonempty "," coord_str) as Hn.
  destruct (split "," coord_str); simpl; congruence.
Qed.

(** What the loop body of [_parse_gpt_annotations] makes of a match
    whose tokens parse: the count alone decides. *)
Lemma parse_match_by_count (lbl coord_str : text) (coords : list pyfloat) :
  parse_coords coord_str = Ok coords ->
  length coords <> 0 /\
  (length coords = 2 ->
   parse_match [lbl; coord_str]
   = Some {| label := strip lbl; coordinates := coords; annotation_type := point |}) /\
  (length coords = 4 ->
   parse_match [lbl; coord_str]
   = Some {| label := strip lbl; coordinates := coords; annotation_type := bbox |}) /\
  (6 <= length coords -> Nat.Even (length coords) ->
   parse_match [lbl; coord_str]
   = Some {| label := strip lbl; coordinates := coords; annotation_type := polygon |}) /\
  (length coords <> 2 -> length coords <> 4 ->
   ~ (6 <= length coords /\ Nat.Even (length coords)) ->
   Nat.Odd (length coords) /\ parse_match [lbl; coord_str] = None).
Proof.
  intros Hp. pose proof (parse_coords_count _ _ Hp) as Hn.
  unfold parse_match. rewrite Hp.
  split; [exact Hn|]. split; [|split; [|split]].
  - intros ->. reflexivity.
  - intros ->. reflexivity.
  - intros H6 He.
    destruct (length coords =? 2) eqn:E2; [apply Nat.eqb_eq in E2; lia|].
    destruct (length coords =? 4) eqn:E4; [apply Nat.eqb_eq in E4; lia|].
    apply Nat.leb_le in H6. rewrite H6.
    destruct He as [k Hk].
    replace (length coords mod 2 =? 0) with true; [reflexivity|].
    symmetry. apply Nat.eqb_eq. rewrite Hk, Nat.mul_comm. apply Nat.Div0.mod_mul.
  - intros H2 H4 H6.
    apply Nat.eqb_neq in H2. apply Nat.eqb_neq in H4. rewrite H2, H4.
    destruct (Nat.Even_or_Odd (length coords)) as [He|Ho].
    + assert (length coords < 6) as Hlt by (destruct (le_lt_dec 6 (length coords)); tauto).
      destruct He as [k Hk]. apply Nat.eqb_neq in H2, H4. exfalso. lia.
    + split; [exact Ho|].
      destruct Ho as [k Hk].
      replace (length coords mod 2 =? 0) with false;
        [rewrite andb_false_r; reflexivity|].
      symmetry. apply Nat.eqb_neq. rewrite Hk.
      rewrite Nat.add_comm, Nat.mul_comm, Nat.Div0.mod_add. discriminate.
Qed.

(** ** The turn scan *)

Definition is_pair (h g : Turn) : bool :=
  get_eq (from h) (T "human") && get_eq (from g) (T "gpt").

Definition records_of (g : Turn) : list ConversationAnnotation :=
  _parse_gpt_annotations (get (value g) []).

Definition grounded (g : Turn) : bool := truthy (records_of g).

(** The scan in the words of the specification: a unit is a human turn
    immediately followed by a gpt turn, or else a single turn. *)
Inductive Unit :=
| Pair (h g : Turn)
| Single (x : Turn).

Fixpoint units (turns : list Turn) : list Unit :=
  match turns with
  | [] => []
  | h :: tl =>
      match tl with
      | g :: rest => if is_pair h g then Pair h g :: units rest else Single h :: units tl
      | [] => [Single h]
      end
  end.

Definition unit_turns (u : Unit) : list Turn :=
  match u with
  | Pair h g => [h; g]
  | Single x => [x]
  end.

Definition is_grounding (u : Unit) : bool :=
  match u with
  | Pair _ g => grounded g
  | Single _ => false
  end.

Definition pair_and_classify (turns : list Turn) : list Turn * list Turn :=
  (flat_map unit_turns (filter is_grounding (units turns)),
   flat_map unit_turns (filter (fun u => negb (is_grounding u)) (units turns))).

Lemma list_ind2 {A} (P : list A -> Prop) :
  P [] -> (forall x, P [x]) ->
  (forall x y l, P l -> P (y :: l) -> P (x :: y :: l)) ->
  forall l, P l.
Proof.
  intros H0 H1 H2.
  assert (forall l, P l /\ forall x, P (x :: l)) as H.
  { induction l as [|y l [IH1 IH2]]; split; auto. }
  intros l. apply H.
Qed.

Lemma nth_error_skipn {A} (l : list A) : forall i x,
  nth_error l i = Some x -> skipn i l = x :: skipn (S i) l.
Proof.
  induction l as [|a l IH]; intros [|i] x H; simpl in *; try discriminate.
  - congruence.
  - apply IH. exact H.
Qed.

Lemma nth_error_None_skipn {A} (l : list A) i :
  nth_error l i = None -> skipn i l = [].
Proof. intros H. apply skipn_all2. apply nth_error_None. exact H. Qed.

Lemma units_cons2 h g rest :
  units (h :: g :: rest)
  = if is_pair h g then Pair h g :: units rest else Single h :: units (g :: rest).
Proof. reflexivity. Qed.

(** The index loop of the source computes the scan of the suffix. *)
Lemma separate_loop_scan : forall fuel conversations i gr tx,
  length conversations - i <= fuel ->
  separate_loop fuel conversations i gr tx
  = (gr ++ fst (pair_and_classify (skipn i conversations)),
     tx ++ snd (pair_and_classify (skipn i conversations))).
Proof.
  induction fuel as [|fuel IH]; intros convs i gr tx Hf.
  - rewrite skipn_all2 by lia. simpl. rewrite !app_nil_r. reflexivity.
  - cbn [separate_loop].
    destruct (nth_error convs i) as [h|] eqn:Ei.
    2:{ rewrite (nth_error_None_skipn _ _ Ei). simpl. rewrite !app_nil_r. reflexivity. }
    assert (i < length convs) as Hi by (apply nth_error_Some; congruence).
    rewrite (nth_error_skipn _ _ _ Ei).
    replace (i + 1) with (S i) by lia. replace (i + 2) with (S (S i)) by lia.
    destruct (nth_error convs (S i)) as [g|] eqn:Eg.
    + rewrite (nth_error_skipn _ _ _ Eg).
      unfold pair_and_classify. rewrite units_cons2.
      fold (is_pair h g). destruct (is_pair h g) eqn:Ep.
      * fold (records_of g). fold (grounded g).
        cbn [filter is_grounding negb]. destruct (grounded g) eqn:Egr.
        -- rewrite IH by lia. unfold pair_and_classify. cbn [fst snd flat_map unit_turns negb].
           rewrite <- app_assoc. reflexivity.
        -- rewrite IH by lia. unfold pair_and_classify. cbn [fst snd flat_map unit_turns negb].
           rewrite <- app_assoc. reflexivity.
      * rewrite IH by lia. rewrite (nth_error_skipn _ _ _ Eg).
        unfold pair_and_classify. cbn [filter is_grounding negb fst snd flat_map unit_turns].
        rewrite <- app_assoc. reflexivity.
    + rewrite (nth_error_None_skipn _ _ Eg).
      rewrite IH by lia. rewrite (nth_error_None_skipn _ _ Eg).
      unfold pair_and_classify. simpl. rewrite !app_nil_r. reflexivity.
Qed.

Lemma separate_is_scan conversations :
  separate_conversation_types conversations = pair_and_classify conversations.
Proof.
  unfold separate_conversation_types.
  rewrite separate_loop_scan by lia. reflexivity.
Qed.

Lemma classify_nil : pair_and_classify [] = ([], []).
Proof. reflexivity. Qed.

Lemma classify_last x : pair_and_classify [x] = ([], [x]).
Proof. reflexivity. Qed.

Lemma classify_pair h g rest :
  is_pair h g = true ->
  pair_and_classify (h :: g :: rest)
  = if grounded g
    then (h :: g :: fst (pair_and_classify rest), snd (pair_and_classify rest))
    else (fst (pair_and_classify rest), h :: g :: snd (pair_and_classify rest)).
Proof.
  intros Hp. unfold pair_and_classify. rewrite units_cons2, Hp.
  cbn [filter is_grounding]. destruct (grounded g); reflexivity.
Qed.

Lemma classify_single h g rest :
  is_pair h g = false ->
  pair_and_classify (h :: g :: rest)
  = (fst (pair_and_classify (g :: rest)), h :: snd (pair_and_classify (g :: rest))).
Proof.
  intros Hp. unfold pair_and_classify. rewrite units_cons2, Hp. reflexivity.
Qed.

(** ** The partition by position *)

Definition pair_starts_at (turns : list Turn) (i : nat) : bool :=
  match nth_error turns i, nth_error turns (S i) with
  | Some h, Some g => is_pair h g
  | _, _ => false
  end.

Definition grounded_at (turns : list Turn) (i : nat) : bool :=
  match nth_error turns i with
  | Some g => grounded g
  | None => false
  end.

(** Turn [i] belongs to a grounding pair: it starts one, or it ends one. *)
Definition in_grounding (turns : list Turn) (i : nat) : bool :=
  (pair_starts_at turns i && grounded_at turns (S i))
  || match i with
     | O => false
     | S j => pair_starts_at turns j && grounded_at turns i
     end.

(** The elements of [l], numbered from [k], whose number satisfies [keep]. *)
Fixpoint select_from (k : nat) (keep : nat -> bool) (l : list Turn) : list Turn :=
  match l with
  | [] => []
  | x :: tl => (if keep k then [x] else []) ++ select_from (S k) keep tl
  end.

Definition select (keep : nat -> bool) (l : list Turn) : list Turn :=
  select_from 0 keep l.

Lemma text_eqb_eq a : forall b, text_eqb a b = true -> a = b.
Proof.
  induction a as [|x a IH]; intros [|y b] H; simpl in H; try discriminate; auto.
  apply andb_true_iff in H as [Hx H]. apply Ascii.eqb_eq in Hx. f_equal; auto.
Qed.

Lemma text_eqb_refl a : text_eqb a a = true.
Proof. induction a as [|x a IH]; simpl; [|rewrite Ascii.eqb_refl]; auto. Qed.

Lemma gpt_not_human f :
  get_eq f (T "gpt") = true -> get_eq f (T "human") = false.
Proof.
  destruct f as [v|]; simpl; [|discriminate].
  intros H. apply text_eqb_eq in H. subst v. reflexivity.
Qed.

Lemma pair_second_starts_none h g x :
  is_pair h g = true -> is_pair g x = false.
Proof.
  unfold is_pair. intros H. apply andb_true_iff in H as [_ H].
  rewrite (gpt_not_human _ H). reflexivity.
Qed.

Definition prev_clear (turns : list Turn) (i : nat) : Prop :=
  match i with
  | O => True
  | S j => pair_starts_at turns j = false
  end.

Lemma scan_select turns : forall n i,
  length turns - i <= n -> prev_clear turns i ->
  pair_and_classify (skipn i turns)
  = (select_from i (in_grounding turns) (skipn i turns),
     select_from i (fun k => negb (in_grounding turns k)) (skipn i turns)).
Proof.
  induction n as [|n IH]; intros i Hn Hprev.
  - rewrite skipn_all2 by lia. reflexivity.
  - destruct (nth_error turns i) as [h|] eqn:Ei.
    2:{ rewrite (nth_error_None_skipn _ _ Ei). reflexivity. }
    assert (i < length turns) as Hi by (apply nth_error_Some; congruence).
    assert (match i with O => false | S j => pair_starts_at turns j && grounded_at turns i end
            = false) as Hback.
    { destruct i as [|j]; [reflexivity|]. simpl in Hprev. rewrite Hprev. reflexivity. }
    rewrite (nth_error_skipn _ _ _ Ei).
    destruct (nth_error turns (S i)) as [g|] eqn:Eg.
    + rewrite (nth_error_skipn _ _ _ Eg).
      assert (pair_starts_at turns i = is_pair h g) as Hstart
        by (unfold pair_starts_at; rewrite Ei, Eg; reflexivity).
      assert (grounded_at turns (S i) = grounded g) as Hg
        by (unfold grounded_at; rewrite Eg; reflexivity).
      destruct (is_pair h g) eqn:Ep.
      * assert (pair_starts_at turns (S i) = false) as Hnext.
        { unfold pair_starts_at. rewrite Eg.
          destruct (nth_error turns (S (S i))); [|reflexivity].
          eapply pair_second_starts_none. exact Ep. }
        assert (in_grounding turns i = grounded g) as Hi0.
        { unfold in_grounding. rewrite Hback, Hstart, Hg, orb_false_r. reflexivity. }
        assert (in_grounding turns (S i) = grounded g) as Hi1.
        { unfold in_grounding. rewrite Hnext, Hstart, Hg. reflexivity. }
        rewrite (classify_pair _ _ _ Ep).
        rewrite (IH (S (S i))) by (simpl; auto; lia).
        cbn [select_from fst snd]. rewrite Hi0, Hi1.
        destruct (grounded g); reflexivity.
      * assert (in_grounding turns i = false) as Hi0.
        { unfold in_grounding. rewrite Hback, Hstart. reflexivity. }
        rewrite (classify_single _ _ _ Ep).
        rewrite <- (nth_error_skipn _ _ _ Eg).
        rewrite (IH (S i)) by (simpl; auto; lia).
        cbn [select_from fst snd]. rewrite Hi0. reflexivity.
    + rewrite (nth_error_None_skipn _ _ Eg).
      assert (in_grounding turns i = false) as Hi0.
      { unfold in_grounding. rewrite Hback. unfold pair_starts_at. rewrite Ei, Eg. reflexivity. }
      rewrite classify_last. cbn [select_from]. rewrite Hi0. reflexivity.
Qed.

Lemma select_from_lengths keep l : forall k,
  length (select_from k keep l) + length (select_from k (fun i => negb (keep i)) l)
  = length l.
Proof.
  induction l as [|x l IH]; intros k; simpl; [reflexivity|].
  rewrite !length_app, <- (IH (S k)). destruct (keep k); simpl; lia.
Qed.

(** What the positional criterion says of a pair and of a lone turn. *)
Lemma in_grounding_pair turns i :
  pair_starts_at turns i = true ->
  in_grounding turns i = grounded_at turns (S i)
  /\ in_grounding turns (S i) = grounded_at turns (S i).
Proof.
  intros Hp. unfold in_grounding. rewrite Hp. cbn [andb].
  assert (pair_starts_at turns (S i) = false) as Hnext.
  { unfold pair_starts_at in *.
    destruct (nth_error turns i) as [h|]; [|discriminate].
    destruct (nth_error turns (S i)) as [g|]; [|discriminate].
    destruct (nth_error turns (S (S i))); [|reflexivity].
    eapply pair_second_starts_none. exact Hp. }
  assert (match i with
          | O => false
          | S j => pair_starts_at turns j && grounded_at turns i
          end = false) as Hback.
  { destruct i as [|j]; [reflexivity|].
    assert (pair_starts_at turns j = false) as ->; [|reflexivity].
    unfold pair_starts_at in *.
    destruct (nth_error turns j) as [x|]; [|reflexivity].
    destruct (nth_error turns (S j)) as [h|]; [|reflexivity].
    destruct (nth_error turns (S (S j))) as [g|]; [|discriminate].
    unfold is_pair in *. apply andb_true_iff in Hp as [Hh _].
    destruct (get_eq (from h) (T "gpt")) eqn:Eg; [|apply andb_false_r].
    rewrite (gpt_not_human _ Eg) in Hh. discriminate. }
  rewrite Hback, Hnext, orb_false_r. split; reflexivity.
Qed.

Lemma in_grounding_lone turns i :
  pair_starts_at turns i = false ->
  match i with O => True | S j => pair_starts_at turns j = false end ->
  in_grounding turns i = false.
Proof.
  intros Hp Hprev. unfold in_grounding. rewrite Hp.
  destruct i as [|j]; [reflexivity|]. rewrite Hprev. reflexivity.
Qed.

(** C3. [separate_conversation_types] puts every turn in exactly one of
    its two lists, by position: turn [i] goes to the grounding list when
    [in_grounding] holds of it and to the text list otherwise, both lists
    keeping the input order, so that their lengths add up to the input
    length.  Both turns of a (human, gpt) pair at [i], [i+1] are in the
    grounding list exactly when the gpt text parses to at least one
    record; a turn that neither starts nor ends such a pair is in the
    text list.  The result is the greedy left-to-right scan
    [pair_and_classify], which consumes a matched pair as one unit and
    any other turn alone. *)
Theorem separate_partitions_turns (turns : list Turn) :
  fst (separate_conversation_types turns) = select (in_grounding turns) turns /\
  snd (separate_conversation_types turns)
  = select (fun i => negb (in_grounding turns i)) turns /\
  length (fst (separate_conversation_types turns))
  + length (snd (separate_conversation_types turns)) = length turns /\
  (forall i, pair_starts_at turns i = true ->
     in_grounding turns i = grounded_at turns (S i)
     /\ in_grounding turns (S i) = grounded_at turns (S i)) /\
  (forall i, pair_starts_at turns i = false ->
     match i with O => True | S j => pair_starts_at turns j = false end ->
     in_grounding turns i = false) /\
  separate_conversation_types turns = pair_and_classify turns.
Proof.
  rewrite separate_is_scan.
  pose proof (scan_select turns (length turns) 0) as H.
  simpl skipn in H. rewrite H by (simpl; auto; lia).
  cbn [fst snd]. unfold select.
  split; [reflexivity|]. split; [reflexivity|].
  split; [apply select_from_lengths|].
  split; [apply in_grounding_pair|]. split; [apply in_grounding_lone|reflexivity].
Qed.

(** ** Statistics against the partition *)

Definition is_gpt (c : Turn) : bool := get_eq (from c) (T "gpt").

Definition unit_records (u : Unit) : nat :=
  match u with
  | Pair _ g => length (records_of g)
  | Single _ => 0
  end.

(** The statistics and the partition agree on [turns]. *)
Definition stats_agree (turns : list Turn) : Prop :=
  grounding_conversations (analyze_conversations turns)
  = length (fst (separate_conversation_types turns)) / 2 /\
  pure_text_conversations (analyze_conversations turns)
  = length (filter (fun u => negb (is_grounding u)) (units turns)) /\
  total_annotations (analyze_conversations turns)
  = list_sum (map unit_records (filter is_grounding (units turns))).

(** The turns come as (human, gpt) pairs, one after the other. *)
Inductive well_paired : list Turn -> Prop :=
| paired_nil : well_paired []
| paired_cons h g rest :
    is_pair h g = true -> well_paired rest -> well_paired (h :: g :: rest).

(** What [analyze_conversations] counts: gpt turns, paired or not. *)
Definition gpt_grounded (turns : list Turn) : nat :=
  length (filter (fun c => is_gpt c && grounded c) turns).

Definition gpt_plain (turns : list Turn) : nat :=
  length (filter (fun c => is_gpt c && negb (grounded c)) turns).

Definition gpt_records (turns : list Turn) : nat :=
  list_sum (map (fun c => if is_gpt c then length (records_of c) else 0) turns).

Lemma not_grounded_no_records c : grounded c = false -> length (records_of c) = 0.
Proof. unfold grounded. destruct (records_of c); [reflexivity|discriminate]. Qed.

Lemma list_sum_cons x l : list_sum (x :: l) = x + list_sum l.
Proof. reflexivity. Qed.

Lemma analyze_step_cases st c :
  analyze_step st c
  = if is_gpt c then
      if grounded c then
        {| total_conversations := total_conversations st;
           grounding_conversations := grounding_conversations st + 1;
           pure_text_conversations := pure_text_conversations st;
           total_annotations := total_annotations st + length (records_of c) |}
      else
        {| total_conversations := total_conversations st;
           grounding_conversations := grounding_conversations st;
           pure_text_conversations := pure_text_conversations st + 1;
           total_annotations := total_annotations st |}
    else st.
Proof. reflexivity. Qed.

Lemma analyze_fold : forall turns st,
  fold_left analyze_step turns st
  = {| total_conversations := total_conversations st;
       grounding_conversations := grounding_conversations st + gpt_grounded turns;
       pure_text_conversations := pure_text_conversations st + gpt_plain turns;
       total_annotations := total_annotations st + gpt_records turns |}.
Proof.
  unfold gpt_grounded, gpt_plain, gpt_records.
  induction turns as [|c turns IH]; intros st.
  - destruct st. simpl. f_equal; lia.
  - cbn [fold_left]. rewrite IH, analyze_step_cases.
    cbn [filter map]. rewrite list_sum_cons. destruct (is_gpt c); cbn [andb].
    + destruct (grounded c) eqn:Eg; cbn [negb length];
        [|rewrite (not_grounded_no_records _ Eg)];
        cbn [total_conversations grounding_conversations pure_text_conversations
               total_annotations]; f_equal; lia.
    + f_equal; lia.
Qed.

(** On every turn list the statistics count gpt turns. *)
Lemma analyze_counts_gpt_turns turns :
  analyze_conversations turns
  = {| total_conversations := length turns;
       grounding_conversations := gpt_grounded turns;
       pure_text_conversations := gpt_plain turns;
       total_annotations := gpt_records turns |}.
Proof. unfold analyze_conversations. rewrite analyze_fold. reflexivity. Qed.

Lemma human_not_gpt h g : is_pair h g = true -> is_gpt h = false /\ is_gpt g = true.
Proof.
  unfold is_pair, is_gpt. intros H. apply andb_true_iff in H as [Hh Hg].
  split; [|exact Hg].
  destruct (from h) as [v|]; simpl in *; [|reflexivity].
  apply text_eqb_eq in Hh. subst v. reflexivity.
Qed.

Lemma paired_counts turns :
  well_paired turns ->
  length (fst (pair_and_classify turns)) = 2 * gpt_grounded turns /\
  length (filter (fun u => negb (is_grounding u)) (units turns)) = gpt_plain turns /\
  list_sum (map unit_records (filter is_grounding (units turns))) = gpt_records turns.
Proof.
  unfold gpt_grounded, gpt_plain, gpt_records.
  induction 1 as [|h g rest Hp Hw (IH1 & IH2 & IH3)]; [repeat split|].
  destruct (human_not_gpt _ _ Hp) as [Hh Hg].
  rewrite (classify_pair _ _ _ Hp), units_cons2, Hp.
  cbn [filter map is_grounding]. rewrite !list_sum_cons, Hh, Hg. cbn [andb].
  destruct (grounded g) eqn:Eg; cbn [negb fst length map unit_records];
    rewrite ?list_sum_cons; cbn [unit_records].
  - rewrite IH1, IH2, IH3. repeat split; lia.
  - rewrite IH1, IH2, IH3, (not_grounded_no_records _ Eg). repeat split; lia.
Qed.

Definition lone_gpt_turn : Turn :=
  {| from := Some (T "gpt"); value := Some (T "<p>a</p>[1,2]"); attribute := None |}.

(** C4, as stated, fails: a gpt turn that no human turn precedes is
    counted as a grounding conversation by [analyze_conversations], while
    [separate_conversation_types] puts it in the text list. *)
Lemma stats_disagree_on_lone_gpt : ~ stats_agree [lone_gpt_turn].
Proof.
  intros [H _]. vm_compute in H. discriminate.
Qed.

(** C4, amended. When the turns come as consecutive (human, gpt) pairs,
    the statistics agree with the partition: the grounding count is half
    the length of the grounding list, the pure-text count is the number of
    pure-text units, and the annotation total is the number of records in
    the gpt turns of the grounding pairs. *)
Theorem stats_agree_on_pairs (turns : list Turn) :
  well_paired turns -> stats_agree turns.
Proof.
  intros Hw. unfold stats_agree.
  rewrite analyze_counts_gpt_turns, separate_is_scan.
  destruct (paired_counts turns Hw) as (H1 & H2 & H3).
  cbn [grounding_conversations pure_text_conversations total_annotations].
  rewrite H1, H2, H3. repeat split.
  rewrite Nat.mul_comm, Nat.div_mul by discriminate. reflexivity.
Qed.

Definition sample_turns : list Turn :=
  [ {| from := Some (T "human"); value := Some (T "Detect all cars."); attribute := None |};
    {| from := Some (T "gpt"); value := Some (T "There is <p>car</p>[0.1,0.2,0.4,0.6] in the image.");
       attribute := None |};
    {| from := Some (T "human"); value := Some (T "What is the weather like?"); attribute := None |};
    {| from := Some (T "gpt"); value := Some (T "A sunny day."); attribute := None |} ].

Lemma stats_agree_on_pairs_witness : stats_agree sample_turns.
Proof.
  apply (stats_agree_on_pairs sample_turns).
  repeat (constructor; [reflexivity|]). constructor.
Defined.

End LoaderFacts.

(* ================================================================= *)
(** * Agreement of the two tag parsers *)
(* ================================================================= *)

Module AgreementFacts.
Import Py Tags PyFacts TagFacts FindallFacts ConversationFormat VlmUtils LoaderFacts.

Definition is_bbox (a : ConversationAnnotation) : bool :=
  match annotation_type a with
  | ConversationFormat.bbox => true
  | _ => false
  end.

(** The 4-coordinate boxes each parser extracts, as (label, coordinates). *)
Definition loader_boxes (text : text) : list (Py.text * list pyfloat) :=
  map (fun a => (ConversationFormat.label a, coordinates a))
      (filter is_bbox (_parse_gpt_annotations text)).

Definition response_boxes (text : text) : list (Py.text * list pyfloat) :=
  map (fun d => (det_label d, det_bbox d))
      (fst (parse_conversation_format_response text)).

(** The two parsers extract the same set of boxes. *)
Definition same_boxes (text : text) : Prop :=
  forall b, In b (loader_boxes text) <-> In b (response_boxes text).

(** A bracket group made of digits, dots and commas only. *)
Definition plain_coords (groups : list text) : Prop :=
  match groups with
  | [_; coord_str] => forallb digit_dot_comma coord_str = true
  | _ => True
  end.

Lemma digit_dot_comma_bracket : digit_dot_comma "]" = false.
Proof. reflexivity. Qed.

Lemma other_than_bracket : other_than "]" "]" = false.
Proof. reflexivity. Qed.

Lemma digit_dot_comma_inside c : digit_dot_comma c = true -> other_than "]" c = true.
Proof.
  intros H. unfold other_than. destruct (Ascii.eqb c "]") eqn:E; [|reflexivity].
  apply Ascii.eqb_eq in E. subst c. discriminate.
Qed.

Lemma forallb_impl {A} (p q : A -> bool) l :
  (forall x, p x = true -> q x = true) -> forallb p l = true -> forallb q l = true.
Proof.
  intros Hpq. induction l as [|x l IH]; simpl; [reflexivity|].
  intros H. apply andb_true_iff in H as [Hx Hl]. rewrite (Hpq _ Hx). auto.
Qed.

Lemma tag_at_widen s l c rest :
  tag_at digit_dot_comma s l c rest -> tag_at (other_than "]") s l c rest.
Proof.
  intros [Hs Hl Hlc Hc Hcc]. constructor; auto.
  eapply forallb_impl; [apply digit_dot_comma_inside | exact Hcc].
Qed.

Lemma findall_patterns_agree : forall fuel s,
  Forall plain_coords (findall_fuel fuel annotation_pattern s) ->
  findall_fuel fuel annotation_pattern s = findall_fuel fuel response_pattern s.
Proof.
  unfold annotation_pattern, response_pattern.
  induction fuel as [|fuel IH]; intros s H; [reflexivity|].
  rewrite !findall_fuel_S in *.
  destruct (match_at (tag_pattern true (other_than "]")) s) as [[caps rest]|] eqn:E1.
  - inversion H as [|? ? Hc Hrest]; subst.
    destruct (tag_match_sound _ _ _ _ _ E1) as (l & c & Ht & ->).
    simpl in Hc.
    assert (tag_at digit_dot_comma s l c rest) as Ht2
      by (destruct Ht; constructor; auto).
    rewrite (tag_match_complete true _ _ _ _ _ digit_dot_comma_bracket Ht2).
    simpl. f_equal. apply IH. exact Hrest.
  - destruct (match_at (tag_pattern true digit_dot_comma) s) as [[caps rest]|] eqn:E2.
    + destruct (tag_match_sound _ _ _ _ _ E2) as (l & c & Ht & ->).
      apply tag_at_widen in Ht.
      rewrite (tag_match_complete true _ _ _ _ _ other_than_bracket Ht) in E1.
      discriminate.
    + destruct s as [|a tl]; [reflexivity|]. apply IH. exact H.
Qed.

Lemma box_of_match groups :
  map (fun a => (ConversationFormat.label a, coordinates a))
      (filter is_bbox (keep (parse_match groups)))
  = map (fun d => (det_label d, det_bbox d))
        (match parse_detection groups with Some d => [d] | None => [] end).
Proof.
  destruct groups as [|l [|c [|x tl]]]; try reflexivity.
  unfold parse_match, parse_detection, parse_coords.
  destruct (mapM (fun x => float (strip x)) (split "," c)) as [coords|e];
    [|reflexivity].
  destruct (length coords) as [|[|[|[|[|n]]]]]; try reflexivity.
  cbn [Nat.eqb]. destruct ((6 <=? S (S (S (S (S n))))) && (S (S (S (S (S n)))) mod 2 =? 0));
    reflexivity.
Qed.

Lemma boxes_flat_map (gs : list (list text)) :
  map (fun a => (ConversationFormat.label a, coordinates a))
      (filter is_bbox (flat_map (fun groups => keep (parse_match groups)) gs))
  = map (fun d => (det_label d, det_bbox d))
        (flat_map (fun groups => match parse_detection groups with
                                 | Some d => [d]
                                 | None => []
                                 end) gs).
Proof.
  induction gs as [|g gs IH]; [reflexivity|].
  cbn [flat_map]. rewrite filter_app, !map_app, IH, box_of_match. reflexivity.
Qed.

Definition negative_box_text : text := T "<p>a</p>[-0.1,0.2,0.3,0.4]".

(** C10, as stated, fails: a bracket list with a negative number is a box
    for the loader and no match at all for the response parser. *)
Lemma parsers_disagree_on_negative : ~ same_boxes negative_box_text.
Proof.
  intros H.
  assert (exists b, loader_boxes negative_box_text = [b]) as [b Hb]
    by (eexists; vm_compute; reflexivity).
  assert (response_boxes negative_box_text = []) as Hr by (vm_compute; reflexivity).
  specialize (H b). rewrite Hb, Hr in H. apply H. left. reflexivity.
Qed.

(** C10, amended. On a text where every bracket group matched by the
    loader's pattern holds only digits, dots and commas, the two parsers
    extract the same 4-coordinate boxes, with the same labels and
    coordinates, in the same order. *)
Theorem parsers_agree_on_plain_coords (text : text) :
  Forall plain_coords (findall annotation_pattern text) ->
  loader_boxes text = response_boxes text.
Proof.
  intros H. unfold loader_boxes, response_boxes, _parse_gpt_annotations,
    parse_conversation_format_response. cbn [fst].
  rewrite boxes_flat_map. unfold findall in *.
  rewrite (findall_patterns_agree _ _ H). reflexivity.
Qed.

Definition two_boxes_text : text :=
  T "There is <p>ship</p>[0.38,0.12,0.42,0.04] and <p>boat</p>[0.1,0.2,0.15,0.18] in the image.".

Lemma parsers_agree_on_plain_coords_witness :
  loader_boxes two_boxes_text = response_boxes two_boxes_text.
Proof.
  apply (parsers_agree_on_plain_coords two_boxes_text).
  vm_compute. repeat constructor.
Defined.

End AgreementFacts.

(* ================================================================= *)
(** * Dispatch of the model output *)
(* ================================================================= *)

Module DispatchFacts.
Import Py Tags PyFacts TagFacts FindallFacts VlmUtils.

Lemma search_some r : forall s x,
  search r s = Some x -> exists pre suf, s = pre ++ suf /\ match_at r suf = Some x.
Proof.
  induction s as [|a s IH]; intros x H; simpl in H.
  - destruct (match_at r []) eqn:E; [|discriminate].
    exists [], []. split; [reflexivity|congruence].
  - destruct (match_at r (a :: s)) eqn:E.
    + exists [], (a :: s). split; [reflexivity|congruence].
    + destruct (IH _ H) as (pre & suf & -> & Hm). exists (a :: pre), suf. auto.
Qed.

Lemma search_finds r suf x : forall pre,
  match_at r suf = Some x -> search r (pre ++ suf) <> None.
Proof.
  induction pre as [|a pre IH]; intros Hm.
  - destruct suf; simpl; rewrite Hm; discriminate.
  - cbn [app search]. destruct (match_at r (a :: pre ++ suf)); [discriminate|].
    apply IH. exact Hm.
Qed.

Lemma startswith_iff p s : startswith p s = true <-> exists rest, s = p ++ rest.
Proof.
  unfold startswith. split.
  - destruct (strip_prefix p s) as [rest|] eqn:E; [|discriminate].
    intros _. exists rest. apply strip_prefix_inv. exact E.
  - intros [rest ->]. rewrite strip_prefix_app. reflexivity.
Qed.

Lemma endswith_iff p s : endswith p s = true <-> exists front, s = front ++ p.
Proof.
  unfold endswith. rewrite startswith_iff. split.
  - intros [rest H]. exists (rev rest).
    rewrite <- (rev_involutive s), H, rev_app_distr, rev_involutive. reflexivity.
  - intros [front ->]. exists (rev front). apply rev_app_distr.
Qed.

Lemma contains_iff p : forall s,
  contains p s = true <-> exists pre post, s = pre ++ p ++ post.
Proof.
  induction s as [|a s IH]; cbn [contains]; rewrite orb_true_iff, startswith_iff.
  - split.
    + intros [[rest H]|H]; [|discriminate]. exists [], rest. exact H.
    + intros (pre & post & H). left.
      destruct pre; [exists post; exact H | discriminate].
  - rewrite IH. split.
    + intros [[rest H]|(pre & post & ->)].
      * exists [], rest. exact H.
      * exists (a :: pre), post. reflexivity.
    + intros (pre & post & H). destruct pre as [|b pre].
      * left. exists post. exact H.
      * right. injection H as -> ->. exists pre, post. reflexivity.
Qed.

(** The text contains a tag [<p>label</p>[coords]]: a non-empty label
    without [<], and a non-empty bracket content of digits, dots and commas. *)
Definition has_tag (text : text) : Prop :=
  exists pre label coords post,
    text = pre ++ T "<p>" ++ label ++ T "</p>[" ++ coords ++ T "]" ++ post
    /\ label <> [] /\ forallb (other_than "<") label = true
    /\ coords <> [] /\ forallb digit_dot_comma coords = true.

(** Stripped of whitespace the text starts with [[] and ends with []], or
    it contains the opening of a fenced JSON block. *)
Definition looks_like_json (text : text) : Prop :=
  ((exists rest, strip text = T "[" ++ rest) /\ (exists front, strip text = front ++ T "]"))
  \/ (exists pre post, strip text = pre ++ T "```json" ++ post).

Lemma is_conversation_format_response_iff text :
  is_conversation_format_response text = true <-> has_tag text.
Proof.
  unfold is_conversation_format_response, has_tag. split.
  - destruct (search (tag_pattern false digit_dot_comma) text) as [[caps rest]|] eqn:E;
      [|discriminate].
    intros _. apply search_some in E as (pre & suf & -> & Hm).
    apply tag_match_sound in Hm as (l & c & [-> Hl Hlc Hc Hcc] & _).
    exists pre, l, c, rest. auto.
  - intros (pre & l & c & post & -> & Hl & Hlc & Hc & Hcc).
    assert (tag_at digit_dot_comma (T "<p>" ++ l ++ T "</p>[" ++ c ++ T "]" ++ post) l c post)
      as Ht by (constructor; auto).
    pose proof (tag_match_complete false _ _ _ _ _ eq_refl Ht) as Hm.
    pose proof (search_finds _ _ _ pre Hm) as Hs.
    destruct (search (tag_pattern false digit_dot_comma) (pre ++ _)); congruence.
Qed.

Lemma is_json_response_iff text :
  is_json_response text = true <-> looks_like_json text.
Proof.
  unfold is_json_response, looks_like_json.
  rewrite orb_true_iff, andb_true_iff, startswith_iff, endswith_iff, contains_iff.
  reflexivity.
Qed.

(** ** The priority as the specification words it *)

(** The text holds a tag in the sense of the loader: a non-empty label
    without [<] and a non-empty bracket content without []]. *)
Definition holds_tag (text : text) : Prop :=
  exists pre label coords post,
    text = pre ++ T "<p>" ++ label ++ T "</p>[" ++ coords ++ T "]" ++ post
    /\ label <> [] /\ forallb (other_than "<") label = true
    /\ coords <> [] /\ forallb (other_than "]") coords = true.

(** Stripped of whitespace the text starts with [[] and ends with []]. *)
Definition bracketed (text : text) : Prop :=
  (exists rest, strip text = T "[" ++ rest) /\ (exists front, strip text = front ++ T "]").

(** The text holds a fenced block: something between two fences. *)
Definition holds_fenced_block (text : text) : Prop :=
  exists pre body post, strip text = pre ++ T "```" ++ body ++ T "```" ++ post.

Definition classified_as_specified (raw_output : text) : Prop :=
  (holds_tag raw_output -> dispatch_response raw_output = ParseConversationFormat)
  /\ (~ holds_tag raw_output -> bracketed raw_output \/ holds_fenced_block raw_output ->
      dispatch_response raw_output = ParseJson)
  /\ (~ holds_tag raw_output -> ~ (bracketed raw_output \/ holds_fenced_block raw_output) ->
      dispatch_response raw_output = NoBoxes [] raw_output).

Definition spaced_tag : text := T "<p>cat</p>[0.1, 0.2, 0.3, 0.4]".

Definition bare_fence : text := T "``` [] ```".

(** C5, as stated, fails twice.  A tag whose coordinates are separated
    by a comma and a space is a tag for the loader, but the dispatch does
    not see it and returns the text with no shapes; and a fenced array
    without the word [json] after the opening fence is not taken for JSON. *)
Lemma dispatch_narrower_than_specified :
  ~ classified_as_specified spaced_tag /\ ~ classified_as_specified bare_fence.
Proof.
  split.
  - intros [H _].
    assert (holds_tag spaced_tag) as Ht.
    { exists [], (T "cat"), (T "0.1, 0.2, 0.3, 0.4"), [].
      split; [reflexivity|]. repeat split; discriminate. }
    specialize (H Ht). vm_compute in H. discriminate H.
  - intros (_ & H & _).
    assert (~ holds_tag bare_fence) as Hn.
    { intros (pre & l & c & post & E & _).
      assert (In "<"%char bare_fence) as Hin
        by (rewrite E; apply in_or_app; right; left; reflexivity).
      vm_compute in Hin. intuition discriminate. }
    assert (holds_fenced_block bare_fence) as Hf
      by (exists [], (T " [] "), []; reflexivity).
    specialize (H Hn (or_intror Hf)). vm_compute in H. discriminate H.
Qed.

(** C5, amended. The dispatch on the raw model output tests the
    embedded-tag form first, then the JSON form, each with its own narrow
    test: a text with a tag whose bracket content is a run of digits, dots
    and commas takes the conversation-format branch whatever else it
    contains; a text without such a tag that, stripped, starts with [[]
    and ends with []], or that contains the opening of a fence followed by
    the word [json], takes the JSON branch; any other text is returned as
    it is, with no shapes. *)
Theorem dispatch_priority (raw_output : text) :
  (has_tag raw_output <-> dispatch_response raw_output = ParseConversationFormat) /\
  (~ has_tag raw_output /\ looks_like_json raw_output
   <-> dispatch_response raw_output = ParseJson) /\
  (~ has_tag raw_output /\ ~ looks_like_json raw_output
   <-> dispatch_response raw_output = NoBoxes [] raw_output).
Proof.
  unfold dispatch_response.
  rewrite <- is_conversation_format_response_iff, <- is_json_response_iff.
  destruct (is_conversation_format_response raw_output);
    destruct (is_json_response raw_output);
    repeat split; try tauto; try congruence; try discriminate;
    intros H; try discriminate; try (destruct H; congruence).
Qed.

End DispatchFacts.

(* ================================================================= *)
(** * Normalization of the JSON schemas *)
(* ================================================================= *)

Module JsonFacts.
Import Py VlmUtils.

Lemma mapM_Forall2 {A B} (f : A -> result B) : forall xs ys,
  mapM f xs = Ok ys -> Forall2 (fun x y => f x = Ok y) xs ys.
Proof.
  induction xs as [|x xs IH]; simpl; intros ys H.
  - injection H as <-. constructor.
  - destruct (f x) as [y|e] eqn:Ex; simpl in H; [|discriminate].
    destruct (mapM f xs) as [ys'|e]; simpl in H; [|discriminate].
    injection H as <-. constructor; auto.
Qed.

(** The three field-shapes, as relations between an array element and
    its normal form. *)
Definition keeps_bbox (item out : value) : Prop :=
  exists entries bbox label,
    item = VDict entries /\ lookup (T "bbox") entries = Some bbox
    /\ lookup (T "label") entries = Some label /\ out = item.

Definition renames_bbox_2d (item out : value) : Prop :=
  exists entries bbox label,
    item = VDict entries /\ lookup (T "bbox_2d") entries = Some bbox
    /\ lookup (T "label") entries = Some label
    /\ out = canonical bbox label (get_or (T "description") entries (VStr []))
                       (get_or (T "confidence") entries VNone).

Definition boxes_position (item out : value) : Prop :=
  exists entries pos type,
    item = VDict entries /\ lookup (T "position") entries = Some (VDict pos)
    /\ lookup (T "type") entries = Some type
    /\ out = canonical (VList [get_or (T "x") pos (VInt 0); get_or (T "y") pos (VInt 0);
                               get_or (T "x") pos (VInt 0); get_or (T "y") pos (VInt 0)])
                       type (get_or (T "description") entries (VStr []))
                       (get_or (T "confidence") entries VNone).

(** Every element of the array is normalized by the same schema. *)
Definition uniformly_normalized (items out : list value) : Prop :=
  Forall2 keeps_bbox items out
  \/ Forall2 renames_bbox_2d items out
  \/ Forall2 boxes_position items out.

(** The [bbox] and [label] entries of a normalized element. *)
Definition bbox_and_label (v : value) : option (value * value) :=
  match v with
  | VDict entries =>
      match lookup (T "bbox") entries, lookup (T "label") entries with
      | Some b, Some l => Some (b, l)
      | _, _ => None
      end
  | _ => None
  end.

Definition outputs (r : result (list value * text)) : list value :=
  match r with
  | Ok (out, _) => out
  | Raise _ => []
  end.

Lemma dict_with_inv k1 k2 item :
  dict_with k1 k2 item = true ->
  exists entries v1 v2,
    item = VDict entries /\ lookup k1 entries = Some v1 /\ lookup k2 entries = Some v2.
Proof.
  destruct item as [| | | | | |entries]; try (intros H; discriminate H).
  unfold dict_with, has_key.
  destruct (lookup k1 entries) as [v1|] eqn:E1; [|discriminate].
  destruct (lookup k2 entries) as [v2|] eqn:E2; [|discriminate].
  intros _. exists entries, v1, v2. auto.
Qed.

Lemma forallb_Forall2_same (p : value -> bool) (R : value -> value -> Prop) items :
  (forall x, p x = true -> R x x) -> forallb p items = true -> Forall2 R items items.
Proof.
  intros HR. induction items as [|x items IH]; simpl; intros H; constructor;
    apply andb_true_iff in H as [Hx H]; auto.
Qed.

Lemma Forall2_refine (p : value -> bool) (f : value -> result value)
    (R : value -> value -> Prop) :
  (forall x y, p x = true -> f x = Ok y -> R x y) ->
  forall items out, forallb p items = true ->
    Forall2 (fun x y => f x = Ok y) items out -> Forall2 R items out.
Proof.
  intros HR. induction items as [|x items IH]; intros out Hp H;
    inversion H; subst; constructor; simpl in Hp;
    apply andb_true_iff in Hp as [Hx Hp]; auto.
Qed.

Lemma convert_bbox_2d_form item out :
  dict_with (T "bbox_2d") (T "label") item = true ->
  convert_bbox_2d item = Ok out -> renames_bbox_2d item out.
Proof.
  intros Hd H. apply dict_with_inv in Hd as (entries & b & l & -> & Hb & Hl).
  unfold convert_bbox_2d, subscript, method_get in H. rewrite Hb, Hl in H.
  cbn [bind] in H. injection H as <-. exists entries, b, l. auto.
Qed.

Lemma convert_position_form item out :
  dict_with (T "position") (T "type") item = true ->
  convert_position item = Ok out -> boxes_position item out.
Proof.
  intros Hd H. apply dict_with_inv in Hd as (entries & pos & ty & -> & Hp & Ht).
  unfold convert_position, subscript in H. rewrite Hp, Ht in H. cbn [bind] in H.
  destruct pos as [| | | | | |pe]; cbn [method_get bind] in H; try discriminate.
  injection H as <-. exists entries, pe, ty. auto.
Qed.

Lemma normalize_detections_uniform data out description :
  normalize_detections data = Ok (out, description) ->
  description = [] /\ exists items, data = VList items /\ uniformly_normalized items out.
Proof.
  unfold normalize_detections, list_of_dicts_with.
  destruct data as [| | | | |items|]; try discriminate. cbn [elements].
  destruct (forallb (dict_with (T "bbox") (T "label")) items) eqn:EA.
  { intros H. injection H as <- <-. split; [reflexivity|]. exists items. split; [reflexivity|].
    left. eapply forallb_Forall2_same; [|exact EA].
    intros x Hx. apply dict_with_inv in Hx as (e & b & l & -> & Hb & Hl).
    exists e, b, l. auto. }
  destruct (forallb (dict_with (T "bbox_2d") (T "label")) items) eqn:EB.
  { destruct (mapM convert_bbox_2d items) as [conv|e] eqn:EM; simpl; [|discriminate].
    intros H. injection H as <- <-. split; [reflexivity|]. exists items. split; [reflexivity|].
    right. left. apply mapM_Forall2 in EM.
    eapply Forall2_refine; [apply convert_bbox_2d_form | exact EB | exact EM]. }
  destruct (forallb (dict_with (T "position") (T "type")) items) eqn:EC; [|discriminate].
  destruct (mapM convert_position items) as [conv|e] eqn:EM; simpl; [|discriminate].
  intros H. injection H as <- <-. split; [reflexivity|]. exists items. split; [reflexivity|].
  right. right. apply mapM_Forall2 in EM.
  eapply Forall2_refine; [apply convert_position_form | exact EC | exact EM].
Qed.

(** ** The outcome of [parse_vlm_json_response] *)

(** The text handed to [json.loads]: the stripped text, or the stripped
    inside of its first code fence. *)
Definition payload (text : Py.text) : Py.text :=
  match search fence_pattern (strip text) with
  | Some (group1 :: _, _) => strip group1
  | _ => strip text
  end.

(** The element is an object with the two keys. *)
Definition has_fields (k1 k2 : text) (item : value) : Prop :=
  exists entries v1 v2,
    item = VDict entries /\ lookup k1 entries = Some v1 /\ lookup k2 entries = Some v2.

(** The array is normalized by the first of the three schemas that all
    of its elements match. *)
Definition normalized (items out : list value) : Prop :=
  (Forall (has_fields (T "bbox") (T "label")) items /\ Forall2 keeps_bbox items out)
  \/ (~ Forall (has_fields (T "bbox") (T "label")) items
      /\ Forall2 renames_bbox_2d items out)
  \/ (~ Forall (has_fields (T "bbox") (T "label")) items
      /\ ~ Forall (has_fields (T "bbox_2d") (T "label")) items
      /\ Forall2 boxes_position items out).

(** One object in each of the three field-shapes, for the box
    [[x, y, x, y]] and a label. *)
Definition as_bbox (o : value * value * value) : value :=
  let '(x, y, label) := o in
  VDict [(T "bbox", VList [x; y; x; y]); (T "label", label)].

Definition as_bbox_2d (o : value * value * value) : value :=
  let '(x, y, label) := o in
  VDict [(T "bbox_2d", VList [x; y; x; y]); (T "label", label)].

Definition as_position (o : value * value * value) : value :=
  let '(x, y, label) := o in
  VDict [(T "position", VDict [(T "x", x); (T "y", y)]); (T "type", label)].

Definition box_of (o : value * value * value) : option (value * value) :=
  let '(x, y, label) := o in Some (VList [x; y; x; y], label).

Lemma dict_with_fields k1 k2 item :
  dict_with k1 k2 item = true <-> has_fields k1 k2 item.
Proof.
  split; [apply dict_with_inv|].
  intros (entries & v1 & v2 & -> & H1 & H2).
  unfold dict_with, has_key. rewrite H1, H2. reflexivity.
Qed.

Lemma forallb_fields k1 k2 items :
  forallb (dict_with k1 k2) items = true <-> Forall (has_fields k1 k2) items.
Proof.
  rewrite forallb_forall, Forall_forall.
  split; intros H x Hx; apply dict_with_fields, H, Hx.
Qed.

Lemma forallb_no_fields k1 k2 items :
  forallb (dict_with k1 k2) items = false <-> ~ Forall (has_fields k1 k2) items.
Proof.
  rewrite <- forallb_fields. destruct (forallb (dict_with k1 k2) items); split;
    congruence || auto.
Qed.

Lemma Forall2_keeps items out : Forall2 keeps_bbox items out -> out = items.
Proof.
  induction 1 as [|x y xs ys (e & b & l & _ & _ & _ & ->) _ IH]; [reflexivity|].
  f_equal. exact IH.
Qed.

Lemma renames_converts item out :
  renames_bbox_2d item out -> convert_bbox_2d item = Ok out.
Proof.
  intros (entries & b & l & -> & Hb & Hl & ->).
  unfold convert_bbox_2d, subscript, method_get. rewrite Hb, Hl. reflexivity.
Qed.

Lemma boxes_converts item out :
  boxes_position item out -> convert_position item = Ok out.
Proof.
  intros (entries & pos & ty & -> & Hp & Ht & ->).
  unfold convert_position, subscript, method_get. rewrite Hp, Ht. reflexivity.
Qed.

Lemma renames_has_fields items out :
  Forall2 renames_bbox_2d items out -> Forall (has_fields (T "bbox_2d") (T "label")) items.
Proof.
  induction 1 as [|x y xs ys (e & b & l & -> & Hb & Hl & _) _ IH]; constructor; [|exact IH].
  exists e, b, l. auto.
Qed.

Lemma boxes_has_fields items out :
  Forall2 boxes_position items out -> Forall (has_fields (T "position") (T "type")) items.
Proof.
  induction 1 as [|x y xs ys (e & p & t & -> & Hp & Ht & _) _ IH]; constructor; [|exact IH].
  exists e, (VDict p), t. auto.
Qed.

Lemma mapM_of_Forall2 {A B} (f : A -> result B) xs ys :
  Forall2 (fun x y => f x = Ok y) xs ys -> mapM f xs = Ok ys.
Proof.
  induction 1 as [|x y xs ys Hx _ IH]; [reflexivity|].
  cbn [mapM]. rewrite Hx, IH. reflexivity.
Qed.

(** The schema cascade succeeds exactly on the arrays that one schema
    normalizes, the first that applies. *)
Lemma normalize_detections_first data out description :
  normalize_detections data = Ok (out, description)
  <-> description = [] /\ exists items, data = VList items /\ normalized items out.
Proof.
  unfold normalize_detections, list_of_dicts_with. split.
  - destruct data as [| | | | |items|]; try discriminate. cbn [elements].
    destruct (forallb (dict_with (T "bbox") (T "label")) items) eqn:EA.
    { intros H. injection H as <- <-. split; [reflexivity|]. exists items.
      split; [reflexivity|]. left. split; [apply forallb_fields; exact EA|].
      eapply forallb_Forall2_same; [|exact EA].
      intros x Hx. apply dict_with_inv in Hx as (e & b & l & -> & Hb & Hl).
      exists e, b, l. auto. }
    apply forallb_no_fields in EA.
    destruct (forallb (dict_with (T "bbox_2d") (T "label")) items) eqn:EB.
    { destruct (mapM convert_bbox_2d items) as [conv|e] eqn:EM; simpl; [|discriminate].
      intros H. injection H as <- <-. split; [reflexivity|]. exists items.
      split; [reflexivity|]. right. left. split; [exact EA|].
      apply mapM_Forall2 in EM.
      eapply Forall2_refine; [apply convert_bbox_2d_form | exact EB | exact EM]. }
    apply forallb_no_fields in EB.
    destruct (forallb (dict_with (T "position") (T "type")) items) eqn:EC; [|discriminate].
    destruct (mapM convert_position items) as [conv|e] eqn:EM; simpl; [|discriminate].
    intros H. injection H as <- <-. split; [reflexivity|]. exists items.
    split; [reflexivity|]. right. right. split; [exact EA|]. split; [exact EB|].
    apply mapM_Forall2 in EM.
    eapply Forall2_refine; [apply convert_position_form | exact EC | exact EM].
  - intros (-> & items & -> & [[HA Hk]|[[HA Hr]|(HA & HB & Hp)]]); cbn [elements].
    + apply Forall2_keeps in Hk. subst out.
      apply forallb_fields in HA. rewrite HA. reflexivity.
    + apply forallb_no_fields in HA. rewrite HA.
      pose proof (renames_has_fields _ _ Hr) as HB. apply forallb_fields in HB. rewrite HB.
      rewrite (mapM_of_Forall2 convert_bbox_2d items out); [reflexivity|].
      eapply Forall2_impl; [|exact Hr]. intros a b. apply renames_converts.
    + apply forallb_no_fields in HA. rewrite HA.
      apply forallb_no_fields in HB. rewrite HB.
      pose proof (boxes_has_fields _ _ Hp) as HC. apply forallb_fields in HC. rewrite HC.
      rewrite (mapM_of_Forall2 convert_position items out); [reflexivity|].
      eapply Forall2_impl; [|exact Hp]. intros a b. apply boxes_converts.
Qed.

Lemma mapM_images {A B C} (f : B -> result C) (g : A -> B) (h : A -> C) xs :
  (forall x, f (g x) = Ok (h x)) -> mapM f (map g xs) = Ok (map h xs).
Proof.
  intros H. induction xs as [|x xs IH]; [reflexivity|].
  cbn [map mapM]. rewrite H, IH. reflexivity.
Qed.

Section Decoded.

Variable json_loads : text -> option value.

Lemma parse_decoded text data :
  json_loads (payload text) = Some data ->
  parse_vlm_json_response json_loads text = normalize_detections data.
Proof. intros H. unfold parse_vlm_json_response. fold (payload text). rewrite H. reflexivity. Qed.

Lemma parse_undecoded text :
  json_loads (payload text) = None ->
  parse_vlm_json_response json_loads text = Raise ValueError.
Proof. intros H. unfold parse_vlm_json_response. fold (payload text). rewrite H. reflexivity. Qed.

Lemma parse_as_bbox text objs :
  json_loads (payload text) = Some (VList (map as_bbox objs)) ->
  parse_vlm_json_response json_loads text = Ok (map as_bbox objs, []).
Proof.
  intros H. rewrite (parse_decoded _ _ H).
  unfold normalize_detections, list_of_dicts_with. cbn [elements].
  replace (forallb (dict_with (T "bbox") (T "label")) (map as_bbox objs)) with true;
    [reflexivity|].
  symmetry. apply forallb_forall. intros v Hv. apply in_map_iff in Hv as ([[x y] l] & <- & _).
  reflexivity.
Qed.

Definition renamed (o : value * value * value) : value :=
  let '(x, y, label) := o in canonical (VList [x; y; x; y]) label (VStr []) VNone.

Lemma parse_as_bbox_2d text objs :
  json_loads (payload text) = Some (VList (map as_bbox_2d objs)) ->
  parse_vlm_json_response json_loads text = Ok (map renamed objs, []).
Proof.
  intros H. rewrite (parse_decoded _ _ H).
  destruct objs as [|[[x y] l] objs]; [reflexivity|].
  unfold normalize_detections, list_of_dicts_with. cbn [elements].
  replace (forallb (dict_with (T "bbox") (T "label")) (map as_bbox_2d ((x, y, l) :: objs)))
    with false by reflexivity.
  replace (forallb (dict_with (T "bbox_2d") (T "label")) (map as_bbox_2d ((x, y, l) :: objs)))
    with true.
  - rewrite (mapM_images convert_bbox_2d as_bbox_2d renamed); [reflexivity|].
    intros [[a b] c]. reflexivity.
  - symmetry. apply forallb_forall. intros v Hv.
    apply in_map_iff in Hv as ([[a b] c] & <- & _). reflexivity.
Qed.

Lemma parse_as_position text objs :
  json_loads (payload text) = Some (VList (map as_position objs)) ->
  parse_vlm_json_response json_loads text = Ok (map renamed objs, []).
Proof.
  intros H. rewrite (parse_decoded _ _ H).
  destruct objs as [|[[x y] l] objs]; [reflexivity|].
  unfold normalize_detections, list_of_dicts_with. cbn [elements].
  replace (forallb (dict_with (T "bbox") (T "label")) (map as_position ((x, y, l) :: objs)))
    with false by reflexivity.
  replace (forallb (dict_with (T "bbox_2d") (T "label")) (map as_position ((x, y, l) :: objs)))
    with false by reflexivity.
  replace (forallb (dict_with (T "position") (T "type")) (map as_position ((x, y, l) :: objs)))
    with true.
  - rewrite (mapM_images convert_position as_position renamed); [reflexivity|].
    intros [[a b] c]. reflexivity.
  - symmetry. apply forallb_forall. intros v Hv.
    apply in_map_iff in Hv as ([[a b] c] & <- & _). reflexivity.
Qed.

(** C6. [parse_vlm_json_response] returns a list exactly when the
    payload of the text (the stripped text, or the stripped inside of its
    first code fence) decodes to an array all of whose elements match one
    of the three schemas; the list then holds the normal forms of all the
    elements under the first such schema: [bbox]/[label] elements
    unchanged, [bbox_2d]/[label] elements with the box renamed to [bbox],
    [position]/[type] elements with the box [[x, y, x, y]] and the type
    as label; the description is empty.  In every other case it raises
    and returns nothing, with [ValueError] when the payload does not
    decode.  Three texts whose payloads decode to the same boxes
    [[x, y, x, y]] and labels, written in the three field-shapes, all
    parse, and give the same [bbox] and [label] element by element. *)
Theorem json_schemas_normalize_uniformly :
  (forall text out description,
      parse_vlm_json_response json_loads text = Ok (out, description)
      <-> description = []
          /\ exists items,
               json_loads (payload text) = Some (VList items) /\ normalized items out)
  /\ (forall text,
        json_loads (payload text) = None ->
        parse_vlm_json_response json_loads text = Raise ValueError)
  /\ (forall (objs : list (value * value * value)) (text_a text_b text_c : text),
        json_loads (payload text_a) = Some (VList (map as_bbox objs)) ->
        json_loads (payload text_b) = Some (VList (map as_bbox_2d objs)) ->
        json_loads (payload text_c) = Some (VList (map as_position objs)) ->
        exists out_a out_b out_c,
          parse_vlm_json_response json_loads text_a = Ok (out_a, [])
          /\ parse_vlm_json_response json_loads text_b = Ok (out_b, [])
          /\ parse_vlm_json_response json_loads text_c = Ok (out_c, [])
          /\ map bbox_and_label out_a = map box_of objs
          /\ map bbox_and_label out_b = map box_of objs
          /\ map bbox_and_label out_c = map box_of objs).
Proof.
  split; [|split].
  - intros text out description.
    destruct (json_loads (payload text)) as [data|] eqn:Ed.
    + rewrite (parse_decoded _ _ Ed), normalize_detections_first.
      split; intros (Hd & items & Hi & Hn); (split; [exact Hd|]); exists items.
      * subst data. auto.
      * injection Hi as <-. auto.
    + rewrite (parse_undecoded _ Ed). split; [discriminate|].
      intros (_ & items & Hi & _). discriminate Hi.
  - apply parse_undecoded.
  - intros objs text_a text_b text_c Ha Hb Hc.
    exists (map as_bbox objs), (map renamed objs), (map renamed objs).
    rewrite (parse_as_bbox _ _ Ha), (parse_as_bbox_2d _ _ Hb), (parse_as_position _ _ Hc).
    repeat split; rewrite map_map; apply map_ext; intros [[x y] l]; reflexivity.
Qed.

End Decoded.

(** A decoder that knows three documents. *)
Definition cat_and_dog : list (value * value * value) :=
  [(VInt 10, VInt 20, VStr (T "cat")); (VFloat (Finite (1 # 2)), VInt 7, VStr (T "dog"))].

Definition three_documents (s : text) : option value :=
  if text_eqb s (T "[bbox objects]") then Some (VList (map as_bbox cat_and_dog))
  else if text_eqb s (T "[bbox_2d objects]") then Some (VList (map as_bbox_2d cat_and_dog))
  else if text_eqb s (T "[position objects]") then Some (VList (map as_position cat_and_dog))
  else None.

Lemma json_schemas_normalize_uniformly_witness :
  exists out_a out_b out_c,
    parse_vlm_json_response three_documents (T " [bbox objects] ") = Ok (out_a, [])
    /\ parse_vlm_json_response three_documents (T "```json [bbox_2d objects] ```") = Ok (out_b, [])
    /\ parse_vlm_json_response three_documents (T "``` [position objects]```") = Ok (out_c, [])
    /\ map bbox_and_label out_a = map box_of cat_and_dog
    /\ map bbox_and_label out_b = map box_of cat_and_dog
    /\ map bbox_and_label out_c = map box_of cat_and_dog.
Proof.
  apply (proj2 (proj2 (json_schemas_normalize_uniformly three_documents)) cat_and_dog);
    vm_compute; reflexivity.
Defined.

End JsonFacts.

(* ================================================================= *)
(** * Truncated and ordered pixel coordinates *)
(* ================================================================= *)

Module ScalingFacts.
Import Py VlmUtils.

(** Truncation toward zero, the value of [int(x)] on a finite float. *)
Definition trunc (q : Q) : Z := Z.quot (Qnum q) (Zpos (Qden q)).

Lemma ordered_pair (a b : Z) :
  (if (a >? b)%Z then (b, a) else (a, b)) = (Z.min a b, Z.max a b).
Proof.
  destruct (Z.gtb_spec a b); f_equal; lia.
Qed.

End ScalingFacts.

(* ================================================================= *)
(** * Task groups and export outcomes *)
(* ================================================================= *)

Module ExportFacts.
Import Py ConversationFormat LoaderFacts.

Lemma get_eq_iff field s : get_eq field s = true <-> field = Some s.
Proof.
  destruct field as [v|]; simpl.
  - split; [intros H; apply text_eqb_eq in H; congruence|].
    intros H. injection H as ->. apply text_eqb_refl.
  - split; discriminate.
Qed.

(** A grouping is strict for a way of reading the task tag when the
    Detection group holds exactly the shapes tagged [Detection] and the
    OCR group exactly those tagged [OCR]; an untagged shape is then in
    neither group. *)
Definition strict_grouping (groups : list Shape -> list Shape * list Shape)
    (task_tag : Shape -> option text) (shapes : list Shape) : Prop :=
  forall s,
    (In s (fst (groups shapes)) <-> In s shapes /\ task_tag s = Some (T "Detection"))
    /\ (In s (snd (groups shapes)) <-> In s shapes /\ task_tag s = Some (T "OCR")).

(** The tag [export] looks for: [vlm_task] inside [other_data]. *)
Definition other_data_task (shape : Shape) : option text :=
  match other_data shape with
  | Dict items => dict_vlm_task items
  | _ => None
  end.

Lemma single_file_fold : forall l det ocr,
  fold_left single_file_step l (det, ocr)
  = (det ++ filter (fun s => get_eq (vlm_task s) (T "Detection")) l,
     ocr ++ filter (fun s => get_eq (vlm_task s) (T "OCR")) l).
Proof.
  induction l as [|s l IH]; intros det ocr.
  - simpl. rewrite !app_nil_r. reflexivity.
  - cbn [fold_left filter]. unfold single_file_step at 2.
    destruct (get_eq (vlm_task s) (T "Detection")) eqn:Ed.
    + apply get_eq_iff in Ed. rewrite Ed. cbn [get_eq].
      replace (text_eqb (T "Detection") (T "OCR")) with false by reflexivity.
      rewrite IH, <- app_assoc. reflexivity.
    + destruct (get_eq (vlm_task s) (T "OCR")); rewrite IH, <- ?app_assoc; reflexivity.
Qed.

Lemma export_fold : forall l det ocr,
  fold_left export_step l (det, ocr) = (det ++ l, ocr).
Proof.
  induction l as [|s l IH]; intros det ocr.
  - simpl. rewrite app_nil_r. reflexivity.
  - cbn [fold_left]. unfold export_step at 2.
    assert (export_task_type s = None) as ->
      by (unfold export_task_type, hasattr_other_data;
          destruct (other_data s) as [| |[|kv items]]; reflexivity).
    cbn [get_eq]. rewrite IH, <- app_assoc. reflexivity.
Qed.

(** As written, the grouping loop of [export] sends every shape to the
    Detection group. *)
Lemma export_groups_all_detection shapes : export_groups shapes = (shapes, []).
Proof. unfold export_groups. rewrite export_fold. reflexivity. Qed.

Definition untagged_rectangle : Shape :=
  {| shape_label := T "car";
     points := [(Finite 10, Finite 20); (Finite 30, Finite 40)];
     shape_type := T "rectangle"; vlm_task := None; other_data := Dict [] |}.

(** C8, as stated, fails on [ShareGPTExporter.export]: a shape that
    carries no task tag is put in the Detection group. *)
Lemma export_defaults_untagged :
  ~ strict_grouping export_groups other_data_task [untagged_rectangle].
Proof.
  intros H. destruct (H untagged_rectangle) as [[H1 _] _].
  assert (In untagged_rectangle (fst (export_groups [untagged_rectangle]))) as Hin
    by (left; reflexivity).
  apply H1 in Hin as [_ Ht]. discriminate Ht.
Qed.

(** C8, amended. In [export_single_file] a shape is in the Detection
    group exactly when its [vlm_task] is [Detection] and in the OCR group
    exactly when it is [OCR], so an untagged shape is in neither; in
    [export] a shape with no task tag is put in the Detection group. *)
Theorem task_groups_by_tag (shapes : list Shape) :
  strict_grouping single_file_groups vlm_task shapes
  /\ (forall s, In s shapes -> vlm_task s = None ->
        ~ In s (fst (single_file_groups shapes))
        /\ ~ In s (snd (single_file_groups shapes)))
  /\ (forall s, In s shapes -> other_data_task s = None ->
        In s (fst (export_groups shapes))).
Proof.
  assert (strict_grouping single_file_groups vlm_task shapes) as Hstrict.
  { intros s. unfold single_file_groups. rewrite single_file_fold. cbn [fst snd app].
    rewrite !filter_In, !get_eq_iff. tauto. }
  split; [exact Hstrict|]. split.
  - intros s Hin Hnone. destruct (Hstrict s) as [H1 H2]. rewrite H1, H2, Hnone.
    split; intros [_ H]; discriminate.
  - intros s Hin _. rewrite export_groups_all_detection. exact Hin.
Qed.

Section Outcomes.

Variable list_of_set : list text -> list text.
Variable json_dumps_box : list pyfloat -> text -> text.

(** An image of one pixel. *)
Definition one_pixel (image_data : list Byte.byte) : result (Z * Z) := Ok (1, 1)%Z.

(** A label file with an image, no shape and no caption history. *)
Definition nothing_to_export : LabelFile :=
  {| imageData := Some [Byte.x89];
     imagePath := Some (T "photo.jpg");
     shapes := [];
     otherData := Some {| caption_history := None |} |}.

(** C9 on the failing input. With nothing to export,
    [export_single_file] reports failure and writes nothing, while
    [export] writes a document whose conversations list is empty and
    reports success. *)
Theorem export_writes_empty_conversations :
  export_single_file one_pixel json_dumps_box nothing_to_export = failed
  /\ export one_pixel list_of_set json_dumps_box nothing_to_export
     = {| returned := true;
          written := Some [{| doc_image := Some (T "photo.jpg");
                              doc_task := T "Caption";
                              doc_conversations := [] |}] |}.
Proof. split; reflexivity. Qed.

End Outcomes.

End ExportFacts.

(* ================================================================= *)
(** * Printing and reading numbers *)
(* ================================================================= *)

Module NumberFacts.
Import Py PyFacts.

Definition is_digit (d : Z) : Prop := (0 <= d <= 9)%Z.

Lemma digit_cases d : is_digit d ->
  d = 0%Z \/ d = 1%Z \/ d = 2%Z \/ d = 3%Z \/ d = 4%Z \/ d = 5%Z \/ d = 6%Z
  \/ d = 7%Z \/ d = 8%Z \/ d = 9%Z.
Proof. unfold is_digit. lia. Qed.

Ltac each_digit d H :=
  destruct (digit_cases d H) as [->|[->|[->|[->|[->|[->|[->|[->|[->| ->]]]]]]]]].

Lemma digit_val_char d : is_digit d -> digit_val (digit_char d) = Some d.
Proof. intros H. each_digit d H; reflexivity. Qed.

(** A digit character is no space, sign, dot, comma, exponent letter,
    bracket, angle bracket or letter of [inf] and [nan]. *)
Definition plain (c : ascii) : Prop :=
  is_space c = false /\ Ascii.eqb c "-" = false /\ Ascii.eqb c "+" = false
  /\ Ascii.eqb c "." = false /\ Ascii.eqb c "," = false /\ is_e c = false
  /\ Ascii.eqb c "]" = false /\ Ascii.eqb c "<" = false
  /\ lower_char c = c /\ Ascii.eqb c "i" = false /\ Ascii.eqb c "n" = false
  /\ Ascii.eqb "." c = false.

Lemma digit_char_plain d : is_digit d -> plain (digit_char d).
Proof. intros H. each_digit d H; repeat split. Qed.

Lemma mod10_digit n : is_digit (n mod 10).
Proof. unfold is_digit. pose proof (Z.mod_pos_bound n 10). lia. Qed.

Lemma digitpart_from_digits ds : forall b,
  Forall is_digit ds -> (ds <> [] \/ b = true) ->
  digitpart_from b (map digit_char ds) = Some ds.
Proof.
  induction ds as [|d ds IH]; intros b Hd Hne.
  - destruct Hne as [Hne| ->]; [congruence|reflexivity].
  - inversion Hd as [|? ? Hd1 Hd2]; subst. cbn [map digitpart_from].
    rewrite (digit_val_char _ Hd1), IH; auto.
Qed.

Lemma digits_value_snoc ds d :
  digits_value (ds ++ [d]) = (10 * digits_value ds + d)%Z.
Proof. unfold digits_value. rewrite fold_left_app. reflexivity. Qed.

(** The digits printed by [decimal_fuel]. *)
Lemma decimal_fuel_digits : forall f n acc,
  (0 <= n < 2 ^ Z.of_nat (S f))%Z ->
  exists ds, ds <> [] /\ Forall is_digit ds /\ digits_value ds = n
             /\ decimal_fuel (S f) n acc = map digit_char ds ++ acc.
Proof.
  induction f as [|f IH]; intros n acc Hn.
  - exists [n]. change (2 ^ Z.of_nat 1)%Z with 2%Z in Hn.
    assert ((n <? 10)%Z = true) as Hlt by (apply Z.ltb_lt; lia).
    cbn [decimal_fuel]. rewrite Hlt.
    replace (n mod 10)%Z with n by (rewrite Z.mod_small; lia).
    split; [discriminate|]. split; [constructor; [unfold is_digit; lia|constructor]|].
    split; [unfold digits_value; simpl; lia | reflexivity].
  - cbn [decimal_fuel]. destruct (n <? 10)%Z eqn:Hlt.
    + apply Z.ltb_lt in Hlt. exists [n].
      replace (n mod 10)%Z with n by (rewrite Z.mod_small; lia).
      split; [discriminate|]. split; [constructor; [unfold is_digit; lia|constructor]|].
      split; [unfold digits_value; simpl; lia | reflexivity].
    + apply Z.ltb_ge in Hlt.
      assert (0 <= n / 10 < 2 ^ Z.of_nat (S f))%Z as Hq.
      { split; [apply Z.div_pos; lia|].
        apply Z.div_lt_upper_bound; [lia|].
        rewrite (Nat2Z.inj_succ (S f)), Z.pow_succ_r in Hn by lia. lia. }
      destruct (IH (n / 10)%Z (digit_char (n mod 10) :: acc) Hq)
        as (ds & Hne & Hd & Hv & He).
      exists (ds ++ [(n mod 10)%Z]). split; [|split; [|split]].
      * destruct ds; discriminate.
      * apply Forall_app. split; [exact Hd|]. constructor; [apply mod10_digit|constructor].
      * rewrite digits_value_snoc, Hv. pose proof (Z.div_mod n 10). lia.
      * cbn [decimal_fuel] in He. rewrite He, map_app, <- app_assoc. reflexivity.
Qed.

Lemma decimal_digits n : (0 <= n)%Z ->
  exists ds, ds <> [] /\ Forall is_digit ds /\ digits_value ds = n
             /\ decimal n = map digit_char ds.
Proof.
  intros Hn. unfold decimal.
  destruct (decimal_fuel_digits (Z.to_nat (Z.log2 n)) n []) as (ds & H1 & H2 & H3 & H4).
  - rewrite Nat2Z.inj_succ, Z2Nat.id by apply Z.log2_nonneg.
    destruct (Z.eq_dec n 0) as [->|Hz]; [simpl; lia|].
    pose proof (Z.log2_spec n). lia.
  - exists ds. rewrite app_nil_r in H4. auto.
Qed.

(** ** Rounding *)

Lemma round_half_even_close x :
  (Qabs (inject_Z (round_half_even x) - x) <= 1 # 2)%Q.
Proof.
  unfold round_half_even.
  pose proof (Qfloor_le x) as Hlo. pose proof (Qlt_floor x) as Hhi.
  rewrite inject_Z_plus in Hhi. change (inject_Z 1) with 1%Q in Hhi.
  destruct (Qcompare_spec (x - inject_Z (Qfloor x)) (1 # 2)) as [He|Hl|Hg].
  - destruct (Z.even (Qfloor x));
      [|rewrite inject_Z_plus; change (inject_Z 1) with 1%Q];
      apply Qabs_case; intros; lra.
  - apply Qabs_case; intros; lra.
  - rewrite inject_Z_plus. change (inject_Z 1) with 1%Q.
    apply Qabs_case; intros; lra.
Qed.

Lemma round_half_even_nonneg x : (0 <= x)%Q -> (0 <= round_half_even x)%Z.
Proof.
  intros Hx. unfold round_half_even.
  assert (0 <= Qfloor x)%Z as Hf.
  { change 0%Z with (Qfloor 0). apply Qfloor_resp_le. exact Hx. }
  destruct (x - inject_Z (Qfloor x) ?= 1 # 2)%Q; [destruct (Z.even (Qfloor x))| |]; lia.
Qed.

(** ** Printing a float and reading it back *)

(** The value read back from [f"{q:.3f}"]. *)
Definition parsed_back (q : Q) : Q :=
  let n := round_half_even (Qabs q * 1000)%Q in
  let v := (inject_Z (n / 1000)
            + inject_Z (digits_value [(n / 100 mod 10)%Z; (n / 10 mod 10)%Z; (n mod 10)%Z])
              / inject_Z (10 ^ Z.of_nat 3))%Q in
  if Qlt_le_dec q 0%Q then (- v)%Q else v.


Lemma lstrip_id c s : is_space c = false -> lstrip (c :: s) = c :: s.
Proof. intros H. simpl. rewrite H. reflexivity. Qed.

(** A text whose first and last characters are not spaces is its own strip. *)
Lemma strip_id a mid z :
  is_space a = false -> is_space z = false -> strip (a :: mid ++ [z]) = a :: mid ++ [z].
Proof.
  intros Ha Hz. unfold strip, rstrip. rewrite (lstrip_id _ _ Ha).
  replace (rev (a :: mid ++ [z])) with (z :: rev (a :: mid)).
  2:{ change (a :: mid ++ [z]) with ((a :: mid) ++ [z]).
      rewrite rev_app_distr. reflexivity. }
  rewrite (lstrip_id _ _ Hz).
  change (rev (z :: rev (a :: mid))) with (rev (rev (a :: mid)) ++ [z]).
  rewrite rev_involutive. reflexivity.
Qed.

Lemma strip_single a : is_space a = false -> strip [a] = [a].
Proof. intros Ha. unfold strip, rstrip. simpl. rewrite Ha. simpl. rewrite Ha. reflexivity. Qed.

Lemma break_none p s :
  Forall (fun c => p c = false) s -> break p s = (s, None).
Proof.
  induction 1 as [|c s Hc Hs IH]; [reflexivity|].
  cbn [break]. rewrite Hc, IH. reflexivity.
Qed.

Lemma break_at p pre c post :
  Forall (fun x => p x = false) pre -> p c = true ->
  break p (pre ++ c :: post) = (pre, Some post).
Proof.
  intros Hpre Hc. induction Hpre as [|x pre Hx Hpre IH]; cbn [app break].
  - rewrite Hc. reflexivity.
  - rewrite Hx, IH. reflexivity.
Qed.

Lemma digits_plain ds : Forall is_digit ds -> Forall plain (map digit_char ds).
Proof.
  induction 1; constructor; auto using digit_char_plain.
Qed.

Lemma three_digits a b c :
  is_digit a -> is_digit b -> is_digit c -> Forall is_digit [a; b; c].
Proof. intros Ha Hb Hc. constructor; [|constructor; [|constructor]]; auto. Qed.

(** The unsigned part of a formatted number: digits, a dot, three digits. *)
Definition unsigned_text (ds : list Z) (a b c : Z) : text :=
  map digit_char ds ++ T "." ++ map digit_char [a; b; c].

Lemma parse_number_unsigned ds a b c :
  ds <> [] -> Forall is_digit ds -> is_digit a -> is_digit b -> is_digit c ->
  parse_number (unsigned_text ds a b c)
  = Some (inject_Z (digits_value ds)
          + inject_Z (digits_value [a; b; c]) / inject_Z (10 ^ Z.of_nat 3))%Q.
Proof.
  intros Hne Hds Ha Hb Hc. unfold parse_number, unsigned_text.
  change (T "." ++ map digit_char [a; b; c]) with ("."%char :: map digit_char [a; b; c]).
  rewrite break_at; [| |reflexivity].
  2:{ eapply Forall_impl; [|apply digits_plain; exact Hds].
      intros x Hx. apply Hx. }
  assert (int_value (map digit_char ds) = Some (inject_Z (digits_value ds))) as Hi.
  { unfold int_value, digitpart. rewrite digitpart_from_digits; auto. }
  assert (frac_value (map digit_char [a; b; c])
          = Some (inject_Z (digits_value [a; b; c]) / inject_Z (10 ^ Z.of_nat 3))%Q) as Hf.
  { unfold frac_value, digitpart.
    rewrite digitpart_from_digits; [reflexivity | apply three_digits; assumption |].
    left. discriminate. }
  destruct ds as [|d ds]; [congruence|].
  cbn [map] in *. rewrite Hi. cbn [map] in Hf. rewrite Hf. reflexivity.
Qed.

Lemma unsigned_plain_or_dot ds a b c :
  Forall is_digit ds -> is_digit a -> is_digit b -> is_digit c ->
  Forall (fun x => plain x \/ x = "."%char) (unsigned_text ds a b c).
Proof.
  intros Hds Ha Hb Hc. unfold unsigned_text. apply Forall_app. split.
  - eapply Forall_impl; [|apply digits_plain; exact Hds]. auto.
  - constructor; [right; reflexivity|].
    eapply Forall_impl; [|apply digits_plain; apply three_digits; assumption]. auto.
Qed.

Lemma float_unsigned (neg : bool) ds a b c :
  ds <> [] -> Forall is_digit ds -> is_digit a -> is_digit b -> is_digit c ->
  float ((if neg then T "-" else []) ++ unsigned_text ds a b c)
  = Ok (Finite (if neg
                then - (inject_Z (digits_value ds)
                        + inject_Z (digits_value [a; b; c]) / inject_Z (10 ^ Z.of_nat 3))
                else inject_Z (digits_value ds)
                     + inject_Z (digits_value [a; b; c]) / inject_Z (10 ^ Z.of_nat 3)))%Q.
Proof.
  intros Hne Hds Ha Hb Hc.
  pose proof (unsigned_plain_or_dot ds a b c Hds Ha Hb Hc) as Hall.
  pose proof (parse_number_unsigned ds a b c Hne Hds Ha Hb Hc) as Hnum.
  destruct ds as [|d ds]; [congruence|].
  inversion Hds as [|? ? Hd Hds']; subst.
  pose proof (digit_char_plain d Hd) as
    (Hsp & Hminus & Hplus & Hdot & Hcomma & He & Hbr & Hlt & Hlow & Hi & Hn & Hdot').
  pose proof (digit_char_plain c Hc) as (Hspc & _).
  assert (exists mid, unsigned_text (d :: ds) a b c = digit_char d :: mid ++ [digit_char c])
    as [mid Hshape].
  { exists (map digit_char ds ++ T "." ++ [digit_char a; digit_char b]).
    unfold unsigned_text. cbn [map app]. rewrite <- !app_assoc. reflexivity. }
  assert (take_sign (strip ((if neg then T "-" else []) ++ unsigned_text (d :: ds) a b c))
          = (neg, unsigned_text (d :: ds) a b c)) as Hsign.
  { rewrite Hshape. destruct neg.
    - change (T "-" ++ digit_char d :: mid ++ [digit_char c])
        with ("-"%char :: (digit_char d :: mid) ++ [digit_char c]).
      rewrite strip_id by (reflexivity || assumption). reflexivity.
    - cbn [app]. rewrite strip_id by assumption.
      cbn [take_sign]. rewrite Hminus, Hplus. reflexivity. }
  unfold float. rewrite Hsign.
  assert (lower (unsigned_text (d :: ds) a b c) = unsigned_text (d :: ds) a b c) as Hlower.
  { unfold lower. clear - Hall. induction Hall as [|x l Hx Hl IH]; [reflexivity|].
    cbn [map]. rewrite IH. f_equal. destruct Hx as [Hx| ->]; [apply Hx | reflexivity]. }
  rewrite Hlower.
  assert (forall w, Ascii.eqb (digit_char d) w = false ->
            text_eqb (unsigned_text (d :: ds) a b c) (w :: nil) = false
            /\ forall tl, text_eqb (unsigned_text (d :: ds) a b c) (w :: tl) = false) as Hne'.
  { intros w Hw. unfold unsigned_text. cbn [map app text_eqb]. rewrite Hw. auto. }
  destruct (Hne' "i"%char Hi) as [_ Hinf]. destruct (Hne' "n"%char Hn) as [_ Hnan].
  change (T "inf") with ("i"%char :: T "nf").
  change (T "infinity") with ("i"%char :: T "nfinity").
  change (T "nan") with ("n"%char :: T "an").
  rewrite !Hinf, Hnan. cbn [orb].
  unfold parse_floatnumber. rewrite break_none.
  2:{ eapply Forall_impl; [|exact Hall]. intros x [Hx| ->]; [apply Hx|reflexivity]. }
  rewrite Hnum. reflexivity.
Qed.

Lemma format_3f_shape q :
  exists ds,
    ds <> [] /\ Forall is_digit ds
    /\ digits_value ds = (round_half_even (Qabs q * 1000)%Q / 1000)%Z
    /\ format_3f (Finite q)
       = (if Qlt_le_dec q 0%Q then T "-" else [])
           ++ unsigned_text ds (round_half_even (Qabs q * 1000)%Q / 100 mod 10)%Z
                               (round_half_even (Qabs q * 1000)%Q / 10 mod 10)%Z
                               (round_half_even (Qabs q * 1000)%Q mod 10)%Z.
Proof.
  set (n := round_half_even (Qabs q * 1000)%Q).
  assert (0 <= n)%Z as Hn.
  { apply round_half_even_nonneg. pose proof (Qabs_nonneg q). nra. }
  destruct (decimal_digits (n / 1000)%Z) as (ds & Hne & Hds & Hv & Hd).
  { apply Z.div_pos; lia. }
  exists ds. repeat (split; [assumption|]).
  unfold format_3f. fold n. rewrite Hd. reflexivity.
Qed.

Lemma signed_strip (neg : bool) ds a b c :
  ds <> [] -> Forall is_digit ds -> is_digit c ->
  strip ((if neg then T "-" else []) ++ unsigned_text ds a b c)
  = (if neg then T "-" else []) ++ unsigned_text ds a b c.
Proof.
  intros Hne Hds Hc. destruct ds as [|d ds]; [congruence|].
  inversion Hds as [|? ? Hd Hds']; subst.
  pose proof (digit_char_plain d Hd) as (Hsp & _).
  pose proof (digit_char_plain c Hc) as (Hspc & _).
  set (m := map digit_char ds ++ T "." ++ [digit_char a; digit_char b]).
  assert (unsigned_text (d :: ds) a b c = digit_char d :: m ++ [digit_char c]) as ->.
  { unfold unsigned_text, m. cbn [map app]. rewrite <- !app_assoc. reflexivity. }
  destruct neg.
  - apply (strip_id "-"%char (digit_char d :: m) (digit_char c)); [reflexivity|assumption].
  - apply (strip_id (digit_char d) m (digit_char c)); assumption.
Qed.

(** Reading back a formatted finite float. *)
Lemma float_format q :
  float (strip (format_3f (Finite q))) = Ok (Finite (parsed_back q)).
Proof.
  destruct (format_3f_shape q) as (ds & Hne & Hds & Hv & ->).
  set (n := round_half_even (Qabs q * 1000)%Q) in *.
  unfold parsed_back. fold n. rewrite <- Hv.
  destruct (Qlt_le_dec q 0) as [Hneg|Hpos].
  - pose proof (signed_strip true ds (n / 100 mod 10) (n / 10 mod 10) (n mod 10)
                  Hne Hds (mod10_digit _)) as Hs.
    pose proof (float_unsigned true ds _ _ _ Hne Hds (mod10_digit (n / 100))
                  (mod10_digit (n / 10)) (mod10_digit n)) as Hf.
    cbv beta iota in Hs, Hf. rewrite Hs. exact Hf.
  - pose proof (signed_strip false ds (n / 100 mod 10) (n / 10 mod 10) (n mod 10)
                  Hne Hds (mod10_digit _)) as Hs.
    pose proof (float_unsigned false ds _ _ _ Hne Hds (mod10_digit (n / 100))
                  (mod10_digit (n / 10)) (mod10_digit n)) as Hf.
    cbv beta iota in Hs, Hf. rewrite Hs. exact Hf.
Qed.

(** A formatted finite float is not empty and holds neither a comma nor
    a closing bracket. *)
Lemma format_3f_chars q :
  format_3f (Finite q) <> []
  /\ Forall (fun c => Ascii.eqb c "," = false /\ Ascii.eqb c "]" = false)
            (format_3f (Finite q)).
Proof.
  destruct (format_3f_shape q) as (ds & Hne & Hds & Hv & ->).
  split.
  - destruct (Qlt_le_dec q 0); [discriminate|].
    destruct ds; [congruence|discriminate].
  - apply Forall_app. split.
    + destruct (Qlt_le_dec q 0); repeat constructor.
    + eapply Forall_impl; [|apply unsigned_plain_or_dot; auto using mod10_digit].
      intros x [Hx| ->]; [|split; reflexivity]. split; apply Hx.
Qed.

End NumberFacts.

(* ================================================================= *)
(** * Round trip through the embedded-tag text *)
(* ================================================================= *)

Module RoundTripFacts.
Import Py Tags PyFacts TagFacts FindallFacts OccurrenceFacts ConversationFormat LoaderFacts
  NumberFacts.

(** ** Comma-separated lists *)

Definition comma_free (s : text) : Prop := Forall (fun c => Ascii.eqb c "," = false) s.

Lemma split_comma_free s : comma_free s -> split "," s = [s].
Proof.
  induction 1 as [|c s Hc Hs IH]; [reflexivity|].
  cbn [split]. rewrite Hc, IH. reflexivity.
Qed.

Lemma split_comma_app s rest :
  comma_free s -> split "," (s ++ ","%char :: rest) = s :: split "," rest.
Proof.
  induction 1 as [|c s Hc Hs IH]; cbn [app split].
  - reflexivity.
  - rewrite Hc, IH. reflexivity.
Qed.

Lemma join_cons2 sep p q tl : join sep (p :: q :: tl) = p ++ sep ++ join sep (q :: tl).
Proof. reflexivity. Qed.

Lemma split_join parts :
  parts <> [] -> Forall comma_free parts -> split "," (join (T ",") parts) = parts.
Proof.
  intros Hne Hall. induction Hall as [|p parts Hp Hparts IH]; [congruence|].
  destruct parts as [|q tl].
  - apply split_comma_free. exact Hp.
  - rewrite join_cons2. change (T "," ++ join (T ",") (q :: tl))
      with (","%char :: join (T ",") (q :: tl)).
    rewrite split_comma_app by exact Hp. f_equal. apply IH. discriminate.
Qed.

Lemma mapM_map {A B C} (f : B -> result C) (g : A -> B) (h : A -> C) xs :
  (forall x, f (g x) = Ok (h x)) -> mapM f (map g xs) = Ok (map h xs).
Proof.
  intros H. induction xs as [|x xs IH]; [reflexivity|].
  cbn [map mapM]. rewrite H, IH. reflexivity.
Qed.

Definition formatted (q : Q) : text := format_3f (Finite q).

Lemma formatted_comma_free q : comma_free (formatted q).
Proof.
  destruct (format_3f_chars q) as [_ H].
  eapply Forall_impl; [|exact H]. intros c [Hc _]. exact Hc.
Qed.


Lemma join_bracket_free parts :
  Forall (fun p => forallb (other_than "]") p = true) parts ->
  forallb (other_than "]") (join (T ",") parts) = true.
Proof.
  induction 1 as [|p parts Hp Hparts IH]; [reflexivity|].
  destruct parts as [|q tl]; [exact Hp|].
  rewrite join_cons2, forallb_app, forallb_app, Hp.
  apply andb_true_iff. split; [reflexivity|].
  apply andb_true_iff. split; [reflexivity|exact IH].
Qed.

Lemma formatted_bracket_free q : forallb (other_than "]") (formatted q) = true.
Proof.
  destruct (format_3f_chars q) as [_ H]. apply forallb_forall.
  intros c Hc. rewrite Forall_forall in H. destruct (H c Hc) as [_ Hb].
  unfold other_than. rewrite Hb. reflexivity.
Qed.

Lemma join_nonempty (sep : text) parts :
  parts <> [] -> Forall (fun p => p <> []) parts -> join sep parts <> [].
Proof.
  intros Hne Hall. destruct Hall as [|p parts Hp Hparts]; [congruence|].
  destruct parts as [|q tl]; [exact Hp|].
  rewrite join_cons2. destruct p; [congruence|discriminate].
Qed.

Lemma coords_text_valid qs :
  qs <> [] ->
  join (T ",") (map formatted qs) <> []
  /\ forallb (other_than "]") (join (T ",") (map formatted qs)) = true.
Proof.
  intros Hne. split.
  - apply join_nonempty; [destruct qs; [congruence|discriminate]|].
    apply Forall_map, Forall_forall. intros q _. apply format_3f_chars.
  - apply join_bracket_free, Forall_map, Forall_forall. intros q _.
    apply formatted_bracket_free.
Qed.

(** ** Tags in a sentence *)

Lemma findall_join sep items rest :
  forallb (other_than "<") sep = true -> Forall valid_item items ->
  findall annotation_pattern (join sep (map part items) ++ rest)
  = map groups items ++ findall annotation_pattern rest.
Proof.
  intros Hsep Hall. induction Hall as [|it items Hit Hitems IH]; [reflexivity|].
  destruct items as [|it2 tl].
  - cbn [map join app]. apply findall_part. exact Hit.
  - change (map part (it :: it2 :: tl)) with (part it :: part it2 :: map part tl).
    rewrite join_cons2, <- !app_assoc, findall_part by exact Hit.
    rewrite findall_skip_plain by exact Hsep.
    cbn [map app]. f_equal. exact IH.
Qed.

Lemma last_item {A} (init : list A) (z : A) : item (rev (init ++ [z])) 0 = Ok z.
Proof. rewrite rev_app_distr. reflexivity. Qed.


(** ** From records to shapes and back to text *)

(** The geometry kind that belongs to a coordinate count. *)
Definition kind_of_count (n : nat) : option AnnotationType :=
  if n =? 2 then Some point
  else if n =? 4 then Some bbox
  else if (6 <=? n) && (n mod 2 =? 0) then Some polygon
  else None.


(** What the exporter divides back: [x * W / W] and [y * H / H] in turn. *)
Fixpoint renormalized (img_width img_height : Z) (qs : list Q) : list Q :=
  match qs with
  | x :: y :: tl =>
      (x * inject_Z img_width / inject_Z img_width)%Q
      :: (y * inject_Z img_height / inject_Z img_height)%Q
      :: renormalized img_width img_height tl
  | _ => []
  end.

Section Image.

Variables img_width img_height : Z.
Hypothesis width_nonzero : img_width <> 0%Z.
Hypothesis height_nonzero : img_height <> 0%Z.





(** The text rendered for one record. *)
Definition rendered (r : ConversationAnnotation) (qs : list Q) : text * text :=
  (label r, join (T ",") (map formatted (renormalized img_width img_height qs))).


End Image.

(** ** The round trip *)

(** Both coordinates are finite and differ by at most 0.001. *)
Definition close (c c' : pyfloat) : Prop :=
  match c, c' with
  | Finite q, Finite q' => (Qabs (q' - q) <= 1 # 1000)%Q
  | _, _ => False
  end.

Definition same_record (r p : ConversationAnnotation) : Prop :=
  label p = label r /\ Forall2 close (coordinates r) (coordinates p).

(** A record as the specification describes it: no [<] in the label, finite
    coordinates, and the geometry kind that belongs to their count. *)
Definition well_formed (r : ConversationAnnotation) : Prop :=
  forallb (other_than "<") (label r) = true
  /\ kind_of_count (length (coordinates r)) = Some (annotation_type r)
  /\ exists qs, coordinates r = map Finite qs.

(** A label the parser gives back unchanged: not empty, and with no
    whitespace at either end. *)
Definition stable_label (r : ConversationAnnotation) : Prop :=
  label r <> [] /\ strip (label r) = label r.

Section RoundTrip.

Variables img_width img_height : Z.
Hypothesis width_nonzero : img_width <> 0%Z.
Hypothesis height_nonzero : img_height <> 0%Z.


(** The record read back from the text of [r]. *)
Definition read_back (r : ConversationAnnotation) (qs : list Q) : ConversationAnnotation :=
  {| label := label r;
     coordinates := map (fun q => Finite (parsed_back q))
                        (renormalized img_width img_height qs);
     annotation_type := annotation_type r |}.




End RoundTrip.

End RoundTripFacts.

(* ================================================================= *)
(** * Facts about binary64 rounding *)
(* ================================================================= *)

Module Binary64Facts.
Import Py Binary64 NumberFacts.
Local Open Scope Q_scope.

Lemma pow2_pos e : 0 < pow2 e.
Proof. apply Qpower_0_lt. reflexivity. Qed.

Lemma pow2_plus a b : pow2 (a + b) == pow2 a * pow2 b.
Proof. apply Qpower_plus. discriminate. Qed.

Lemma pow2_minus a b : pow2 (a - b) == pow2 a / pow2 b.
Proof. apply Qpower_minus. discriminate. Qed.

Lemma pow2_le a b : (a <= b)%Z -> pow2 a <= pow2 b.
Proof. intros H. apply Qpower_le_compat_l; [exact H|discriminate]. Qed.

Lemma pow2_Z n : (0 <= n)%Z -> pow2 n == inject_Z (2 ^ n).
Proof. intros H. unfold pow2. rewrite Zpower_Qpower by exact H. reflexivity. Qed.

Lemma pow2_lt_inv a b : pow2 a < pow2 b -> (a < b)%Z.
Proof. intros H. apply (Qpower_lt_compat_l_inv (2 # 1)); [exact H|reflexivity]. Qed.

Lemma pow2_le_inv a b : pow2 a <= pow2 b -> (a <= b)%Z.
Proof. intros H. apply (Qpower_le_compat_l_inv (2 # 1)); [exact H|reflexivity]. Qed.

(** Fractions of positive numbers compare as their terms do. *)
Lemma fraction_le a b n d : 0 <= a -> a <= n -> 0 < d -> d <= b -> a / b <= n / d.
Proof.
  intros Ha Han Hd Hdb.
  apply Qle_shift_div_l; [exact Hd|].
  setoid_replace (a / b * d) with (a * d / b) by (field; lra).
  apply Qle_shift_div_r; [lra|].
  nra.
Qed.

Lemma fraction_lt a b n d : 0 <= n -> n < a -> 0 < b -> b <= d -> n / d < a / b.
Proof.
  intros Hn Hna Hb Hbd.
  apply Qlt_shift_div_l; [exact Hb|].
  setoid_replace (n / d * b) with (n * b / d) by (field; lra).
  apply Qlt_shift_div_r; [lra|].
  nra.
Qed.

Section Log2.

Variable q : Q.
Hypothesis q_positive : 0 < q.

Let n := Qnum q.
Let d := Zpos (Qden q).

Lemma num_positive : (0 < n)%Z.
Proof. subst n. destruct q as [qn qd]. unfold Qlt in q_positive. simpl in *. lia. Qed.

Lemma as_fraction : q == inject_Z n / inject_Z d.
Proof. subst n d. destruct q as [qn qd]. simpl. apply Qmake_Qdiv. Qed.

Lemma num_bounds :
  pow2 (Z.log2 n) <= inject_Z n /\ inject_Z n < pow2 (Z.log2 n + 1).
Proof.
  pose proof num_positive as Hn.
  destruct (Z.log2_spec n Hn) as [Hlo Hhi].
  pose proof (Z.log2_nonneg n) as H0.
  rewrite !pow2_Z by lia. rewrite <- Zle_Qle, <- Zlt_Qlt.
  replace (Z.log2 n + 1)%Z with (Z.succ (Z.log2 n)) by lia. auto.
Qed.

Lemma den_bounds :
  pow2 (Z.log2 d) <= inject_Z d /\ inject_Z d < pow2 (Z.log2 d + 1).
Proof.
  assert (0 < d)%Z as Hd by (subst d; lia).
  destruct (Z.log2_spec d Hd) as [Hlo Hhi].
  pose proof (Z.log2_nonneg d) as H0.
  rewrite !pow2_Z by lia. rewrite <- Zle_Qle, <- Zlt_Qlt.
  replace (Z.log2 d + 1)%Z with (Z.succ (Z.log2 d)) by lia. auto.
Qed.

Lemma ilog2_lower : pow2 (ilog2 q) <= q.
Proof.
  unfold ilog2. fold n d.
  destruct (Qle_bool (pow2 (Z.log2 n - Z.log2 d)) q) eqn:E.
  - apply Qle_bool_iff. exact E.
  - replace (Z.log2 n - Z.log2 d - 1)%Z with (Z.log2 n - (Z.log2 d + 1))%Z by lia.
    rewrite pow2_minus, as_fraction.
    destruct num_bounds as [Hn _]. destruct den_bounds as [Hd1 Hd2].
    pose proof (pow2_pos (Z.log2 n)). pose proof (pow2_pos (Z.log2 d)).
    apply fraction_le; lra.
Qed.

Lemma ilog2_upper : q < pow2 (ilog2 q + 1).
Proof.
  unfold ilog2. fold n d.
  destruct (Qle_bool (pow2 (Z.log2 n - Z.log2 d)) q) eqn:E.
  - replace (Z.log2 n - Z.log2 d + 1)%Z with (Z.log2 n + 1 - Z.log2 d)%Z by lia.
    rewrite pow2_minus. rewrite as_fraction at 1.
    destruct num_bounds as [Hn1 Hn2]. destruct den_bounds as [Hd1 Hd2].
    pose proof (pow2_pos (Z.log2 n)). pose proof (pow2_pos (Z.log2 d)).
    apply fraction_lt; lra.
  - replace (Z.log2 n - Z.log2 d - 1 + 1)%Z with (Z.log2 n - Z.log2 d)%Z by lia.
    apply Qnot_le_lt. intros H. apply Qle_bool_iff in H. congruence.
Qed.

End Log2.

(** The rounding error of one operation, relative to the value, and
    the absolute error in the subnormal range. *)
Definition unit_roundoff : Q := pow2 (-53).

Definition subnormal_half : Q := pow2 (-1075).

Lemma negative_true q : negative q = true -> q < 0.
Proof. unfold negative. destruct (Qlt_le_dec q 0); [auto|discriminate]. Qed.

Lemma negative_false q : negative q = false -> 0 <= q.
Proof. unfold negative. destruct (Qlt_le_dec q 0); [discriminate|auto]. Qed.

(** The multiple of the last bit that is nearest to [|q|]. *)
Definition nearest (q : Q) : Q :=
  inject_Z (round_half_even (Qabs q / pow2 (last_bit q))) * pow2 (last_bit q).

Definition signed (q v : Q) : Q := if negative q then - v else v.

Lemma round64_cases q :
  ~ q == 0 ->
  round64 q = if Qle_bool (pow2 1024) (nearest q) then Infinity (negative q)
              else Finite (Qred (signed q (nearest q))).
Proof.
  intros Hq. unfold round64.
  destruct (Qeq_bool q 0) eqn:E; [apply Qeq_bool_iff in E; contradiction|].
  reflexivity.
Qed.

Lemma nearest_close q :
  ~ q == 0 ->
  Qabs (nearest q - Qabs q) <= Qabs q * unit_roundoff + subnormal_half.
Proof.
  intros Hq. unfold nearest.
  set (e := last_bit q). set (a := Qabs q).
  assert (0 < a) as Ha.
  { subst a. pose proof (Qabs_nonneg q) as H0.
    destruct (Qeq_dec (Qabs q) 0) as [Hz|Hz]; [|lra].
    exfalso. apply Hq. revert Hz. apply Qabs_case; intros; lra. }
  pose proof (pow2_pos e) as He.
  pose proof (round_half_even_close (a / pow2 e)) as Hc.
  set (m := inject_Z (round_half_even (a / pow2 e))) in *.
  assert (Qabs (m * pow2 e - a) <= pow2 e * (1 # 2)) as Hs.
  { assert (m * pow2 e - a == (m - a / pow2 e) * pow2 e) as -> by (field; lra).
    rewrite Qabs_Qmult, (Qabs_pos (pow2 e)) by lra.
    pose proof (Qabs_nonneg (m - a / pow2 e)). nra. }
  assert (pow2 e * (1 # 2) <= a * unit_roundoff + subnormal_half) as Hb.
  { pose proof (ilog2_lower a Ha) as Hl.
    pose proof (pow2_pos (-1075)) as Ht. pose proof (pow2_pos (-53)) as Hu.
    unfold unit_roundoff, subnormal_half.
    assert (1 # 2 == pow2 (-1)) as -> by reflexivity.
    rewrite <- pow2_plus. subst e. unfold last_bit. fold a.
    destruct (Z.max_spec (ilog2 a - 52) (-1074)) as [[_ ->]|[_ ->]].
    - change (-1074 + -1)%Z with (-1075)%Z. nra.
    - replace (ilog2 a - 52 + -1)%Z with (ilog2 a + -53)%Z by lia.
      rewrite pow2_plus. nra. }
  lra.
Qed.

(** One rounding: below [2 ** 1023] the result is finite, and as close
    to the value as the 53 bits allow. *)
Lemma round64_close q :
  Qabs q <= pow2 1023 ->
  exists v, round64 q = Finite v
            /\ Qabs (v - q) <= Qabs q * unit_roundoff + subnormal_half.
Proof.
  intros Hb. destruct (Qeq_dec q 0) as [Hz|Hz].
  - exists 0. split.
    + unfold round64. apply Qeq_bool_iff in Hz. rewrite Hz. reflexivity.
    + pose proof (pow2_pos (-1075)). pose proof (pow2_pos (-53)).
      pose proof (Qabs_nonneg q). unfold unit_roundoff, subnormal_half.
      assert (Qabs (0 - q) == 0) as -> by (rewrite Hz; reflexivity). nra.
  - rewrite round64_cases by exact Hz.
    pose proof (nearest_close q Hz) as Hc.
    set (v := nearest q) in *.
    assert (unit_roundoff <= 1 # 2) as Hu by (vm_compute; discriminate).
    assert (subnormal_half <= 1) as Hs by (vm_compute; discriminate).
    assert (pow2 1023 * (3 # 2) + 1 < pow2 1024) as Hp by (vm_compute; reflexivity).
    pose proof (pow2_pos (-53)) as Hu0. fold unit_roundoff in Hu0.
    pose proof (Qabs_nonneg q) as Hq0.
    destruct (Qle_bool (pow2 1024) v) eqn:E.
    + apply Qle_bool_iff in E. exfalso.
      revert Hc. apply Qabs_case; intros; nra.
    + eexists. split; [reflexivity|]. rewrite Qred_correct. unfold signed.
      destruct (negative q) eqn:En.
      * apply negative_true in En. rewrite (Qabs_neg q) in Hc by lra.
        rewrite (Qabs_neg q) by lra. revert Hc.
        apply Qabs_case; intros; apply Qabs_case; intros; lra.
      * apply negative_false in En. rewrite (Qabs_pos q) in Hc by lra.
        rewrite (Qabs_pos q) by lra. exact Hc.
Qed.

(** The value of a finite float. *)
Definition value (x : pyfloat) : Q :=
  match x with
  | Finite q => q
  | _ => 0
  end.

(** An int that converts to a float without rounding. *)
Definition size_in_range (n : Z) : Prop := (Z.abs n <= 2 ^ 53)%Z.

(** ** Integers up to [2 ** 53] convert exactly *)

Lemma Qred_inject_Z n : Qred (inject_Z n) = inject_Z n.
Proof.
  unfold Qred, inject_Z.
  pose proof (Z.ggcd_gcd n 1) as Hg. pose proof (Z.ggcd_correct_divisors n 1) as Hd.
  destruct (Z.ggcd n 1) as [g [aa bb]]. simpl in Hg, Hd.
  rewrite Z.gcd_1_r in Hg. subst g. destruct Hd as [Ha Hb].
  assert (aa = n) as -> by lia. assert (bb = 1%Z) as -> by lia. reflexivity.
Qed.

Lemma round_half_even_int x k : x == inject_Z k -> round_half_even x = k.
Proof.
  intros H. unfold round_half_even.
  rewrite (Qfloor_comp _ _ H), Qfloor_Z.
  assert (x - inject_Z k < 1 # 2) as Hlt by lra.
  destruct (Qcompare_spec (x - inject_Z k) (1 # 2)) as [He|Hl|Hg]; [lra|reflexivity|lra].
Qed.

Lemma nearest_int k :
  (1 <= k <= 2 ^ 53)%Z -> nearest (inject_Z k) == inject_Z k.
Proof.
  intros [H1 H53]. unfold nearest, last_bit.
  assert (Qabs (inject_Z k) = inject_Z k) as ->.
  { unfold inject_Z, Qabs. rewrite Z.abs_eq by lia. reflexivity. }
  assert (0 < inject_Z k) as Hk by (unfold Qlt, inject_Z; simpl; lia).
  pose proof (ilog2_lower _ Hk) as Hlo. pose proof (ilog2_upper _ Hk) as Hhi.
  set (L := ilog2 (inject_Z k)) in *.
  assert (0 <= L)%Z as HL0.
  { assert (pow2 0 < pow2 (L + 1)) as Hp.
    { eapply Qle_lt_trans; [|exact Hhi]. change (pow2 0) with 1.
      rewrite Zle_Qle in H1. exact H1. }
    apply pow2_lt_inv in Hp. lia. }
  assert (L <= 53)%Z as HL53.
  { apply pow2_le_inv. eapply Qle_trans; [exact Hlo|].
    rewrite pow2_Z by lia. rewrite <- Zle_Qle. exact H53. }
  rewrite Z.max_l by lia.
  destruct (Z.eq_dec L 53) as [E|E].
  - assert (k = (2 ^ 53)%Z) as ->.
    { rewrite E, pow2_Z in Hlo by lia. rewrite <- Zle_Qle in Hlo. lia. }
    rewrite E. vm_compute. reflexivity.
  - assert (inject_Z k / pow2 (L - 52) == inject_Z (k * 2 ^ (52 - L))) as Hq.
    { rewrite inject_Z_mult, <- pow2_Z by lia.
      assert (pow2 (52 - L) == / pow2 (L - 52)) as ->.
      { replace (52 - L)%Z with (- (L - 52))%Z by lia. apply Qpower_opp. }
      reflexivity. }
    rewrite (round_half_even_int _ _ Hq), inject_Z_mult, <- pow2_Z by lia.
    rewrite <- Qmult_assoc, <- pow2_plus.
    replace (52 - L + (L - 52))%Z with 0%Z by lia. change (pow2 0) with 1. ring.
Qed.

Lemma float_of_int_exact n :
  (Z.abs n <= 2 ^ 53)%Z -> float_of_int n = Ok (Finite (inject_Z n)).
Proof.
  intros Hn. unfold float_of_int.
  destruct (Z.eq_dec n 0) as [->|Hnz]; [reflexivity|].
  assert (~ inject_Z n == 0) as Hq.
  { unfold Qeq, inject_Z. simpl. lia. }
  rewrite round64_cases by exact Hq.
  assert (nearest (inject_Z n) == inject_Z (Z.abs n)) as Hv.
  { destruct (Z.abs_spec n) as [[H0 E]|[H0 E]].
    - rewrite E. rewrite E in Hn. apply nearest_int. lia.
    - assert (nearest (inject_Z n) = nearest (inject_Z (Z.abs n))) as ->.
      { unfold nearest, last_bit.
        assert (Qabs (inject_Z n) = Qabs (inject_Z (Z.abs n))) as ->
          by (unfold Qabs, inject_Z; rewrite Z.abs_idemp; reflexivity).
        reflexivity. }
      apply nearest_int. lia. }
  assert (inject_Z (Z.abs n) <= inject_Z (2 ^ 53)) as Hle by (rewrite <- Zle_Qle; exact Hn).
  assert (inject_Z (2 ^ 53) < pow2 1024) as Hbig by (vm_compute; reflexivity).
  destruct (Qle_bool (pow2 1024) (nearest (inject_Z n))) eqn:E.
  { apply Qle_bool_iff in E. rewrite Hv in E. lra. }
  f_equal. f_equal. rewrite <- (Qred_inject_Z n) at 3. apply Qred_complete.
  unfold signed.
  destruct (negative (inject_Z n)) eqn:En; rewrite Hv.
  - apply negative_true in En. unfold Qlt, inject_Z in En. simpl in En.
    rewrite Z.abs_neq by lia. rewrite inject_Z_opp. ring.
  - apply negative_false in En. unfold Qle, inject_Z in En. simpl in En.
    rewrite Z.abs_eq by lia. reflexivity.
Qed.

(** ** The operations on finite values *)

Lemma is_zero_inject n : n <> 0%Z -> is_zero (Finite (inject_Z n)) = false.
Proof.
  intros H. unfold is_zero. destruct (Qeq_bool (inject_Z n) 0) eqn:E; [|reflexivity].
  apply Qeq_bool_iff in E. unfold Qeq, inject_Z in E. simpl in E. lia.
Qed.

Lemma fmul_finite x n :
  size_in_range n ->
  fmul (Finite x) n = Ok (round64 (x * inject_Z n)).
Proof. intros H. unfold fmul. rewrite float_of_int_exact by exact H. reflexivity. Qed.

Lemma fdiv_finite x n :
  size_in_range n -> n <> 0%Z ->
  fdiv (Finite x) n = Ok (round64 (x / inject_Z n)).
Proof.
  intros H Hn. unfold fdiv. rewrite float_of_int_exact by exact H.
  cbn [bind]. rewrite is_zero_inject by exact Hn. reflexivity.
Qed.

Lemma float_finite s q : Py.float s = Ok (Finite q) -> float s = Ok (round64 q).
Proof. intros H. unfold float. rewrite H. reflexivity. Qed.

(** ** Values known from Python *)

(** [0.1]; [float(2**53 + 1)] and [float(2**53 + 3)], two ties;
    [float(2**1024)]; [float('1e400')] and [float('1e-400')];
    [int(29 / 100 * 100)]. *)
Example rounding_samples :
  round64 (1 # 10) = Finite (3602879701896397 # 36028797018963968)
  /\ float_of_int (2 ^ 53 + 1) = Ok (Finite (inject_Z (2 ^ 53)))
  /\ float_of_int (2 ^ 53 + 3) = Ok (Finite (inject_Z (2 ^ 53 + 4)))
  /\ float_of_int (2 ^ 1024) = Raise OverflowError
  /\ float (T "1e400") = Ok (Infinity false)
  /\ float (T "1e-400") = Ok (Finite 0)
  /\ VlmUtils64.rescale (Finite 29) 100 100 = Ok 28%Z.
Proof. vm_compute. repeat split. Qed.

End Binary64Facts.

(* ================================================================= *)
(** * The tag occurrences of a text and their geometry kind *)
(* ================================================================= *)

Module OccurrenceScan.
Import Py Tags PyFacts TagFacts FindallFacts OccurrenceFacts ConversationFormat LoaderFacts.

(** A tag begins the text: [<p>], a label without [<], [</p>[], a
    bracket content without []], and []]. *)
Definition tag_starts (s : text) : Prop :=
  exists it rest, valid_item it /\ s = part it ++ rest.

(** The tag occurrences of a text, read from left to right: where a tag
    begins it is taken whole and the reading goes on behind it; where
    none begins one character is passed over. *)
Inductive occurrences : text -> list (text * text) -> Prop :=
| occurrences_end : occurrences [] []
| occurrences_skip c s items :
    ~ tag_starts (c :: s) -> occurrences s items -> occurrences (c :: s) items
| occurrences_tag it rest items :
    valid_item it -> occurrences rest items ->
    occurrences (part it ++ rest) (it :: items).

(** What the loop of [_parse_gpt_annotations] adds for one occurrence. *)
Definition records_at (it : text * text) : list ConversationAnnotation :=
  keep (ConversationFormat64.parse_match (groups it)).

Definition record (it : text * text) (coords : list pyfloat) (kind : AnnotationType)
    : ConversationAnnotation :=
  {| label := strip (fst it); coordinates := coords; annotation_type := kind |}.

(** The count of the coordinates alone decides the kind of the record,
    or that there is none. *)
Definition kind_by_count (it : text * text) : Prop :=
  forall coords,
    ConversationFormat64.parse_coords (snd it) = Ok coords ->
    length coords <> 0
    /\ (length coords = 2 -> records_at it = [record it coords point])
    /\ (length coords = 4 -> records_at it = [record it coords bbox])
    /\ (6 <= length coords -> Nat.Even (length coords) ->
        records_at it = [record it coords polygon])
    /\ (length coords <> 2 -> length coords <> 4 ->
        ~ (6 <= length coords /\ Nat.Even (length coords)) ->
        Nat.Odd (length coords) /\ records_at it = []).

Lemma tag_at_item s l c rest :
  tag_at (other_than "]") s l c rest -> valid_item (l, c) /\ s = part (l, c) ++ rest.
Proof.
  intros [Hs Hl Hlc Hc Hcc]. split.
  - unfold valid_item. cbn [fst snd]. auto.
  - rewrite Hs. unfold part, tag. cbn [fst snd]. rewrite <- !app_assoc. reflexivity.
Qed.

Lemma item_tag_at it rest :
  valid_item it -> tag_at (other_than "]") (part it ++ rest) (fst it) (snd it) rest.
Proof.
  intros (Hl & Hlc & Hc & Hcc). constructor; auto.
  unfold part, tag. rewrite <- !app_assoc. reflexivity.
Qed.

Lemma no_match_no_tag s :
  match_at annotation_pattern s = None -> ~ tag_starts s.
Proof.
  intros Hm (it & rest & Hit & ->).
  unfold annotation_pattern in Hm.
  rewrite (tag_match_complete true (other_than "]") _ (fst it) (snd it) rest eq_refl
             (item_tag_at it rest Hit)) in Hm.
  discriminate Hm.
Qed.

Lemma tag_start_unique it rest it' rest' :
  valid_item it -> valid_item it' -> part it ++ rest = part it' ++ rest' ->
  it = it' /\ rest = rest'.
Proof.
  intros Hv Hv' He.
  pose proof (tag_match_complete true (other_than "]") _ (fst it) (snd it) rest eq_refl
                (item_tag_at it rest Hv)) as H1.
  pose proof (tag_match_complete true (other_than "]") _ (fst it') (snd it') rest' eq_refl
                (item_tag_at it' rest' Hv')) as H2.
  rewrite He, H2 in H1. cbn [groups_of] in H1. injection H1 as Hl Hc Hr.
  split; [|auto]. destruct it, it'. cbn [fst snd] in *. congruence.
Qed.

Lemma part_head it rest : exists tl, part it ++ rest = "<"%char :: tl.
Proof. destruct it as [l c]. eexists. unfold part, tag. cbn. reflexivity. Qed.

(** A text has one reading. *)
Lemma occurrences_unique s items :
  occurrences s items -> forall items', occurrences s items' -> items' = items.
Proof.
  induction 1 as [|c s items Hn Ho IH|it rest items Hv Ho IH]; intros items' H'.
  - remember [] as s eqn:Es.
    destruct H' as [|c' s' its' Hn' Ho'|it' rest' its' Hv' Ho'];
      [reflexivity|discriminate Es|].
    exfalso. destruct (part_head it' rest') as [tl Htl]. congruence.
  - remember (c :: s) as t eqn:Et.
    destruct H' as [|c' s' its' Hn' Ho'|it' rest' its' Hv' Ho'].
    + discriminate Et.
    + injection Et as -> ->. apply IH. exact Ho'.
    + exfalso. apply Hn. exists it', rest'. auto.
  - remember (part it ++ rest) as s eqn:Es.
    destruct H' as [|c' s' its' Hn' Ho'|it' rest' its' Hv' Ho'].
    + exfalso. destruct (part_head it rest) as [tl Htl]. congruence.
    + exfalso. apply Hn'. exists it, rest. auto.
    + destruct (tag_start_unique it' rest' it rest Hv' Hv Es) as [-> ->].
      f_equal. apply IH. exact Ho'.
Qed.

(** The scan of [findall] reads the occurrences. *)
Lemma findall_fuel_occurrences : forall fuel s,
  length s < fuel ->
  exists items,
    occurrences s items /\ findall_fuel fuel annotation_pattern s = map groups items.
Proof.
  induction fuel as [|fuel IH]; intros s Hlen; [lia|].
  rewrite findall_fuel_S.
  destruct (match_at annotation_pattern s) as [[caps rest]|] eqn:Em.
  - pose proof (tag_match_progress _ _ _ _ _ Em) as Hp.
    apply tag_match_sound in Em as (l & c & Ht & ->).
    apply tag_at_item in Ht as [Hv ->].
    destruct (IH rest) as (items & Ho & Hf); [lia|].
    exists ((l, c) :: items). split; [constructor; assumption|].
    cbn [map]. rewrite Hf. reflexivity.
  - destruct s as [|a tl].
    + exists []. split; [constructor|reflexivity].
    + destruct (IH tl) as (items & Ho & Hf); [cbn [length] in Hlen; lia|].
      exists items. split; [|exact Hf].
      constructor; [apply no_match_no_tag; exact Em|exact Ho].
Qed.

Lemma parse_coords_nonempty coord_str coords :
  ConversationFormat64.parse_coords coord_str = Ok coords -> length coords <> 0.
Proof.
  unfold ConversationFormat64.parse_coords. intros H. apply mapM_length in H. rewrite H.
  pose proof (split_nonempty "," coord_str) as Hn.
  destruct (split "," coord_str); simpl; congruence.
Qed.

Lemma item_kind_by_count it : kind_by_count it.
Proof.
  intros coords Hp. pose proof (parse_coords_nonempty _ _ Hp) as Hn.
  unfold records_at, groups, ConversationFormat64.parse_match, record. rewrite Hp.
  split; [exact Hn|]. split; [|split; [|split]].
  - intros ->. reflexivity.
  - intros ->. reflexivity.
  - intros H6 He.
    destruct (length coords =? 2) eqn:E2; [apply Nat.eqb_eq in E2; lia|].
    destruct (length coords =? 4) eqn:E4; [apply Nat.eqb_eq in E4; lia|].
    apply Nat.leb_le in H6. rewrite H6.
    destruct He as [k Hk].
    replace (length coords mod 2 =? 0) with true; [reflexivity|].
    symmetry. apply Nat.eqb_eq. rewrite Hk, Nat.mul_comm. apply Nat.Div0.mod_mul.
  - intros H2 H4 H6.
    apply Nat.eqb_neq in H2. apply Nat.eqb_neq in H4. rewrite H2, H4.
    destruct (Nat.Even_or_Odd (length coords)) as [He|Ho].
    + assert (length coords < 6) as Hlt by (destruct (le_lt_dec 6 (length coords)); tauto).
      destruct He as [k Hk]. apply Nat.eqb_neq in H2, H4. exfalso. lia.
    + split; [exact Ho|].
      destruct Ho as [k Hk].
      replace (length coords mod 2 =? 0) with false;
        [rewrite andb_false_r; reflexivity|].
      symmetry. apply Nat.eqb_neq. rewrite Hk.
      rewrite Nat.add_comm, Nat.mul_comm, Nat.Div0.mod_add. discriminate.
Qed.

(** C2. Every text has its tag occurrences, read from left to right
    in one way only, and [_parse_gpt_annotations] returns, in this
    order, what each occurrence gives.  For an occurrence whose
    comma-separated tokens all parse, to [coords], this depends on
    [len(coords)] alone: with 2 coordinates a point record, with 4 a bbox
    record, with an even count of at least 6 a polygon record, each with
    the stripped label and these coordinates; with any other count
    (which is odd, the count never being 0) no record. *)
Theorem geometry_kind_from_count (text : text) :
  exists items,
    occurrences text items
    /\ (forall others, occurrences text others -> others = items)
    /\ ConversationFormat64._parse_gpt_annotations text = flat_map records_at items
    /\ Forall kind_by_count items.
Proof.
  destruct (findall_fuel_occurrences (S (length text)) text) as (items & Ho & Hf); [lia|].
  exists items. split; [exact Ho|]. split; [apply occurrences_unique; exact Ho|]. split.
  - unfold ConversationFormat64._parse_gpt_annotations, findall. rewrite Hf.
    rewrite flat_map_concat_map, map_map, <- flat_map_concat_map. reflexivity.
  - apply Forall_forall. intros it _. apply item_kind_by_count.
Qed.

(** A tag after a stray [<], with a second tag of three coordinates:
    the first gives a bbox record, the second none. *)
Example stray_bracket_then_tags :
  ConversationFormat64._parse_gpt_annotations
    (T "if a < b then <p>car</p>[0.1,0.2,0.4,0.6] or <p>cat</p>[1,2,3]")
  = [ {| label := T "car";
         coordinates := [Finite (3602879701896397 # 36028797018963968);
                         Finite (3602879701896397 # 18014398509481984);
                         Finite (3602879701896397 # 9007199254740992);
                         Finite (5404319552844595 # 9007199254740992)];
         annotation_type := bbox |} ].
Proof. vm_compute. reflexivity. Qed.

End OccurrenceScan.

(* ================================================================= *)
(** * Scaling from model-input space, in binary64 *)
(* ================================================================= *)

Module PixelScaling.
Import Py Binary64 VlmUtils VlmUtils64 ScalingFacts Binary64Facts.

(** [x / input_size * size] as binary64 computes it: the quotient is
    rounded, then the product. *)
Definition scaled (x : Q) (input_size size : Z) : Q :=
  value (round64 (value (round64 (x / inject_Z input_size)) * inject_Z size)).

(** [int(x / input_size * size)] *)
Definition rescaled (x : Q) (input_size size : Z) : Z := trunc (scaled x input_size size).

(** The scaling of the specification, without rounding. *)
Definition exact (x : Q) (input_size size : Z) : Q :=
  (x * (inject_Z size / inject_Z input_size))%Q.

(** The computed value is the exact one up to two roundings. *)
Definition near (x : Q) (input_size size : Z) : Prop :=
  (Qabs (scaled x input_size size - exact x input_size size)
   <= Qabs (exact x input_size size) * pow2 (-51) + pow2 (-1020))%Q.

Definition finite_box (x1 y1 x2 y2 : Q) (label : text) : BboxDetection :=
  {| bbox := [Finite x1; Finite y1; Finite x2; Finite y2]; label := label;
     confidence := None; description := None |}.

(** The specified scaling: the corners of the shape are the exactly
    scaled coordinates, smaller one first. *)
Definition exactly_scaled (x1 y1 x2 y2 : Q) (model_h model_w image_h image_w : Z) : Prop :=
  exists shape px1 py1 px2 py2,
    convert_detection (finite_box x1 y1 x2 y2 []) (image_h, image_w)
                      (Some (model_h, model_w)) false = Ok shape
    /\ rect_points shape = [(px1, py1); (px2, py2)]
    /\ (inject_Z px1 == Qmin (exact x1 model_w image_w) (exact x2 model_w image_w))%Q
    /\ (inject_Z py1 == Qmin (exact y1 model_h image_h) (exact y2 model_h image_h))%Q
    /\ (inject_Z px2 == Qmax (exact x1 model_w image_w) (exact x2 model_w image_w))%Q
    /\ (inject_Z py2 == Qmax (exact y1 model_h image_h) (exact y2 model_h image_h))%Q.

(** C7, as stated, fails for two reasons.  The scaled coordinates are
    passed through [int], so a box from (1,1) to (3,3) in a 2x2 model
    space lands on (0,0)-(1,1) in a 1x1 image, not on (1/2,1/2)-(3/2,3/2).
    And the quotient is rounded before the product is taken: with a
    model and an image both 448 wide the coordinate 61 becomes 60, since
    [61 / 448 * 448] is just below 61 in binary64. *)
Lemma scaling_rounds_and_truncates :
  ~ exactly_scaled 1 1 3 3 2 2 1 1
  /\ ~ exactly_scaled 61 61 61 61 448 448 448 448
  /\ rescale (Finite 61) 448 448 = Ok 60%Z.
Proof.
  split; [|split].
  - intros (shape & px1 & py1 & px2 & py2 & H & Hp & Hx1 & _).
    vm_compute in H. injection H as <-. simpl in Hp. injection Hp as <- _ _ _.
    vm_compute in Hx1. discriminate.
  - intros (shape & px1 & py1 & px2 & py2 & H & Hp & Hx1 & _).
    vm_compute in H. injection H as <-. simpl in Hp. injection Hp as <- _ _ _.
    vm_compute in Hx1. discriminate.
  - vm_compute. reflexivity.
Qed.

(** ** One coordinate *)

Definition coordinate_in_range (x : Q) : Prop := (Qabs x <= pow2 960)%Q.

Section ScaledCoordinate.
Local Open Scope Q_scope.

Variable x : Q.
Variables input_size size : Z.
Hypothesis x_range : coordinate_in_range x.
Hypothesis input_range : size_in_range input_size.
Hypothesis input_nonzero : input_size <> 0%Z.
Hypothesis size_range : size_in_range size.

Let m := inject_Z input_size.
Let w := inject_Z size.

Lemma input_magnitude : 1 <= Qabs m.
Proof.
  subst m. unfold Qabs, inject_Z, Qle. simpl. lia.
Qed.

Lemma size_magnitude : Qabs w <= pow2 53.
Proof.
  subst w. rewrite pow2_Z by lia. unfold size_in_range in size_range.
  unfold Qabs, inject_Z, Qle. simpl. lia.
Qed.

Lemma quotient_magnitude : Qabs (x / m) <= Qabs x.
Proof.
  pose proof input_magnitude as Hm.
  assert (~ m == 0) as Hnz by (intros E; rewrite E in Hm; vm_compute in Hm; auto).
  unfold Qdiv. rewrite Qabs_Qmult, Qabs_Qinv.
  pose proof (Qabs_nonneg x) as Hx.
  apply Qle_shift_div_r; [lra|]. nra.
Qed.

Lemma quotient_rounded :
  exists v, round64 (x / m) = Finite v
            /\ Qabs (v - x / m) <= Qabs (x / m) * unit_roundoff + subnormal_half.
Proof.
  apply round64_close. eapply Qle_trans; [apply quotient_magnitude|].
  eapply Qle_trans; [exact x_range|]. apply pow2_le. lia.
Qed.

Lemma scaled_twice :
  exists v s,
    round64 (x / m) = Finite v /\ round64 (v * w) = Finite s
    /\ Qabs (s - exact x input_size size)
       <= Qabs (exact x input_size size) * pow2 (-51) + pow2 (-1020).
Proof.
  destruct quotient_rounded as (v & Hv & Hcv).
  pose proof quotient_magnitude as Hq. pose proof size_magnitude as Hw.
  pose proof (Qabs_nonneg (x / m)) as Hq0. pose proof (Qabs_nonneg w) as Hw0.
  pose proof (Qabs_nonneg x) as Hx0.
  assert (unit_roundoff <= 1) as Hu1 by (vm_compute; discriminate).
  assert (0 < unit_roundoff) as Hu0 by apply pow2_pos.
  assert (0 < subnormal_half) as Ht0 by apply pow2_pos.
  assert (subnormal_half <= 1) as Ht1 by (vm_compute; discriminate).
  assert (Qabs v <= Qabs (x / m) * (1 + unit_roundoff) + subnormal_half) as Hva.
  { assert (Qabs v <= Qabs (v - x / m) + Qabs (x / m)) as Htri.
    { assert (v == (v - x / m) + x / m) as Hs by ring. rewrite Hs at 1.
      apply Qabs_triangle. }
    lra. }
  unfold coordinate_in_range in x_range.
  assert ((2 * pow2 960 + 1) * pow2 53 <= pow2 1023) as Hbig by (vm_compute; discriminate).
  assert (0 < pow2 960) as HB by apply pow2_pos.
  assert (0 < pow2 53) as HM by apply pow2_pos.
  assert (Qabs (v * w) <= pow2 1023) as Hvw.
  { rewrite Qabs_Qmult. pose proof (Qabs_nonneg v) as Hv0.
    eapply Qle_trans; [|exact Hbig].
    assert (Qabs v <= 2 * pow2 960 + 1) as Hvb by nra.
    generalize dependent (pow2 960). generalize dependent (pow2 53).
    generalize dependent (Qabs v). generalize dependent (Qabs w). intros. nra. }
  destruct (round64_close _ Hvw) as (s & Hs & Hcs).
  exists v, s. split; [exact Hv|]. split; [exact Hs|].
  assert (exact x input_size size == x / m * w) as He.
  { unfold exact. fold m w. pose proof input_magnitude as Hm.
    assert (~ m == 0) as Hnz by (intros E; rewrite E in Hm; vm_compute in Hm; auto).
    field. exact Hnz. }
  rewrite He.
  assert (Qabs (v * w - x / m * w) <= (Qabs (x / m) * unit_roundoff + subnormal_half) * Qabs w)
    as Hd.
  { assert (v * w - x / m * w == (v - x / m) * w) as -> by ring.
    rewrite Qabs_Qmult. pose proof (Qabs_nonneg (v - x / m)). nra. }
  rewrite Qabs_Qmult in Hcs. rewrite Qabs_Qmult.
  assert (unit_roundoff * (2 + unit_roundoff) <= pow2 (-51)) as Hrel
    by (vm_compute; discriminate).
  assert (subnormal_half * (1 + pow2 53 * (1 + unit_roundoff)) <= pow2 (-1020)) as Habs
    by (vm_compute; discriminate).
  set (E := Qabs (x / m) * Qabs w) in *.
  assert (0 <= E) as HE0 by (subst E; nra).
  assert (Qabs v * Qabs w <= E * (1 + unit_roundoff) + subnormal_half * Qabs w) as Hvw2.
  { subst E. pose proof (Qabs_nonneg v). nra. }
  assert (Qabs (s - x / m * w)
          <= E * (unit_roundoff * (2 + unit_roundoff))
             + subnormal_half * (1 + Qabs w * (1 + unit_roundoff))) as Htot.
  { assert (Qabs (s - x / m * w) <= Qabs (s - v * w) + Qabs (v * w - x / m * w)) as Htri.
    { assert (s - x / m * w == (s - v * w) + (v * w - x / m * w)) as -> by ring.
      apply Qabs_triangle. }
    assert (Qabs v * Qabs w * unit_roundoff
            <= (E * (1 + unit_roundoff) + subnormal_half * Qabs w) * unit_roundoff) as Hm.
    { generalize dependent (Qabs v * Qabs w).
      generalize dependent (E * (1 + unit_roundoff) + subnormal_half * Qabs w).
      generalize dependent unit_roundoff. intros. nra. }
    assert ((Qabs (x / m) * unit_roundoff + subnormal_half) * Qabs w
            == E * unit_roundoff + subnormal_half * Qabs w) as Hex
      by (subst E; ring).
    rewrite Hex in Hd.
    assert (E * (unit_roundoff * (2 + unit_roundoff))
              + subnormal_half * (1 + Qabs w * (1 + unit_roundoff))
            == (E * (1 + unit_roundoff) + subnormal_half * Qabs w) * unit_roundoff
               + subnormal_half + (E * unit_roundoff + subnormal_half * Qabs w)) as ->
      by ring.
    lra. }
  eapply Qle_trans; [exact Htot|].
  assert (E * (unit_roundoff * (2 + unit_roundoff)) <= E * pow2 (-51)) as H1.
  { generalize dependent (unit_roundoff * (2 + unit_roundoff)).
    generalize dependent (pow2 (-51)). intros. nra. }
  assert (Qabs w * (1 + unit_roundoff) <= pow2 53 * (1 + unit_roundoff)) as H2.
  { generalize dependent (pow2 53). generalize dependent (Qabs w).
    generalize dependent unit_roundoff. intros. nra. }
  assert (subnormal_half * (1 + Qabs w * (1 + unit_roundoff))
          <= subnormal_half * (1 + pow2 53 * (1 + unit_roundoff))) as H3.
  { generalize dependent (Qabs w * (1 + unit_roundoff)).
    generalize dependent (pow2 53 * (1 + unit_roundoff)).
    generalize dependent subnormal_half. intros. nra. }
  lra.
Qed.

Lemma rescale_in_range :
  rescale (Finite x) input_size size = Ok (rescaled x input_size size)
  /\ near x input_size size.
Proof.
  destruct scaled_twice as (v & s & Hv & Hs & Hc).
  unfold rescale, near, rescaled, scaled. fold m w.
  rewrite fdiv_finite by assumption. fold m. rewrite Hv. cbn [bind].
  rewrite fmul_finite by assumption. fold w. cbn [bind value]. rewrite Hs.
  split; [reflexivity|exact Hc].
Qed.

End ScaledCoordinate.

(** ** The shapes *)

Definition box_in_range (d : BboxDetection) : Prop :=
  exists x1 y1 x2 y2,
    bbox d = [Finite x1; Finite y1; Finite x2; Finite y2]
    /\ coordinate_in_range x1 /\ coordinate_in_range y1
    /\ coordinate_in_range x2 /\ coordinate_in_range y2.

(** The shape that follows from a detection in model-input space. *)
Definition rescaled_shape (image_h image_w model_h model_w : Z)
    (d : BboxDetection) (shape : RectangleShape) : Prop :=
  exists x1 y1 x2 y2,
    bbox d = [Finite x1; Finite y1; Finite x2; Finite y2]
    /\ rect_label shape = label d
    /\ rect_shape_type shape = T "rectangle"
    /\ rect_points shape
       = [(Z.min (rescaled x1 model_w image_w) (rescaled x2 model_w image_w),
           Z.min (rescaled y1 model_h image_h) (rescaled y2 model_h image_h));
          (Z.max (rescaled x1 model_w image_w) (rescaled x2 model_w image_w),
           Z.max (rescaled y1 model_h image_h) (rescaled y2 model_h image_h))]
    /\ near x1 model_w image_w /\ near y1 model_h image_h
    /\ near x2 model_w image_w /\ near y2 model_h image_h.

Lemma detection_rescaled image_h image_w model_h model_w d :
  size_in_range model_h -> size_in_range model_w ->
  size_in_range image_h -> size_in_range image_w ->
  model_h <> 0%Z -> model_w <> 0%Z -> box_in_range d ->
  exists shape,
    convert_detection d (image_h, image_w) (Some (model_h, model_w)) false = Ok shape
    /\ rescaled_shape image_h image_w model_h model_w d shape.
Proof.
  intros Rmh Rmw Rih Riw Hh Hw (x1 & y1 & x2 & y2 & Hb & R1 & R2 & R3 & R4).
  destruct (rescale_in_range x1 model_w image_w R1 Rmw Hw Riw) as [E1 N1].
  destruct (rescale_in_range y1 model_h image_h R2 Rmh Hh Rih) as [E2 N2].
  destruct (rescale_in_range x2 model_w image_w R3 Rmw Hw Riw) as [E3 N3].
  destruct (rescale_in_range y2 model_h image_h R4 Rmh Hh Rih) as [E4 N4].
  unfold convert_detection. rewrite Hb, E1, E2, E3, E4. cbn [bind].
  rewrite !ordered_pair.
  eexists. split; [reflexivity|].
  exists x1, y1, x2, y2. cbn [rect_label rect_shape_type rect_points]. auto 10.
Qed.

(** C7, amended. For detections in model-input space whose coordinates
    are finite and at most [2 ** 960] in magnitude, with model and image
    sizes of at most [2 ** 53] in magnitude and a model input of non-zero
    size, the conversion returns one rectangle for each detection.  Each
    corner coordinate of the rectangle is [int(x / model * image)] as
    binary64 computes it: the quotient is rounded to the nearest float,
    then the product, and the result is truncated toward zero.  The
    value before truncation differs from [x * image / model] by at most
    that value times [2 ** -51] plus [2 ** -1020], so the corner may lie
    one below the truncated exact product.  Per axis the smaller
    truncated value goes to the first point and the larger to the
    second, whatever the order in the input. *)
Theorem model_space_boxes_rounded_truncated_ordered
    (detections : list BboxDetection) (image_h image_w model_h model_w : Z) :
  size_in_range model_h -> size_in_range model_w ->
  size_in_range image_h -> size_in_range image_w ->
  model_h <> 0%Z -> model_w <> 0%Z -> Forall box_in_range detections ->
  exists shapes,
    convert_detections_to_labelme_shapes detections (image_h, image_w)
                                         (Some (model_h, model_w)) false = Ok shapes
    /\ Forall2 (rescaled_shape image_h image_w model_h model_w) detections shapes.
Proof.
  intros Rmh Rmw Rih Riw Hh Hw. unfold convert_detections_to_labelme_shapes.
  induction 1 as [|d ds Hd Hds (shapes & Hs & Hf)].
  - exists []. split; [reflexivity|constructor].
  - destruct (detection_rescaled image_h image_w _ _ d Rmh Rmw Rih Riw Hh Hw Hd)
      as (shape & Hc & Hr).
    exists (shape :: shapes). cbn [mapM]. rewrite Hc, Hs. split; [reflexivity|].
    constructor; assumption.
Qed.

Definition reversed_box : BboxDetection := finite_box 61 5 10 25 (T "dog").

Lemma model_space_boxes_rounded_truncated_ordered_witness :
  exists shapes,
    convert_detections_to_labelme_shapes [reversed_box] (100, 448)%Z
                                         (Some (50, 448)%Z) false = Ok shapes
    /\ Forall2 (rescaled_shape 100 448 50 448) [reversed_box] shapes.
Proof.
  apply (model_space_boxes_rounded_truncated_ordered [reversed_box] 100 448 50 448).
  - vm_compute. discriminate.
  - vm_compute. discriminate.
  - vm_compute. discriminate.
  - vm_compute. discriminate.
  - discriminate.
  - discriminate.
  - constructor; [|constructor]. exists 61%Q, 5%Q, 10%Q, 25%Q.
    split; [reflexivity|]. repeat split; vm_compute; discriminate.
Defined.

End PixelScaling.

(* ================================================================= *)
(** * The round trip through the text, in binary64 *)
(* ================================================================= *)

Module RoundTrip64.
Import Py Tags PyFacts TagFacts FindallFacts OccurrenceFacts ConversationFormat LoaderFacts
  NumberFacts RoundTripFacts Binary64 Binary64Facts.

(** ** One coordinate *)

(** [x * size / size] as binary64 computes it: the product is rounded,
    then the quotient. *)
Definition renormalized (x : Q) (size : Z) : Q :=
  value (round64 (value (round64 (x * inject_Z size)) / inject_Z size)).

(** The float read back from [f"{z:.3f}"]. *)
Definition reread (z : Q) : pyfloat := round64 (parsed_back z).

(** The largest magnitude of a coordinate for which the tolerance holds. *)
Definition coordinate_bound : Q := inject_Z (10 ^ 12).

Lemma parsed_back_half q : (Qabs (parsed_back q - q) <= 1 # 2000)%Q.
Proof.
  unfold parsed_back.
  set (n := round_half_even (Qabs q * 1000)%Q).
  assert (0 <= n)%Z as Hn.
  { apply round_half_even_nonneg.
    pose proof (Qabs_nonneg q). nra. }
  pose proof (round_half_even_close (Qabs q * 1000)%Q) as Hc. fold n in Hc.
  assert (digits_value [(n / 100 mod 10)%Z; (n / 10 mod 10)%Z; (n mod 10)%Z]
          = (n mod 1000)%Z) as ->.
  { unfold digits_value. cbn [fold_left].
    pose proof (Z.div_mod n 1000). pose proof (Z.div_mod n 100).
    pose proof (Z.div_mod n 10). pose proof (Z.div_mod (n / 10) 10).
    pose proof (Z.div_mod (n / 100) 10).
    pose proof (Z.mod_pos_bound n 1000). pose proof (Z.mod_pos_bound n 10).
    pose proof (Z.mod_pos_bound (n / 10) 10). pose proof (Z.mod_pos_bound (n / 100) 10).
    assert (n / 100 = n / 10 / 10)%Z by (rewrite Z.div_div by lia; reflexivity).
    assert (n / 1000 = n / 100 / 10)%Z by (rewrite Z.div_div by lia; reflexivity).
    lia. }
  change (10 ^ Z.of_nat 3)%Z with 1000%Z.
  assert ((inject_Z (n / 1000) + inject_Z (n mod 1000) / inject_Z 1000) * 1000
          == inject_Z n)%Q as Hv.
  { rewrite (Z.div_mod n 1000) at 3 by lia.
    rewrite inject_Z_plus, inject_Z_mult. change (inject_Z 1000) with 1000%Q. field. }
  set (v := (inject_Z (n / 1000) + inject_Z (n mod 1000) / inject_Z 1000)%Q) in *.
  clearbody v.
  destruct (Qlt_le_dec q 0) as [Hneg|Hpos].
  - rewrite (Qabs_neg q) in Hc by lra.
    revert Hc. apply Qabs_case; intros; apply Qabs_case; intros; lra.
  - rewrite (Qabs_pos q) in Hc by lra.
    revert Hc. apply Qabs_case; intros; apply Qabs_case; intros; lra.
Qed.

Section PrintedCoordinate.
Local Open Scope Q_scope.

Variable x : Q.
Variable size : Z.
Hypothesis x_bounded : Qabs x <= coordinate_bound.
Hypothesis size_exact : size_in_range size.
Hypothesis size_nonzero : size <> 0%Z.

Let w := inject_Z size.

Lemma size_at_least_one : 1 <= Qabs w.
Proof. subst w. unfold Qabs, inject_Z, Qle. simpl. lia. Qed.

Lemma size_at_most : Qabs w <= pow2 53.
Proof.
  subst w. rewrite pow2_Z by lia. unfold size_in_range in size_exact.
  unfold Qabs, inject_Z, Qle. simpl. lia.
Qed.

Lemma size_not_zero : ~ w == 0.
Proof.
  pose proof size_at_least_one as H. intros E. rewrite E in H. vm_compute in H. auto.
Qed.

(** The error of the product followed by the quotient. *)
Definition renormalized_error : Q :=
  coordinate_bound * (unit_roundoff * (2 + unit_roundoff))
  + subnormal_half * (2 + unit_roundoff).

Lemma renormalized_near :
  exists p,
    fmul (Finite x) size = Ok (Finite p)
    /\ fdiv (Finite p) size = Ok (Finite (renormalized x size))
    /\ Qabs (renormalized x size - x) <= renormalized_error.
Proof.
  pose proof size_at_least_one as Hw1. pose proof size_at_most as Hw53.
  pose proof size_not_zero as Hwz.
  pose proof (Qabs_nonneg x) as Hx0.
  assert (0 < unit_roundoff) as Hu0 by apply pow2_pos.
  assert (unit_roundoff <= 1) as Hu1 by (vm_compute; discriminate).
  assert (0 < subnormal_half) as Ht0 by apply pow2_pos.
  assert (subnormal_half <= 1) as Ht1 by (vm_compute; discriminate).
  assert (0 < coordinate_bound) as HB0 by reflexivity.
  assert (coordinate_bound * pow2 53 <= pow2 1023) as Hbig1 by (vm_compute; discriminate).
  assert (coordinate_bound * 2 + 1 <= pow2 1023) as Hbig2 by (vm_compute; discriminate).
  assert (0 < pow2 53) as HM by apply pow2_pos.
  (* the product *)
  assert (Qabs (x * w) <= pow2 1023) as Hxw.
  { rewrite Qabs_Qmult. eapply Qle_trans; [|exact Hbig1].
    generalize dependent (pow2 53). generalize dependent coordinate_bound.
    generalize dependent (Qabs w). generalize dependent (Qabs x). intros. nra. }
  destruct (round64_close _ Hxw) as (p & Hp & Hcp).
  rewrite Qabs_Qmult in Hcp.
  (* the quotient *)
  assert (Qabs (p / w - x) <= Qabs x * unit_roundoff + subnormal_half) as Hq.
  { assert (p / w - x == (p - x * w) / w) as -> by (field; exact Hwz).
    unfold Qdiv. rewrite Qabs_Qmult, Qabs_Qinv.
    apply Qle_shift_div_r; [lra|].
    eapply Qle_trans; [exact Hcp|].
    generalize dependent (Qabs w). generalize dependent (Qabs x).
    generalize dependent unit_roundoff. generalize dependent subnormal_half.
    intros. nra. }
  assert (Qabs (p / w) <= Qabs x * (1 + unit_roundoff) + subnormal_half) as Hqa.
  { assert (Qabs (p / w) <= Qabs (p / w - x) + Qabs x) as Htri.
    { assert (p / w == (p / w - x) + x) as Hs by ring. rewrite Hs at 1.
      apply Qabs_triangle. }
    lra. }
  assert (Qabs x * unit_roundoff <= coordinate_bound * unit_roundoff) as Hxu.
  { generalize dependent coordinate_bound. generalize dependent (Qabs x).
    generalize dependent unit_roundoff. intros. nra. }
  assert (coordinate_bound * unit_roundoff <= coordinate_bound) as HBu.
  { generalize dependent coordinate_bound. generalize dependent unit_roundoff.
    intros. nra. }
  assert (Qabs (p / w) <= pow2 1023) as Hpw by lra.
  destruct (round64_close _ Hpw) as (z & Hz & Hcz).
  exists p. unfold renormalized. fold w.
  rewrite fmul_finite by assumption. fold w. rewrite Hp. cbn [value].
  rewrite fdiv_finite by assumption. fold w. rewrite Hz. cbn [value].
  split; [reflexivity|]. split; [reflexivity|].
  assert (Qabs (z - x) <= Qabs (z - p / w) + Qabs (p / w - x)) as Htri.
  { assert (z - x == (z - p / w) + (p / w - x)) as -> by ring. apply Qabs_triangle. }
  assert (Qabs (p / w) * unit_roundoff
          <= (Qabs x * (1 + unit_roundoff) + subnormal_half) * unit_roundoff) as Hm.
  { generalize dependent (Qabs (p / w)).
    generalize dependent (Qabs x * (1 + unit_roundoff) + subnormal_half).
    generalize dependent unit_roundoff. intros. nra. }
  assert (Qabs x * (unit_roundoff * (2 + unit_roundoff))
          <= coordinate_bound * (unit_roundoff * (2 + unit_roundoff))) as Hk.
  { assert (0 <= unit_roundoff * (2 + unit_roundoff)) as Hk0 by nra.
    generalize dependent (unit_roundoff * (2 + unit_roundoff)).
    generalize dependent coordinate_bound. generalize dependent (Qabs x). intros. nra. }
  unfold renormalized_error.
  assert (Qabs (z - x)
          <= Qabs x * (unit_roundoff * (2 + unit_roundoff))
             + subnormal_half * (2 + unit_roundoff)) as Htot.
  { assert (Qabs x * (unit_roundoff * (2 + unit_roundoff))
              + subnormal_half * (2 + unit_roundoff)
            == (Qabs x * (1 + unit_roundoff) + subnormal_half) * unit_roundoff
               + subnormal_half + (Qabs x * unit_roundoff + subnormal_half)) as -> by ring.
    lra. }
  lra.
Qed.

(** The error of reading the printed value back. *)
Definition reread_error : Q :=
  (1 # 2000)
  + (coordinate_bound + renormalized_error + (1 # 2000)) * unit_roundoff + subnormal_half.

Lemma reread_close z :
  Qabs (z - x) <= renormalized_error ->
  exists x', reread z = Finite x' /\ Qabs (x' - z) <= reread_error.
Proof.
  intros Hz. pose proof (parsed_back_half z) as Hd.
  assert (0 < unit_roundoff) as Hu0 by apply pow2_pos.
  assert (coordinate_bound + renormalized_error + (1 # 2000) <= pow2 1023) as Hbig
    by (vm_compute; discriminate).
  assert (Qabs (parsed_back z) <= coordinate_bound + renormalized_error + (1 # 2000)) as Hda.
  { assert (Qabs (parsed_back z) <= Qabs (parsed_back z - z) + Qabs (z - x) + Qabs x) as Htri.
    { assert (parsed_back z == (parsed_back z - z) + ((z - x) + x)) as Hs by ring.
      rewrite Hs at 1.
      eapply Qle_trans; [apply Qabs_triangle|].
      pose proof (Qabs_triangle (z - x) x). lra. }
    lra. }
  destruct (round64_close (parsed_back z)) as (x' & Hx' & Hc); [lra|].
  exists x'. split; [exact Hx'|].
  assert (Qabs (x' - z) <= Qabs (x' - parsed_back z) + Qabs (parsed_back z - z)) as Htri.
  { assert (x' - z == (x' - parsed_back z) + (parsed_back z - z)) as -> by ring.
    apply Qabs_triangle. }
  assert (Qabs (parsed_back z) * unit_roundoff
          <= (coordinate_bound + renormalized_error + (1 # 2000)) * unit_roundoff) as Hm.
  { generalize dependent (Qabs (parsed_back z)).
    generalize dependent (coordinate_bound + renormalized_error + (1 # 2000)).
    generalize dependent unit_roundoff. intros. nra. }
  unfold reread_error. lra.
Qed.

(** Both coordinates are finite and differ by at most 0.001. *)
Lemma coordinate_round_trip :
  exists p,
    fmul (Finite x) size = Ok (Finite p)
    /\ fdiv (Finite p) size = Ok (Finite (renormalized x size))
    /\ close (Finite x) (reread (renormalized x size)).
Proof.
  destruct renormalized_near as (p & Hm & Hd & Hc).
  exists p. split; [exact Hm|]. split; [exact Hd|].
  destruct (reread_close _ Hc) as (x' & Hx' & Hc').
  rewrite Hx'. unfold close.
  assert (renormalized_error + reread_error <= 1 # 1000) as Hsum
    by (vm_compute; discriminate).
  assert (Qabs (x' - x) <= Qabs (x' - renormalized x size) + Qabs (renormalized x size - x))
    as Htri.
  { assert (x' - x == (x' - renormalized x size) + (renormalized x size - x)) as -> by ring.
    apply Qabs_triangle. }
  lra.
Qed.

End PrintedCoordinate.

(** ** Reading back a list of printed floats *)

Lemma float_of_format q :
  Binary64.float (strip (format_3f (Finite q))) = Ok (reread q).
Proof. apply float_finite, float_format. Qed.

Lemma parse_coords_of_formatted qs :
  qs <> [] ->
  ConversationFormat64.parse_coords (join (T ",") (map formatted qs)) = Ok (map reread qs).
Proof.
  intros Hne. unfold ConversationFormat64.parse_coords. rewrite split_join.
  - apply mapM_map. intros q. apply float_of_format.
  - destruct qs; [congruence|discriminate].
  - apply Forall_map. apply Forall_forall. intros q _. apply formatted_comma_free.
Qed.

(** ** From records to shapes and back to text *)

(** The shape list built from the records: a record whose conversion
    fails is left out. *)
Definition shapes_of (records : list ConversationAnnotation)
    (img_width img_height : Z) : list Shape :=
  flat_map (fun r => keep (ConversationFormat64._convert_annotation_to_shape
                             r img_width img_height)) records.

(** What the exporter divides back: [x * W / W] and [y * H / H] in turn. *)
Fixpoint renormalized_all (img_width img_height : Z) (qs : list Q) : list Q :=
  match qs with
  | x :: y :: tl =>
      renormalized x img_width :: renormalized y img_height
      :: renormalized_all img_width img_height tl
  | _ => []
  end.

Definition within_bound (qs : list Q) : Prop :=
  Forall (fun q => (Qabs q <= coordinate_bound)%Q) qs.

Section SizedImage.

Variables img_width img_height : Z.
Hypothesis width_exact : size_in_range img_width.
Hypothesis width_nonzero : img_width <> 0%Z.
Hypothesis height_exact : size_in_range img_height.
Hypothesis height_nonzero : img_height <> 0%Z.

Lemma renormalized_all_length qs :
  Nat.Even (length qs) ->
  length (renormalized_all img_width img_height qs) = length qs.
Proof.
  induction qs as [| x | x y tl IH _] using list_ind2; intros He.
  - reflexivity.
  - destruct He as [k Hk]. simpl in Hk. lia.
  - cbn [renormalized_all length]. rewrite IH; [reflexivity|].
    cbn [length] in He. apply -> Nat.Even_succ_succ in He. exact He.
Qed.

Lemma renormalized_all_nonempty qs :
  qs <> [] -> Nat.Even (length qs) -> renormalized_all img_width img_height qs <> [].
Proof.
  intros Hne He Hnil. pose proof (renormalized_all_length qs He) as Hl.
  rewrite Hnil in Hl. destruct qs; [congruence|discriminate].
Qed.

Lemma polygon_round_trip qs :
  Nat.Even (length qs) -> within_bound qs ->
  exists pts,
    ConversationFormat64.polygon_points (map Finite qs) img_width img_height = Ok pts
    /\ ConversationFormat64.polygon_coords pts img_width img_height
       = Ok (map formatted (renormalized_all img_width img_height qs)).
Proof.
  induction qs as [| x | x y tl IH _] using list_ind2; intros He Hb.
  - exists []. split; reflexivity.
  - destruct He as [k Hk]. simpl in Hk. lia.
  - cbn [length] in He. apply -> Nat.Even_succ_succ in He.
    inversion Hb as [|? ? Hx Hb1]; subst. inversion Hb1 as [|? ? Hy Hb2]; subst.
    destruct (IH He Hb2) as (pts & Hp & Hc).
    destruct (coordinate_round_trip x img_width Hx width_exact width_nonzero)
      as (px & Hmx & Hdx & _).
    destruct (coordinate_round_trip y img_height Hy height_exact height_nonzero)
      as (py & Hmy & Hdy & _).
    exists ((Finite px, Finite py) :: pts).
    cbn [map ConversationFormat64.polygon_points]. rewrite Hmx, Hmy. cbn [bind].
    rewrite Hp. split; [reflexivity|].
    cbn [ConversationFormat64.polygon_coords fst snd]. rewrite Hdx, Hdy. cbn [bind].
    rewrite Hc. reflexivity.
Qed.

Lemma reread_all_close qs :
  Nat.Even (length qs) -> within_bound qs ->
  Forall2 close (map Finite qs) (map reread (renormalized_all img_width img_height qs)).
Proof.
  induction qs as [| x | x y tl IH _] using list_ind2; intros He Hb.
  - constructor.
  - destruct He as [k Hk]. simpl in Hk. lia.
  - cbn [length] in He. apply -> Nat.Even_succ_succ in He.
    inversion Hb as [|? ? Hx Hb1]; subst. inversion Hb1 as [|? ? Hy Hb2]; subst.
    destruct (coordinate_round_trip x img_width Hx width_exact width_nonzero)
      as (px & _ & _ & Hcx).
    destruct (coordinate_round_trip y img_height Hy height_exact height_nonzero)
      as (py & _ & _ & Hcy).
    cbn [map renormalized_all]. constructor; [exact Hcx|].
    constructor; [exact Hcy|]. apply IH; assumption.
Qed.

(** The text rendered for one record. *)
Definition rendered (r : ConversationAnnotation) (qs : list Q) : text * text :=
  (label r, join (T ",") (map formatted (renormalized_all img_width img_height qs))).

Lemma record_rendered r qs :
  coordinates r = map Finite qs -> within_bound qs ->
  kind_of_count (length qs) = Some (annotation_type r) ->
  exists shape,
    ConversationFormat64._convert_annotation_to_shape r img_width img_height = Some shape
    /\ ConversationFormat64.format_shape shape img_width img_height
       = Ok (Some (part (rendered r qs)))
    /\ qs <> [] /\ Nat.Even (length qs).
Proof.
  intros Hc Hb Hk.
  unfold ConversationFormat64._convert_annotation_to_shape,
    ConversationFormat64.convert_points. rewrite Hc.
  unfold kind_of_count in Hk.
  destruct qs as [|x [|y [|x2 [|y2 [|a [|b tl]]]]]]; try discriminate Hk.
  - injection Hk as <-.
    inversion Hb as [|? ? Hx Hb1]; subst. inversion Hb1 as [|? ? Hy _]; subst.
    destruct (coordinate_round_trip x img_width Hx width_exact width_nonzero)
      as (px & Hmx & Hdx & _).
    destruct (coordinate_round_trip y img_height Hy height_exact height_nonzero)
      as (py & Hmy & Hdy & _).
    cbn [map item nth_error bind]. rewrite Hmx. cbn [bind]. rewrite Hmy. cbn [bind].
    eexists. split; [reflexivity|]. split; [|split; [discriminate|exists 1; reflexivity]].
    unfold ConversationFormat64.format_shape. cbn [shape_type points shape_label].
    replace (text_eqb (T "point") (T "point")) with true by reflexivity.
    cbn [item nth_error bind fst snd]. rewrite Hdx. cbn [bind]. rewrite Hdy. reflexivity.
  - injection Hk as <-.
    inversion Hb as [|? ? Hx Hb1]; subst. inversion Hb1 as [|? ? Hy Hb2]; subst.
    inversion Hb2 as [|? ? Hx2 Hb3]; subst. inversion Hb3 as [|? ? Hy2 _]; subst.
    destruct (coordinate_round_trip x img_width Hx width_exact width_nonzero)
      as (px & Hmx & Hdx & _).
    destruct (coordinate_round_trip y img_height Hy height_exact height_nonzero)
      as (py & Hmy & Hdy & _).
    destruct (coordinate_round_trip x2 img_width Hx2 width_exact width_nonzero)
      as (px2 & Hmx2 & Hdx2 & _).
    destruct (coordinate_round_trip y2 img_height Hy2 height_exact height_nonzero)
      as (py2 & Hmy2 & Hdy2 & _).
    cbn [map item nth_error bind]. rewrite Hmx. cbn [bind]. rewrite Hmy. cbn [bind].
    rewrite Hmx2. cbn [bind]. rewrite Hmy2. cbn [bind].
    eexists. split; [reflexivity|]. split; [|split; [discriminate|exists 2; reflexivity]].
    unfold ConversationFormat64.format_shape. cbn [shape_type points shape_label].
    replace (text_eqb (T "rectangle") (T "point")) with false by reflexivity.
    replace (text_eqb (T "rectangle") (T "rectangle")) with true by reflexivity.
    cbn [item nth_error bind fst snd]. rewrite Hdx. cbn [bind]. rewrite Hdy. cbn [bind].
    rewrite Hdx2. cbn [bind]. rewrite Hdy2. reflexivity.
  - set (qs := x :: y :: x2 :: y2 :: a :: b :: tl) in *.
    assert ((6 <=? length qs) = true) as H6 by reflexivity.
    destruct (length qs =? 2) eqn:E2; [discriminate E2|].
    destruct (length qs =? 4) eqn:E4; [discriminate E4|].
    rewrite H6 in Hk. cbn [andb] in Hk.
    destruct (length qs mod 2 =? 0) eqn:Ev; [|discriminate].
    injection Hk as <-.
    assert (Nat.Even (length qs)) as He.
    { apply Nat.eqb_eq in Ev. apply Nat.Lcm0.mod_divide in Ev.
      destruct Ev as [k Hk]. exists k. lia. }
    destruct (polygon_round_trip qs He Hb) as (pts & Hp & Hcs).
    rewrite Hp. cbn [bind]. eexists. split; [reflexivity|].
    split; [|split; [discriminate|exact He]].
    unfold ConversationFormat64.format_shape. cbn [shape_type points shape_label].
    replace (text_eqb (T "polygon") (T "point")) with false by reflexivity.
    replace (text_eqb (T "polygon") (T "rectangle")) with false by reflexivity.
    replace (text_eqb (T "polygon") (T "polygon")) with true by reflexivity.
    rewrite Hcs. reflexivity.
Qed.

(** The record read back from the text of [r]. *)
Definition read_back (r : ConversationAnnotation) (qs : list Q) : ConversationAnnotation :=
  {| label := label r;
     coordinates := map reread (renormalized_all img_width img_height qs);
     annotation_type := annotation_type r |}.

Lemma rendered_read_back r qs :
  qs <> [] -> Nat.Even (length qs) ->
  kind_of_count (length qs) = Some (annotation_type r) ->
  strip (label r) = label r ->
  ConversationFormat64.parse_match (groups (rendered r qs)) = Some (read_back r qs).
Proof.
  intros Hne He Hk Hs. unfold groups, rendered, ConversationFormat64.parse_match.
  cbn [fst snd].
  rewrite parse_coords_of_formatted by (apply renormalized_all_nonempty; assumption).
  rewrite length_map, renormalized_all_length by exact He.
  unfold kind_of_count in Hk. rewrite Hs. unfold read_back.
  destruct (length qs =? 2); [injection Hk as <-; reflexivity|].
  destruct (length qs =? 4); [injection Hk as <-; reflexivity|].
  destruct ((6 <=? length qs) && (length qs mod 2 =? 0)); [|discriminate].
  injection Hk as <-. reflexivity.
Qed.

Lemma rendered_is_valid r qs :
  qs <> [] -> Nat.Even (length qs) ->
  forallb (other_than "<") (label r) = true -> label r <> [] ->
  valid_item (rendered r qs).
Proof.
  intros Hne He Hl Hnl.
  destruct (coords_text_valid _ (renormalized_all_nonempty qs Hne He)) as [H1 H2].
  unfold valid_item, rendered. cbn [fst snd]. auto.
Qed.

End SizedImage.

(** ** The sentence *)

(** The sentence built around the parts holds exactly their tags. *)
Lemma sentence_holds_tags shapes img_width img_height items :
  items <> [] -> Forall valid_item items ->
  ConversationFormat64.format_parts shapes img_width img_height = Ok (map part items) ->
  exists text,
    ConversationFormat64._format_annotations_in_response shapes img_width img_height = Ok text
    /\ findall annotation_pattern text = map groups items.
Proof.
  intros Hne Hall Hparts. unfold ConversationFormat64._format_annotations_in_response.
  destruct shapes as [|shape shapes].
  { cbn [ConversationFormat64.format_parts] in Hparts. injection Hparts as Hnil.
    destruct items; [congruence|discriminate]. }
  rewrite Hparts. cbn [bind].
  destruct items as [|i0 [|i1 [|i2 more]]]; [congruence| | |].
  - eexists. split; [reflexivity|].
    rewrite findall_skip_plain by reflexivity.
    inversion Hall; subst. rewrite findall_part by assumption.
    rewrite findall_plain by reflexivity. reflexivity.
  - eexists. split; [reflexivity|].
    rewrite findall_skip_plain by reflexivity.
    replace (part i0 ++ T " and " ++ part i1 ++ T " in the image.")
      with (join (T " and ") (map part [i0; i1]) ++ T " in the image.")
      by (cbn [map join]; rewrite <- !app_assoc; reflexivity).
    rewrite findall_join by (reflexivity || assumption).
    rewrite findall_plain by reflexivity. apply app_nil_r.
  - destruct (exists_last (l := i0 :: i1 :: i2 :: more)) as (init & z & Heq);
      [discriminate|].
    cbn [map].
    change (part i0 :: part i1 :: part i2 :: map part more)
      with (map part (i0 :: i1 :: i2 :: more)).
    rewrite Heq in *. rewrite map_app. cbn [map].
    rewrite last_item, removelast_last. cbn [bind].
    eexists. split; [reflexivity|].
    apply Forall_app in Hall as [Hinit Hz]. inversion Hz; subst.
    rewrite findall_skip_plain by reflexivity.
    rewrite findall_join by (reflexivity || assumption).
    rewrite findall_skip_plain by reflexivity.
    rewrite findall_part by assumption.
    rewrite findall_plain by reflexivity.
    change (groups i0 :: groups i1 :: groups i2 :: map groups more)
      with (map groups (i0 :: i1 :: i2 :: more)).
    rewrite Heq, map_app. reflexivity.
Qed.

(** ** The round trip *)

(** Encoding the records for an image of the given size yields a text
    that parses back to as many records, with the same labels and
    coordinates within 0.001. *)
Definition round_trips (records : list ConversationAnnotation)
    (img_width img_height : Z) : Prop :=
  exists text,
    ConversationFormat64._format_annotations_in_response
      (shapes_of records img_width img_height) img_width img_height = Ok text
    /\ Forall2 same_record records (ConversationFormat64._parse_gpt_annotations text).

(** A record whose coordinates are finite and at most [10 ** 12] in
    magnitude. *)
Definition moderate (r : ConversationAnnotation) : Prop :=
  exists qs, coordinates r = map Finite qs /\ within_bound qs.

Section RoundedTrip.

Variables img_width img_height : Z.
Hypothesis width_exact : size_in_range img_width.
Hypothesis width_nonzero : img_width <> 0%Z.
Hypothesis height_exact : size_in_range img_height.
Hypothesis height_nonzero : img_height <> 0%Z.

(** Each record becomes one part, and each part parses back to a record
    that is the same up to the tolerance. *)
Lemma records_rendered records :
  Forall (fun r => well_formed r /\ stable_label r /\ moderate r) records ->
  exists items,
    ConversationFormat64.format_parts (shapes_of records img_width img_height)
                                      img_width img_height
    = Ok (map part items)
    /\ length items = length records
    /\ Forall valid_item items
    /\ Forall2 same_record records
               (flat_map (fun g => keep (ConversationFormat64.parse_match g))
                         (map groups items)).
Proof.
  induction 1 as [|r records [(Hl & Hk & _) [(Hnl & Hs) (qs & Hc & Hb)]] Hrest
                   (items & Hparts & Hlen & Hvalid & Hsame)].
  - exists []. repeat split; constructor.
  - rewrite Hc, length_map in Hk.
    destruct (record_rendered img_width img_height width_exact width_nonzero
                height_exact height_nonzero r qs Hc Hb Hk)
      as (shape & Hconv & Hfmt & Hne & He).
    exists (rendered img_width img_height r qs :: items).
    unfold shapes_of in *. cbn [flat_map]. rewrite Hconv.
    cbn [keep app ConversationFormat64.format_parts].
    rewrite Hfmt, Hparts. cbn [bind keep app map length].
    split; [reflexivity|]. split; [congruence|]. split.
    + constructor; [apply rendered_is_valid; assumption|exact Hvalid].
    + cbn [flat_map]. rewrite (rendered_read_back _ _ r qs Hne He Hk Hs). cbn [keep app].
      constructor; [|exact Hsame].
      split; [reflexivity|]. cbn [read_back coordinates]. rewrite Hc.
      apply reread_all_close; assumption.
Qed.

(** C1, amended. Take records with a non-empty label that holds no [<]
    and no whitespace at either end, with finite coordinates of at most
    [10 ** 12] in magnitude and the geometry kind of their count (2, 4 or
    an even count of at least 6), and an image whose width and height are
    not zero and at most [2 ** 53] in magnitude.  With the products and
    quotients rounded as binary64 rounds them, the text produced by
    [_format_annotations_in_response] from the shapes of these records
    parses with [_parse_gpt_annotations] to the same number of records,
    with the same labels and every coordinate within 0.001 of the
    original. *)
Theorem encode_parse_round_trip (records : list ConversationAnnotation) :
  Forall (fun r => well_formed r /\ stable_label r /\ moderate r) records ->
  round_trips records img_width img_height.
Proof.
  intros Hall. destruct (records_rendered records Hall)
    as (items & Hparts & Hlen & Hvalid & Hsame).
  unfold round_trips.
  destruct records as [|r records].
  - exists (T "I don't see any specific objects to detect in this image.").
    split; [reflexivity|]. vm_compute. constructor.
  - assert (items <> []) as Hne by (destruct items; [discriminate Hlen|discriminate]).
    destruct (sentence_holds_tags _ _ _ items Hne Hvalid Hparts) as (text & Henc & Hfind).
    exists text. split; [exact Henc|].
    unfold ConversationFormat64._parse_gpt_annotations. rewrite Hfind. exact Hsame.
Qed.

End RoundedTrip.

Definition padded_record : ConversationAnnotation :=
  {| label := T " car"; coordinates := [Finite (1 # 2); Finite (1 # 4)];
     annotation_type := point |}.

Definition unnamed_record : ConversationAnnotation :=
  {| label := []; coordinates := [Finite (1 # 2); Finite (1 # 4)];
     annotation_type := point |}.

(** The float [9934612128746.734]. *)
Definition distant_record : ConversationAnnotation :=
  {| label := T "car"; coordinates := [Finite (635815176239791 # 64); Finite (1 # 4)];
     annotation_type := point |}.

(** C1, as stated, fails on labels the parser does not give back: a
    label with a leading space comes back trimmed, and a record with an
    empty label is not found again at all.  It also fails on a large
    coordinate: in an image 480 wide the float [9934612128746.734] is
    printed as [9934612128746.732], since the product by 480 and the
    quotient are rounded, and is read back 0.002 off. *)
Lemma round_trip_loses_labels_and_digits :
  (well_formed padded_record /\ ~ round_trips [padded_record] 100 100)
  /\ (well_formed unnamed_record /\ ~ round_trips [unnamed_record] 100 100)
  /\ (well_formed distant_record /\ stable_label distant_record
      /\ ~ round_trips [distant_record] 480 480).
Proof.
  split; [|split]; split.
  - split; [reflexivity|]. split; [reflexivity|].
    exists [(1 # 2)%Q; (1 # 4)%Q]. reflexivity.
  - intros (text & Henc & Hsame). vm_compute in Henc. injection Henc as <-.
    vm_compute in Hsame. inversion Hsame as [|? ? ? ? [Hl _] _]. discriminate Hl.
  - split; [reflexivity|]. split; [reflexivity|].
    exists [(1 # 2)%Q; (1 # 4)%Q]. reflexivity.
  - intros (text & Henc & Hsame). vm_compute in Henc. injection Henc as <-.
    vm_compute in Hsame. inversion Hsame.
  - split; [reflexivity|]. split; [reflexivity|].
    exists [(635815176239791 # 64)%Q; (1 # 4)%Q]. reflexivity.
  - split; [split; [discriminate|reflexivity]|].
    intros (text & Henc & Hsame). vm_compute in Henc. injection Henc as <-.
    vm_compute in Hsame. inversion Hsame as [|? ? ? ? [_ Hc] _].
    inversion Hc as [|? ? ? ? Hx _]. apply Hx. reflexivity.
Qed.

Definition sample_records : list ConversationAnnotation :=
  [ {| label := T "ship";
       coordinates := [Finite (38 # 100); Finite (12 # 100); Finite (42 # 100); Finite (4 # 100)];
       annotation_type := bbox |};
    {| label := T "buoy"; coordinates := [Finite (1 # 3); Finite (2 # 3)];
       annotation_type := point |} ].

Lemma encode_parse_round_trip_witness : round_trips sample_records 640 480.
Proof.
  apply (encode_parse_round_trip 640 480).
  - vm_compute. discriminate.
  - discriminate.
  - vm_compute. discriminate.
  - discriminate.
  - constructor; [|constructor; [|constructor]].
    + split; [split; [reflexivity|split; [reflexivity|]]|split; [split; [discriminate|reflexivity]|]].
      * exists [(38 # 100)%Q; (12 # 100)%Q; (42 # 100)%Q; (4 # 100)%Q]. reflexivity.
      * exists [(38 # 100)%Q; (12 # 100)%Q; (42 # 100)%Q; (4 # 100)%Q].
        split; [reflexivity|]. repeat constructor; vm_compute; discriminate.
    + split; [split; [reflexivity|split; [reflexivity|]]|split; [split; [discriminate|reflexivity]|]].
      * exists [(1 # 3)%Q; (2 # 3)%Q]. reflexivity.
      * exists [(1 # 3)%Q; (2 # 3)%Q].
        split; [reflexivity|]. repeat constructor; vm_compute; discriminate.
Defined.

End RoundTrip64.

(* ================================================================= *)
(** * Invariants of the parsed records *)
(* ================================================================= *)

Module StripFacts.
Import Py.

Lemma lstrip_head s :
  lstrip s = [] \/ exists a tl, lstrip s = a :: tl /\ is_space a = false.
Proof.
  induction s as [|c s IH]; [left; reflexivity|].
  simpl. destruct (is_space c) eqn:E; [exact IH|].
  right. exists c, s. auto.
Qed.

Lemma lstrip_fixed s :
  (s = [] \/ exists a tl, s = a :: tl /\ is_space a = false) -> lstrip s = s.
Proof.
  intros [->|(a & tl & -> & Ha)]; [reflexivity|]. simpl. rewrite Ha. reflexivity.
Qed.

Lemma lstrip_idempotent s : lstrip (lstrip s) = lstrip s.
Proof. apply lstrip_fixed, lstrip_head. Qed.

Lemma lstrip_keeps_last p x :
  is_space x = false -> exists q, lstrip (p ++ [x]) = q ++ [x].
Proof.
  intros Hx. induction p as [|c p IH].
  - exists []. simpl. rewrite Hx. reflexivity.
  - cbn [app lstrip]. destruct (is_space c); [exact IH|].
    exists (c :: p). reflexivity.
Qed.

Lemma rstrip_idempotent s : rstrip (rstrip s) = rstrip s.
Proof. unfold rstrip. rewrite rev_involutive, lstrip_idempotent. reflexivity. Qed.

Lemma rstrip_keeps_head s :
  (s = [] \/ exists a tl, s = a :: tl /\ is_space a = false) ->
  rstrip s = [] \/ exists a tl, rstrip s = a :: tl /\ is_space a = false.
Proof.
  intros [->|(a & tl & -> & Ha)]; [left; reflexivity|].
  right. unfold rstrip. cbn [rev].
  destruct (lstrip_keeps_last (rev tl) a Ha) as [q ->].
  rewrite rev_app_distr. cbn [rev app]. exists a, (rev q). auto.
Qed.

(** [s.strip().strip() == s.strip()] *)
Lemma strip_idempotent s : strip (strip s) = strip s.
Proof.
  unfold strip.
  rewrite (lstrip_fixed (rstrip (lstrip s))) by apply rstrip_keeps_head, lstrip_head.
  apply rstrip_idempotent.
Qed.

Lemma lstrip_Forall (P : ascii -> Prop) s : Forall P s -> Forall P (lstrip s).
Proof.
  induction 1 as [|c s Hc Hs IH]; [constructor|].
  simpl. destruct (is_space c); [exact IH|constructor; assumption].
Qed.

(** Stripping only removes characters. *)
Lemma strip_Forall (P : ascii -> Prop) s : Forall P s -> Forall P (strip s).
Proof.
  intros H. unfold strip, rstrip.
  apply Forall_rev, lstrip_Forall, Forall_rev, lstrip_Forall, H.
Qed.

Lemma strip_forallb (p : ascii -> bool) s :
  forallb p s = true -> forallb p (strip s) = true.
Proof.
  intros H. apply forallb_forall. apply Forall_forall.
  apply strip_Forall. apply Forall_forall. apply forallb_forall. exact H.
Qed.

Lemma lstrip_empty s : lstrip s = [] -> forallb is_space s = true.
Proof.
  induction s as [|c s IH]; [reflexivity|].
  cbn [lstrip forallb]. destruct (is_space c); [exact IH|discriminate].
Qed.

Lemma strip_empty s : strip s = [] -> forallb is_space s = true.
Proof.
  unfold strip, rstrip. intros H.
  assert (lstrip (rev (lstrip s)) = []) as H1.
  { destruct (lstrip (rev (lstrip s))) as [|a l]; [reflexivity|].
    cbn [rev] in H. destruct (rev l); discriminate H. }
  apply lstrip_empty in H1.
  destruct (lstrip_head s) as [E|(a & tl & E & Ha)]; [apply lstrip_empty; exact E|].
  rewrite E in H1. rewrite forallb_forall in H1.
  rewrite (H1 a) in Ha; [discriminate|]. apply in_rev. rewrite rev_involutive. left. reflexivity.
Qed.

End StripFacts.

Module ParserInvariants.
Import Py Tags PyFacts TagFacts FindallFacts OccurrenceFacts ConversationFormat LoaderFacts
  RoundTripFacts StripFacts.

(** Every match of a grouped tag pattern has two groups: a non-empty
    label without [<] and a non-empty run of the coordinate class. *)
Lemma findall_fuel_groups cls : forall fuel s gs,
  In gs (findall_fuel fuel (tag_pattern true cls) s) ->
  exists l c, gs = [l; c] /\ l <> [] /\ forallb (other_than "<") l = true
              /\ c <> [] /\ forallb cls c = true.
Proof.
  induction fuel as [|f IH]; intros s gs H; [contradiction|].
  rewrite findall_fuel_S in H.
  destruct (match_at (tag_pattern true cls) s) as [[caps rest]|] eqn:E.
  - destruct H as [<-|H]; [|eapply IH; exact H].
    apply tag_match_sound in E as (l & c & [_ Hl Hlc Hc Hcc] & ->).
    exists l, c. auto.
  - destruct s as [|a tl]; [contradiction|]. eapply IH; exact H.
Qed.

Lemma parse_match_kind l c r :
  parse_match [l; c] = Some r ->
  label r = strip l /\ kind_of_count (length (coordinates r)) = Some (annotation_type r).
Proof.
  unfold parse_match, kind_of_count.
  destruct (parse_coords c) as [coords|e]; [|discriminate].
  destruct (length coords =? 2) eqn:E2.
  { intros H. injection H as <-. cbn [label coordinates annotation_type].
    rewrite E2. auto. }
  destruct (length coords =? 4) eqn:E4.
  { intros H. injection H as <-. cbn [label coordinates annotation_type].
    rewrite E2, E4. auto. }
  destruct ((6 <=? length coords) && (length coords mod 2 =? 0)) eqn:E6; [|discriminate].
  intros H. injection H as <-. cbn [label coordinates annotation_type].
  rewrite E2, E4, E6. auto.
Qed.

Lemma parsed_record_facts (text : text) (r : ConversationAnnotation) :
  In r (_parse_gpt_annotations text) ->
  kind_of_count (length (coordinates r)) = Some (annotation_type r)
  /\ forallb (other_than "<") (label r) = true
  /\ strip (label r) = label r.
Proof.
  unfold _parse_gpt_annotations, findall, annotation_pattern. intros H.
  apply in_flat_map in H as (gs & Hgs & Hr).
  apply findall_fuel_groups in Hgs as (l & c & -> & Hl & Hlc & _).
  destruct (parse_match [l; c]) as [r'|] eqn:E; [|contradiction].
  destruct Hr as [<-|[]].
  apply parse_match_kind in E as [Hlabel Hkind].
  split; [exact Hkind|]. rewrite Hlabel. split.
  - apply strip_forallb. exact Hlc.
  - apply strip_idempotent.
Qed.

Lemma kind_of_count_cases n k :
  kind_of_count n = Some k ->
  (n = 2 /\ k = point) \/ (n = 4 /\ k = bbox)
  \/ (6 <= n /\ Nat.Even n /\ k = polygon).
Proof.
  unfold kind_of_count.
  destruct (n =? 2) eqn:E2.
  { intros H. injection H as <-. apply Nat.eqb_eq in E2. auto. }
  destruct (n =? 4) eqn:E4.
  { intros H. injection H as <-. apply Nat.eqb_eq in E4. auto. }
  destruct ((6 <=? n) && (n mod 2 =? 0)) eqn:E6; [|discriminate].
  intros H. injection H as <-. apply andb_true_iff in E6 as [H6 Hm].
  apply Nat.leb_le in H6. apply Nat.eqb_eq in Hm.
  right. right. split; [exact H6|]. split; [|reflexivity].
  apply Nat.Lcm0.mod_divide in Hm. destruct Hm as [m Hm]. exists m. lia.
Qed.

(** X1. Whatever the text, every record returned by
    [_parse_gpt_annotations] has 2, 4 or an even number of at least 6
    coordinates, the geometry kind that belongs to this count, and a
    label without [<] that [strip] leaves unchanged. *)
Theorem parsed_records_invariant (text : text) (r : ConversationAnnotation) :
  In r (_parse_gpt_annotations text) ->
  let n := length (coordinates r) in
  ((n = 2 /\ annotation_type r = point) \/ (n = 4 /\ annotation_type r = bbox)
   \/ (6 <= n /\ Nat.Even n /\ annotation_type r = polygon))
  /\ forallb (other_than "<") (label r) = true
  /\ strip (label r) = label r.
Proof.
  intros H. destruct (parsed_record_facts text r H) as (Hk & Hl & Hs).
  split; [apply kind_of_count_cases; exact Hk|]. split; assumption.
Qed.

Definition polygon_text : text :=
  T "I see <p> roof </p>[0.1,0.1,0.3,0.15,0.35,0.4] here.".

Lemma parsed_records_invariant_witness :
  ((6 = 2 /\ polygon = point) \/ (6 = 4 /\ polygon = bbox)
   \/ (6 <= 6 /\ Nat.Even 6 /\ polygon = polygon))
  /\ forallb (other_than "<") (T "roof") = true
  /\ strip (T "roof") = T "roof".
Proof.
  apply (parsed_records_invariant polygon_text
           {| label := T "roof";
              coordinates := [Finite (1 # 10); Finite (1 # 10); Finite (3 # 10);
                              Finite (15 # 100); Finite (35 # 100); Finite (4 # 10)];
              annotation_type := polygon |}).
  vm_compute. left. reflexivity.
Defined.

End ParserInvariants.

(* ================================================================= *)
(** * The shapes of a loaded file and the report of a conversation file *)
(* ================================================================= *)

Module ShapeLoading.
Import Py Tags PyFacts TagFacts FindallFacts OccurrenceFacts ConversationFormat LoaderFacts
  RoundTripFacts StripFacts ParserInvariants.











End ShapeLoading.

Module SeparationFacts.
Import Py Tags ConversationFormat LoaderFacts.

(** Consecutive (human, gpt) pairs whose gpt turn holds a record. *)
Inductive grounding_pairs : list Turn -> Prop :=
| grounding_nil : grounding_pairs []
| grounding_cons h g rest :
    is_pair h g = true -> grounded g = true -> grounding_pairs rest ->
    grounding_pairs (h :: g :: rest).

Lemma grounding_list_pairs turns : grounding_pairs (fst (pair_and_classify turns)).
Proof.
  induction turns as [| x | h g rest IH1 IH2] using list_ind2.
  - constructor.
  - constructor.
  - destruct (is_pair h g) eqn:Ep.
    + rewrite (classify_pair h g rest Ep). destruct (grounded g) eqn:Eg.
      * cbn [fst]. constructor; assumption.
      * exact IH1.
    + rewrite (classify_single h g rest Ep). exact IH2.
Qed.

Lemma grounding_pairs_fixed turns :
  grounding_pairs turns -> pair_and_classify turns = (turns, []).
Proof.
  induction 1 as [|h g rest Hp Hg Hrest IH]; [reflexivity|].
  rewrite (classify_pair h g rest Hp), Hg, IH. reflexivity.
Qed.

Lemma grounding_pairs_even turns :
  grounding_pairs turns -> Nat.Even (length turns).
Proof.
  induction 1 as [|h g rest Hp Hg Hrest [k Hk]]; [exists 0; reflexivity|].
  exists (S k). cbn [length]. lia.
Qed.

Lemma classify_lengths turns :
  length (fst (pair_and_classify turns)) + length (snd (pair_and_classify turns))
  = length turns.
Proof.
  induction turns as [| x | h g rest IH1 IH2] using list_ind2.
  - reflexivity.
  - reflexivity.
  - destruct (is_pair h g) eqn:Ep.
    + rewrite (classify_pair h g rest Ep).
      destruct (grounded g); cbn [fst snd length]; lia.
    + rewrite (classify_single h g rest Ep). cbn [fst snd length] in *. lia.
Qed.

Lemma grounding_list_bound turns :
  length (fst (pair_and_classify turns)) <= 2 * gpt_grounded turns.
Proof.
  unfold gpt_grounded.
  induction turns as [| x | h g rest IH1 IH2] using list_ind2.
  - cbn. lia.
  - cbn. lia.
  - destruct (is_pair h g) eqn:Ep.
    + rewrite (classify_pair h g rest Ep).
      destruct (human_not_gpt h g Ep) as [Hh Hgp].
      cbn [filter]. rewrite Hh, Hgp. cbn [andb].
      destruct (grounded g); cbn [fst length]; lia.
    + rewrite (classify_single h g rest Ep). cbn [fst].
      cbn [filter] in *. destruct (is_gpt h && grounded h); cbn [length] in *; lia.
Qed.

(** X4. The grounding list returned by [separate_conversation_types]
    consists of consecutive (human, gpt) pairs whose gpt turn holds at
    least one record, and separating it again returns it unchanged, with
    an empty text list. *)
Theorem grounding_list_stable (turns : list Turn) :
  grounding_pairs (fst (separate_conversation_types turns))
  /\ separate_conversation_types (fst (separate_conversation_types turns))
     = (fst (separate_conversation_types turns), []).
Proof.
  rewrite !separate_is_scan. split.
  - apply grounding_list_pairs.
  - apply grounding_pairs_fixed, grounding_list_pairs.
Qed.

(** The report of [analyze_conversation_file], from the conversation
    list of the file; the keys [filename] and [image], which are copied
    from the argument and the file, are left out. *)
Record Report := {
  report_total_conversations : nat;
  report_grounding_conversations : nat;
  report_pure_text_conversations : nat;
  report_total_annotations : nat;
  grounding_conversation_pairs : nat;
  text_conversation_pairs : nat;
  has_spatial_annotations : bool
}.

Definition analyze_report (conversations : list Turn) : Report :=
  let stats := analyze_conversations conversations in
  let (grounding_convs, text_convs) := separate_conversation_types conversations in
  {| report_total_conversations := total_conversations stats;
     report_grounding_conversations := grounding_conversations stats;
     report_pure_text_conversations := pure_text_conversations stats;
     report_total_annotations := total_annotations stats;
     grounding_conversation_pairs := length grounding_convs / 2;
     text_conversation_pairs := length text_convs / 2;
     has_spatial_annotations := 0 <? total_annotations stats |}.

Lemma grounded_has_records c : grounded c = true -> 1 <= length (records_of c).
Proof.
  unfold grounded. destruct (records_of c); [discriminate|]. cbn [length]. lia.
Qed.

Lemma records_bound turns :
  gpt_grounded turns <= gpt_records turns
  /\ (gpt_grounded turns = 0 -> gpt_records turns = 0)
  /\ gpt_grounded turns + gpt_plain turns = length (filter is_gpt turns).
Proof.
  unfold gpt_grounded, gpt_plain, gpt_records.
  induction turns as [|c tl (IH1 & IH2 & IH3)]; [cbn; lia|].
  cbn [filter map]. rewrite list_sum_cons.
  destruct (is_gpt c); cbn [andb]; [|cbn [length]; lia].
  destruct (grounded c) eqn:Eg; cbn [negb length].
  - apply grounded_has_records in Eg. lia.
  - rewrite (not_grounded_no_records c Eg). lia.
Qed.

(** X5. In the report of [analyze_conversation_file], for every conversation
    list: the two pair counts add up to half the number of turns (rounded
    down); the grounding and pure-text counts add up to the number of gpt
    turns; there are at least as many annotations as grounding
    conversations and at least as many grounding conversations as
    grounding pairs; and [has_spatial_annotations] holds exactly when the
    grounding count is positive. *)
Theorem report_counts (conversations : list Turn) :
  let r := analyze_report conversations in
  grounding_conversation_pairs r + text_conversation_pairs r
  = report_total_conversations r / 2
  /\ report_grounding_conversations r + report_pure_text_conversations r
     = length (filter is_gpt conversations)
  /\ grounding_conversation_pairs r <= report_grounding_conversations r
  /\ report_grounding_conversations r <= report_total_annotations r
  /\ (has_spatial_annotations r = true <-> 0 < report_grounding_conversations r).
Proof.
  unfold analyze_report.
  rewrite separate_is_scan, analyze_counts_gpt_turns.
  pose proof (classify_lengths conversations) as Hlen.
  pose proof (grounding_pairs_even _ (grounding_list_pairs conversations)) as [k Hk].
  pose proof (grounding_list_bound conversations) as Hb.
  destruct (records_bound conversations) as (Hr1 & Hr2 & Hr3).
  destruct (pair_and_classify conversations) as [gr tx].
  cbn [fst snd] in *.
  cbn [report_total_conversations report_grounding_conversations
       report_pure_text_conversations report_total_annotations
       grounding_conversation_pairs text_conversation_pairs has_spatial_annotations
       total_conversations grounding_conversations pure_text_conversations
       total_annotations].
  assert (length gr / 2 = k) as Hg.
  { rewrite Hk. rewrite Nat.mul_comm. apply Nat.div_mul. discriminate. }
  split.
  - rewrite <- Hlen, Hk, Nat.mul_comm.
    rewrite (Nat.add_comm (k * 2)), Nat.div_add by discriminate.
    rewrite Nat.div_mul by discriminate. lia.
  - split; [exact Hr3|]. split; [lia|]. split; [exact Hr1|].
    rewrite Nat.ltb_lt. lia.
Qed.

End SeparationFacts.

(* ================================================================= *)
(** * labelme/conversation_format.py : the prompt history *)
(* ================================================================= *)

Module PromptHistory.
Import Py Tags ConversationFormat.

(** [str.lower] on the code points below 256: the letters A-Z and the
    capital letters of Latin-1 move up by 32. *)
Definition lower_latin1 (c : ascii) : ascii :=
  let n := code c in
  if ((65 <=? n) && (n <=? 90))
     || ((192 <=? n) && (n <=? 222) && negb (n =? 215))
  then ascii_of_nat (n + 32) else c.

Definition str_lower (s : text) : text := map lower_latin1 s.

(** [any(phrase in prompt.lower() for phrase in phrases)] *)
Definition mentions (phrases : list text) (prompt : text) : bool :=
  existsb (fun phrase => contains phrase (str_lower prompt)) phrases.

(** An entry of [prompt_history]: a dict, a field being [None] when the
    key is absent.  [has_bbox] is ['bbox' in entry]; the value under
    that key is never read. *)
Record Entry := {
  prompt : option text;
  description : option text;
  type : option text;
  category : option text;
  detected_objects : option (list text);
  detection_count : option nat;
  has_bbox : bool
}.

(** The entry with the keys [detected_objects] and [detection_count]. *)
Definition detection_entry (prompt description entry_type : text)
    (annotations : list ConversationAnnotation) : Entry :=
  {| prompt := Some prompt; description := Some description;
     type := Some entry_type; category := Some (T "grounding");
     detected_objects := Some (map label annotations);
     detection_count := Some (length annotations);
     has_bbox := false |}.

(** The entry with the four keys [prompt], [description], [type] and
    [category]. *)
Definition plain_entry (prompt description entry_type category : text) : Entry :=
  {| prompt := Some prompt; description := Some description;
     type := Some entry_type; category := Some category;
     detected_objects := None; detection_count := None; has_bbox := false |}.

(** The body of the loop of [_reconstruct_prompt_history] for one
    (human, gpt) pair. *)
Definition history_entry (human_conv gpt_conv : Turn) : Entry :=
  let prompt := get (value human_conv) [] in
  let description := get (value gpt_conv) [] in
  let attribute := attribute human_conv in
  if get_eq attribute (T "Grounding") then
    let annotations := _parse_gpt_annotations description in
    if truthy annotations then
      let entry_type :=
        if mentions [T "detect and locate"; T "find and locate"] prompt
        then T "ai_labeling" else T "object_detection" in
      detection_entry prompt description entry_type annotations
    else plain_entry prompt description (T "grounding") (T "grounding")
  else if get_eq attribute (T "Region Captioning") then
    plain_entry prompt description (T "bbox_description") (T "grounding")
  else if get_eq attribute (T "Image Captioning") then
    plain_entry prompt description (T "text") (T "caption")
  else
    let annotations := _parse_gpt_annotations description in
    if truthy annotations then
      let entry_type :=
        if mentions [T "detect and locate"; T "find and locate"] prompt
        then T "ai_labeling"
        else if mentions [T "detect"; T "find"; T "locate"] prompt
        then T "object_detection"
        else T "grounding" in
      detection_entry prompt description entry_type annotations
    else
      let entry_type :=
        if mentions [T "describe"; T "what do you see"; T "what is in"] prompt
        then T "text" else T "text" in
      plain_entry prompt description entry_type (T "caption").

(** The [while i < len(conversations)] loop of
    [_reconstruct_prompt_history]; [fuel] bounds the iterations. *)
Fixpoint reconstruct_loop (fuel : nat) (conversations : list Turn) (i : nat)
    (prompt_history : list Entry) : list Entry :=
  match fuel with
  | O => prompt_history
  | S fuel' =>
      match nth_error conversations i with
      | None => prompt_history
      | Some human_conv =>
          match nth_error conversations (i + 1) with
          | Some gpt_conv =>
              if get_eq (from human_conv) (T "human")
                 && get_eq (from gpt_conv) (T "gpt") then
                reconstruct_loop fuel' conversations (i + 2)
                  (prompt_history ++ [history_entry human_conv gpt_conv])
              else reconstruct_loop fuel' conversations (i + 1) prompt_history
          | None => reconstruct_loop fuel' conversations (i + 1) prompt_history
          end
      end
  end.

Definition _reconstruct_prompt_history (conversations : list Turn) : list Entry :=
  reconstruct_loop (length conversations) conversations 0 [].

(** A turn with the three keys [from], [value] and [attribute]. *)
Definition attributed (speaker content attr : text) : Turn :=
  {| from := Some speaker; value := Some content; attribute := Some attr |}.

Definition exchange (prompt description attr : text) : list Turn :=
  [attributed (T "human") prompt attr; attributed (T "gpt") description attr].

(** The body of the loop of [_generate_ai_prompt_conversations]: the
    turns appended for one entry. *)
Definition ai_prompt_conversation (entry : Entry) : list Turn :=
  let prompt := get (prompt entry) [] in
  let description := get (description entry) [] in
  let entry_type := get (type entry) (T "text") in
  if negb (truthy prompt) || negb (truthy description) then []
  else if text_eqb entry_type (T "ai_labeling")
          || text_eqb entry_type (T "object_detection") then
    exchange prompt description (T "Grounding")
  else if text_eqb entry_type (T "bbox_description") then
    exchange prompt description (T "Region Captioning")
  else if text_eqb entry_type (T "text") then
    exchange prompt description (T "Image Captioning")
  else if has_bbox entry || truthy (get (detected_objects entry) []) then
    exchange prompt description (T "Grounding")
  else [].

Definition _generate_ai_prompt_conversations (prompt_history : list Entry)
    (img_width img_height : Z) : list Turn :=
  flat_map ai_prompt_conversation prompt_history.

End PromptHistory.

Module PromptHistoryFacts.
Import Py Tags ConversationFormat LoaderFacts PromptHistory.

(** The entries the scan of the specification gives: one for each pair. *)
Definition unit_entry (u : Unit) : list Entry :=
  match u with
  | Pair h g => [history_entry h g]
  | Single _ => []
  end.

Lemma units_skip_first h g rest :
  is_pair h g = false -> units (h :: g :: rest) = Single h :: units (g :: rest).
Proof. intros E. rewrite units_cons2, E. reflexivity. Qed.

Lemma units_take_pair h g rest :
  is_pair h g = true -> units (h :: g :: rest) = Pair h g :: units rest.
Proof. intros E. rewrite units_cons2, E. reflexivity. Qed.

(** The index loop of the source reads the scan of the suffix. *)
Lemma reconstruct_loop_scan : forall fuel conversations i acc,
  length conversations - i <= fuel ->
  reconstruct_loop fuel conversations i acc
  = acc ++ flat_map unit_entry (units (skipn i conversations)).
Proof.
  induction fuel as [|f IH]; intros convs i acc Hf.
  - cbn [reconstruct_loop]. rewrite skipn_all2 by lia. cbn. rewrite app_nil_r. reflexivity.
  - cbn [reconstruct_loop].
    destruct (nth_error convs i) as [h|] eqn:Ei.
    2:{ rewrite (nth_error_None_skipn _ _ Ei). cbn. rewrite app_nil_r. reflexivity. }
    assert (i < length convs) as Hi by (apply nth_error_Some; congruence).
    rewrite (nth_error_skipn _ _ _ Ei).
    replace (i + 1) with (S i) by lia. replace (i + 2) with (S (S i)) by lia.
    destruct (nth_error convs (S i)) as [g|] eqn:Eg.
    + rewrite (nth_error_skipn _ _ _ Eg).
      change (get_eq (from h) (T "human") && get_eq (from g) (T "gpt")) with (is_pair h g).
      destruct (is_pair h g) eqn:Ep.
      * rewrite (units_take_pair h g _ Ep). cbn [flat_map unit_entry].
        rewrite IH by lia. rewrite <- app_assoc. reflexivity.
      * rewrite (units_skip_first h g _ Ep). cbn [flat_map unit_entry app].
        rewrite IH by lia. rewrite (nth_error_skipn _ _ _ Eg). reflexivity.
    + rewrite (nth_error_None_skipn _ _ Eg). cbn [units flat_map unit_entry app].
      rewrite IH by lia. rewrite (nth_error_None_skipn _ _ Eg). reflexivity.
Qed.

Lemma reconstruct_is_scan conversations :
  _reconstruct_prompt_history conversations
  = flat_map unit_entry (units conversations).
Proof.
  unfold _reconstruct_prompt_history.
  rewrite reconstruct_loop_scan by lia. reflexivity.
Qed.

(** ** What an entry holds *)

Definition one_of (choices : list text) (field : option text) : Prop :=
  exists c, field = Some c /\ In c choices.

(** The keys of an entry as the loader writes them. *)
Definition loader_entry (e : Entry) : Prop :=
  prompt e <> None /\ description e <> None
  /\ one_of [T "ai_labeling"; T "object_detection"; T "grounding";
             T "bbox_description"; T "text"] (type e)
  /\ one_of [T "grounding"; T "caption"] (category e)
  /\ (category e = Some (T "caption") -> type e = Some (T "text"))
  /\ match detected_objects e, detection_count e with
     | Some objects, Some n =>
         n = length objects /\ 0 < n
         /\ objects = map label (_parse_gpt_annotations (get (description e) []))
         /\ category e = Some (T "grounding")
     | None, None => True
     | _, _ => False
     end.

Ltac literals :=
  repeat match goal with
         | |- context [text_eqb (T ?a) (T ?b)] =>
             let v := eval vm_compute in (text_eqb (T a) (T b)) in
             change (text_eqb (T a) (T b)) with v
         end.

Lemma truthy_length {A} (l : list A) : truthy l = true -> 0 < length l.
Proof. destruct l; [discriminate|]. cbn [length]. lia. Qed.

Lemma history_entry_keys h g : loader_entry (history_entry h g).
Proof.
  unfold loader_entry, history_entry, one_of.
  destruct (get_eq (attribute h) (T "Grounding")).
  { destruct (truthy (_parse_gpt_annotations (get (value g) []))) eqn:Et.
    - apply truthy_length in Et.
      destruct (mentions [T "detect and locate"; T "find and locate"] (get (value h) []));
        cbn [detection_entry prompt description type category detected_objects
             detection_count get];
        (split; [discriminate|]); (split; [discriminate|]);
        (split; [eexists; split; [reflexivity|]; cbn; tauto|]);
        (split; [eexists; split; [reflexivity|]; cbn; tauto|]);
        (split; [discriminate|]); rewrite length_map; auto.
    - cbn [plain_entry prompt description type category detected_objects detection_count].
      split; [discriminate|]. split; [discriminate|].
      split; [eexists; split; [reflexivity|]; cbn; tauto|].
      split; [eexists; split; [reflexivity|]; cbn; tauto|].
      split; [discriminate|exact I]. }
  destruct (get_eq (attribute h) (T "Region Captioning")).
  { cbn [plain_entry prompt description type category detected_objects detection_count].
    split; [discriminate|]. split; [discriminate|].
    split; [eexists; split; [reflexivity|]; cbn; tauto|].
    split; [eexists; split; [reflexivity|]; cbn; tauto|].
    split; [discriminate|exact I]. }
  destruct (get_eq (attribute h) (T "Image Captioning")).
  { cbn [plain_entry prompt description type category detected_objects detection_count].
    split; [discriminate|]. split; [discriminate|].
    split; [eexists; split; [reflexivity|]; cbn; tauto|].
    split; [eexists; split; [reflexivity|]; cbn; tauto|].
    split; [reflexivity|exact I]. }
  destruct (truthy (_parse_gpt_annotations (get (value g) []))) eqn:Et.
  - apply truthy_length in Et.
    destruct (mentions [T "detect and locate"; T "find and locate"] (get (value h) []));
      [|destruct (mentions [T "detect"; T "find"; T "locate"] (get (value h) []))];
      cbn [detection_entry prompt description type category detected_objects
           detection_count get];
      (split; [discriminate|]); (split; [discriminate|]);
      (split; [eexists; split; [reflexivity|]; cbn; tauto|]);
      (split; [eexists; split; [reflexivity|]; cbn; tauto|]);
      (split; [discriminate|]); rewrite length_map; auto.
  - destruct (mentions [T "describe"; T "what do you see"; T "what is in"]
                       (get (value h) []));
      cbn [plain_entry prompt description type category detected_objects detection_count];
      (split; [discriminate|]); (split; [discriminate|]);
      (split; [eexists; split; [reflexivity|]; cbn; tauto|]);
      (split; [eexists; split; [reflexivity|]; cbn; tauto|]);
      (split; [reflexivity|exact I]).
Qed.

(** X6. Every entry of the prompt history rebuilt by
    [_reconstruct_prompt_history] has the keys [prompt], [description],
    [type] and [category]; the type is one of the five entry types and the
    category is ['grounding'] or ['caption'], a caption entry being of type
    ['text']; the keys [detected_objects] and [detection_count] come
    together, on grounding entries only, and then the count is positive
    and equal to the number of objects, which are the labels of the records
    of the description. *)
Theorem history_entries_invariant (conversations : list Turn) :
  Forall loader_entry (_reconstruct_prompt_history conversations).
Proof.
  rewrite reconstruct_is_scan. apply Forall_flat_map, Forall_forall.
  intros [h g|x] _; cbn [unit_entry]; [|constructor].
  constructor; [apply history_entry_keys|constructor].
Qed.

(** ** The history and the separation *)

Definition is_category (c : text) (e : Entry) : bool := get_eq (category e) c.

Lemma unattributed_category h g :
  attribute h = None ->
  is_category (T "grounding") (history_entry h g) = grounded g
  /\ is_category (T "caption") (history_entry h g) = negb (grounded g).
Proof.
  intros Ha. unfold history_entry, is_category. rewrite Ha. cbn [get_eq].
  unfold grounded, records_of.
  destruct (truthy (_parse_gpt_annotations (get (value g) []))).
  - cbn [detection_entry category get_eq]. split; reflexivity.
  - destruct (mentions _ _); cbn [plain_entry category get_eq]; split; reflexivity.
Qed.

Lemma unattributed_scan turns :
  Forall (fun c => attribute c = None) turns ->
  2 * length (filter (is_category (T "grounding"))
                     (flat_map unit_entry (units turns)))
  = length (fst (pair_and_classify turns))
  /\ length (filter (is_category (T "caption")) (flat_map unit_entry (units turns)))
      + length (filter (is_category (T "grounding")) (flat_map unit_entry (units turns)))
     = length (flat_map unit_entry (units turns)).
Proof.
  induction turns as [| x | h g rest IH1 IH2] using list_ind2; intros Hall.
  - split; reflexivity.
  - split; reflexivity.
  - inversion Hall as [|? ? Hh Hrest]; subst. inversion Hrest as [|? ? Hg Hrest']; subst.
    destruct (is_pair h g) eqn:Ep.
    + rewrite (units_take_pair h g rest Ep), (classify_pair h g rest Ep).
      cbn [flat_map unit_entry app filter].
      destruct (unattributed_category h g Hh) as [-> ->].
      destruct (IH1 Hrest') as [IHa IHb].
      destruct (grounded g); cbn [negb fst length]; lia.
    + rewrite (units_skip_first h g rest Ep), (classify_single h g rest Ep).
      cbn [flat_map unit_entry app fst]. apply IH2. exact Hrest.
Qed.

(** X7. When no turn has an [attribute] key, the rebuilt prompt history
    agrees with [separate_conversation_types]: its entries of category
    ['grounding'] are as many as the pairs of the grounding list, and all
    other entries have the category ['caption']. *)
Theorem history_follows_separation (conversations : list Turn) :
  Forall (fun c => attribute c = None) conversations ->
  2 * length (filter (is_category (T "grounding"))
                     (_reconstruct_prompt_history conversations))
  = length (fst (separate_conversation_types conversations))
  /\ length (filter (is_category (T "caption"))
                    (_reconstruct_prompt_history conversations))
      + length (filter (is_category (T "grounding"))
                       (_reconstruct_prompt_history conversations))
     = length (_reconstruct_prompt_history conversations).
Proof.
  intros Hall. rewrite reconstruct_is_scan, separate_is_scan.
  apply unattributed_scan. exact Hall.
Qed.

Definition plain_turns : list Turn :=
  [ say (T "human") (T "Find the boats.");
    say (T "gpt") (T "There is <p>boat</p>[0.1,0.2,0.4,0.6] in the image.");
    say (T "human") (T "What is the weather like?");
    say (T "gpt") (T "A sunny day.") ].

Lemma history_follows_separation_witness :
  2 * length (filter (is_category (T "grounding"))
                     (_reconstruct_prompt_history plain_turns))
  = length (fst (separate_conversation_types plain_turns))
  /\ length (filter (is_category (T "caption"))
                    (_reconstruct_prompt_history plain_turns))
      + length (filter (is_category (T "grounding"))
                       (_reconstruct_prompt_history plain_turns))
     = length (_reconstruct_prompt_history plain_turns).
Proof.
  apply (history_follows_separation plain_turns).
  repeat (constructor; [reflexivity|]). constructor.
Defined.

(** ** From the history back to conversations *)

(** The attribute under which a pair comes back, if it does. *)
Definition attribute_again (h g : Turn) : option text :=
  if get_eq (attribute h) (T "Grounding") then
    if grounded g then Some (T "Grounding") else None
  else if get_eq (attribute h) (T "Region Captioning") then Some (T "Region Captioning")
  else if get_eq (attribute h) (T "Image Captioning") then Some (T "Image Captioning")
  else if grounded g then Some (T "Grounding") else Some (T "Image Captioning").

Definition pair_again (h g : Turn) : list Turn :=
  let prompt := get (value h) [] in
  let description := get (value g) [] in
  if negb (truthy prompt) || negb (truthy description) then []
  else match attribute_again h g with
       | Some attr => exchange prompt description attr
       | None => []
       end.

Lemma detection_entry_again p d ty rs :
  truthy rs = true ->
  In ty [T "ai_labeling"; T "object_detection"; T "grounding"] ->
  ai_prompt_conversation (detection_entry p d ty rs)
  = if negb (truthy p) || negb (truthy d) then [] else exchange p d (T "Grounding").
Proof.
  intros Hrs Hty. unfold ai_prompt_conversation.
  cbn [detection_entry prompt description type detected_objects has_bbox get].
  destruct (negb (truthy p) || negb (truthy d)); [reflexivity|].
  destruct Hty as [<-|[<-|[<-|[]]]]; literals; cbn [orb]; try reflexivity.
  destruct rs; [discriminate|]. reflexivity.
Qed.

Lemma plain_entry_again p d ty cat :
  ai_prompt_conversation (plain_entry p d ty cat)
  = if negb (truthy p) || negb (truthy d) then []
    else if text_eqb ty (T "ai_labeling") || text_eqb ty (T "object_detection")
    then exchange p d (T "Grounding")
    else if text_eqb ty (T "bbox_description") then exchange p d (T "Region Captioning")
    else if text_eqb ty (T "text") then exchange p d (T "Image Captioning")
    else [].
Proof. reflexivity. Qed.

(** What [_generate_ai_prompt_conversations] makes of the entry that
    [_reconstruct_prompt_history] builds for a pair. *)
Lemma entry_again h g :
  ai_prompt_conversation (history_entry h g) = pair_again h g.
Proof.
  unfold history_entry, pair_again, attribute_again, grounded, records_of.
  destruct (get_eq (attribute h) (T "Grounding")).
  { destruct (truthy (_parse_gpt_annotations (get (value g) []))) eqn:Et.
    - destruct (mentions _ _); apply detection_entry_again; cbn; auto.
    - rewrite plain_entry_again. literals. cbn [orb].
      destruct (negb _ || negb _); reflexivity. }
  destruct (get_eq (attribute h) (T "Region Captioning")).
  { rewrite plain_entry_again. literals. reflexivity. }
  destruct (get_eq (attribute h) (T "Image Captioning")).
  { rewrite plain_entry_again. literals. reflexivity. }
  destruct (truthy (_parse_gpt_annotations (get (value g) []))) eqn:Et.
  - destruct (mentions [T "detect and locate"; T "find and locate"] _);
      [|destruct (mentions _ _)]; apply detection_entry_again; cbn; auto.
  - destruct (mentions _ _); rewrite plain_entry_again; literals; reflexivity.
Qed.

(** The conversations regenerated from the rebuilt history. *)
Definition regenerated (conversations : list Turn) (img_width img_height : Z)
    : list Turn :=
  _generate_ai_prompt_conversations (_reconstruct_prompt_history conversations)
                                    img_width img_height.

Definition unit_again (u : Unit) : list Turn :=
  match u with
  | Pair h g => pair_again h g
  | Single _ => []
  end.

Lemma regenerated_scan conversations img_width img_height :
  regenerated conversations img_width img_height
  = flat_map unit_again (units conversations).
Proof.
  unfold regenerated, _generate_ai_prompt_conversations.
  rewrite reconstruct_is_scan.
  induction (units conversations) as [|u us IH]; [reflexivity|].
  cbn [flat_map]. rewrite flat_map_app, IH. f_equal.
  destruct u as [h g|x]; cbn [unit_entry unit_again flat_map]; [|reflexivity].
  rewrite app_nil_r. apply entry_again.
Qed.

(** Conversations that come back unchanged: pairs with non-empty
    values and one of the three attributes on both turns, a ['Grounding']
    pair holding a record. *)
Inductive settled : list Turn -> Prop :=
| settled_nil : settled []
| settled_cons p d attr rest :
    truthy p = true -> truthy d = true ->
    (attr = T "Grounding" /\ truthy (_parse_gpt_annotations d) = true)
    \/ attr = T "Region Captioning" \/ attr = T "Image Captioning" ->
    settled rest ->
    settled (exchange p d attr ++ rest).

Lemma pair_again_cases h g :
  pair_again h g = []
  \/ exists attr,
       pair_again h g = exchange (get (value h) []) (get (value g) []) attr
       /\ truthy (get (value h) []) = true /\ truthy (get (value g) []) = true
       /\ ((attr = T "Grounding" /\ grounded g = true)
           \/ attr = T "Region Captioning" \/ attr = T "Image Captioning").
Proof.
  unfold pair_again, attribute_again.
  destruct (truthy (get (value h) [])); [|left; reflexivity].
  destruct (truthy (get (value g) [])); [|left; reflexivity].
  cbn [negb orb].
  destruct (get_eq (attribute h) (T "Grounding")).
  { destruct (grounded g); [right|left; reflexivity].
    eexists. split; [reflexivity|]. auto. }
  destruct (get_eq (attribute h) (T "Region Captioning")).
  { right. eexists. split; [reflexivity|]. auto. }
  destruct (get_eq (attribute h) (T "Image Captioning")).
  { right. eexists. split; [reflexivity|]. auto. }
  destruct (grounded g); right; eexists; (split; [reflexivity|]); auto.
Qed.

Lemma regenerated_settled us : settled (flat_map unit_again us).
Proof.
  induction us as [|u us IH]; [constructor|].
  cbn [flat_map]. destruct u as [h g|x]; cbn [unit_again]; [|exact IH].
  destruct (pair_again_cases h g) as [->|(attr & -> & Hp & Hd & Ha)]; [exact IH|].
  apply settled_cons; assumption.
Qed.

Lemma exchange_is_pair p d attr :
  is_pair (attributed (T "human") p attr) (attributed (T "gpt") d attr) = true.
Proof. reflexivity. Qed.

Lemma exchange_again p d attr :
  truthy p = true -> truthy d = true ->
  (attr = T "Grounding" /\ truthy (_parse_gpt_annotations d) = true)
  \/ attr = T "Region Captioning" \/ attr = T "Image Captioning" ->
  pair_again (attributed (T "human") p attr) (attributed (T "gpt") d attr)
  = exchange p d attr.
Proof.
  intros Hp Hd Ha. unfold pair_again, attribute_again, grounded, records_of.
  cbn [attributed value attribute get get_eq]. rewrite Hp, Hd. cbn [negb orb].
  destruct Ha as [[-> Hr]|[->| ->]]; literals; [rewrite Hr|..]; reflexivity.
Qed.

Lemma settled_fixed turns :
  settled turns -> flat_map unit_again (units turns) = turns.
Proof.
  induction 1 as [|p d attr rest Hp Hd Ha Hrest IH]; [reflexivity|].
  cbn [exchange app].
  rewrite (units_take_pair _ _ rest (exchange_is_pair p d attr)).
  cbn [flat_map unit_again]. rewrite IH, (exchange_again p d attr Hp Hd Ha).
  reflexivity.
Qed.

(** X8. Rebuilding the prompt history of a conversation list and generating
    conversations from it is idempotent: done on its own result, it
    returns this result unchanged. *)
Theorem regenerated_idempotent (conversations : list Turn)
    (img_width img_height : Z) :
  regenerated (regenerated conversations img_width img_height) img_width img_height
  = regenerated conversations img_width img_height.
Proof.
  rewrite (regenerated_scan (regenerated _ _ _)).
  rewrite regenerated_scan. apply settled_fixed, regenerated_settled.
Qed.

(** X9. A leading pair marked ['Grounding'] whose response holds no record
    does not come back: the entry rebuilt for it has the type
    ['grounding'], which [_generate_ai_prompt_conversations] only keeps
    with detected objects. *)
Theorem grounding_pair_without_records_lost (h g : Turn) (rest : list Turn)
    (img_width img_height : Z) :
  is_pair h g = true ->
  get_eq (attribute h) (T "Grounding") = true ->
  _parse_gpt_annotations (get (value g) []) = [] ->
  regenerated (h :: g :: rest) img_width img_height
  = regenerated rest img_width img_height.
Proof.
  intros Hp Ha Hr. rewrite !regenerated_scan, (units_take_pair h g rest Hp).
  cbn [flat_map unit_again]. unfold pair_again, attribute_again, grounded, records_of.
  rewrite Ha, Hr. cbn [truthy]. destruct (negb _ || negb _); reflexivity.
Qed.

Definition refusal : list Turn :=
  [ attributed (T "human") (T "Detect all cars.") (T "Grounding");
    attributed (T "gpt") (T "I don't see any specific objects to detect in this image.")
               (T "Grounding") ].

Lemma grounding_pair_without_records_lost_witness :
  regenerated refusal 640 480 = regenerated [] 640 480.
Proof.
  apply (grounding_pair_without_records_lost
           (attributed (T "human") (T "Detect all cars.") (T "Grounding"))
           (attributed (T "gpt")
              (T "I don't see any specific objects to detect in this image.")
              (T "Grounding")) [] 640 480); reflexivity.
Defined.

End PromptHistoryFacts.

(* ================================================================= *)
(** * labelme/conversation_format.py : the conversation exporter *)
(* ================================================================= *)

Module ConversationExport.
Import Py Tags ConversationFormat PromptHistory ShapeLoading.

Definition text_eq_dec : forall a b : text, {a = b} + {a <> b} :=
  list_eq_dec Ascii.ascii_dec.

(** [list(set(xs))]: the distinct values.  The source reads the length
    of this list, its only element when there is one, and membership in
    it; the order of a set is not observed. *)
Definition distinct (xs : list text) : list text := nodup text_eq_dec xs.

(** [x in xs] *)
Definition member (x : text) (xs : list text) : bool := existsb (text_eqb x) xs.

(** The human prompt of [_generate_grounding_conversation]. *)
Definition grounding_prompt (shapes : list Shape) : text :=
  let labels := distinct (map shape_label shapes) in
  let shape_types := distinct (map shape_type shapes) in
  let annotation_type :=
    if member (T "rectangle") shape_types || member (T "polygon") shape_types then
      if member (T "rectangle") shape_types then T "bounding boxes" else T "polygons"
    else if member (T "point") shape_types then T "points"
    else T "annotations" in
  match labels with
  | [only] =>
      T "Detect all " ++ only ++ T " in the image and describe using "
        ++ annotation_type ++ T "."
  | _ =>
      T "Detect all objects in the image and describe using " ++ annotation_type ++ T "."
  end.

Definition _generate_grounding_conversation (shapes : list Shape)
    (img_width img_height : Z) : result (list Turn) :=
  match shapes with
  | [] => Ok []
  | _ :: _ =>
      let prompt := grounding_prompt shapes in
      gpt_response <- _format_annotations_in_response shapes img_width img_height ;;
      Ok (exchange prompt gpt_response (T "Grounding"))
  end.

Definition _generate_text_conversation (description : text) : list Turn :=
  exchange (T "Describe what you see in the image.") description (T "Image Captioning").

(** [label_file.otherData], with the keys the conversation exporter
    reads back. *)
Record FileOtherData := {
  prompt_history : option (list Entry);
  vlm_description : option text
}.

(** The attributes of a [LabelFile] used by the conversation loader and
    exporter. *)
Record LabelFile := {
  imageData : option (list Byte.byte);
  imagePath : option text;
  shapes : list Shape;
  otherData : option FileOtherData
}.

(** The dict written to the output file. *)
Record ConversationData := {
  image : option text;
  conversations : list Turn
}.

Section Files.

(** The size [PIL.Image.open(io.BytesIO(image_data)).size]. *)
Variable image_size : list Byte.byte -> result (Z * Z).

(** The body of the [try] block of [ConversationFormatExporter.export]
    up to the list [conversations]. *)
Definition export_conversations (label_file : LabelFile) (image_data : list Byte.byte)
    (include_text_conversations : bool) : result (list Turn) :=
  size <- image_size image_data ;;
  let (img_width, img_height) := size in
  other <- match otherData label_file with
           | Some other => Ok other
           | None => Raise AttributeError
           end ;;
  let prompt_history := get (prompt_history other) [] in
  grounding_conv <-
    (if truthy (shapes label_file) then
       _generate_grounding_conversation (shapes label_file) img_width img_height
     else Ok []) ;;
  let ai_convs :=
    if truthy prompt_history then
      _generate_ai_prompt_conversations prompt_history img_width img_height
    else [] in
  let text_conv :=
    if include_text_conversations then
      let vlm_description := get (vlm_description other) [] in
      if truthy (strip vlm_description) then _generate_text_conversation vlm_description
      else []
    else [] in
  Ok (grounding_conv ++ ai_convs ++ text_conv).

(** [ConversationFormatExporter.export]: the data written to the output
    file, or [None] when the function returns [False], in which case the
    file is not opened. *)
Definition export (label_file : LabelFile) (include_text_conversations : bool)
    : option ConversationData :=
  match imageData label_file with
  | Some (b :: image_data) =>
      match export_conversations label_file (b :: image_data)
                                 include_text_conversations with
      | Ok conversations =>
          Some {| image := imagePath label_file; conversations := conversations |}
      | Raise _ => None
      end
  | _ => None
  end.



End Files.

End ConversationExport.

(* ================================================================= *)
(** * Exporting and loading again *)
(* ================================================================= *)

Module ConversationExportFacts.
Import Py Tags PyFacts TagFacts FindallFacts OccurrenceFacts ConversationFormat LoaderFacts
  RoundTripFacts StripFacts ParserInvariants ShapeLoading PromptHistory PromptHistoryFacts
  ConversationExport.

(** ** Shapes the exporter has no text for *)

Definition supported (shape : Shape) : bool :=
  text_eqb (shape_type shape) (T "point")
  || text_eqb (shape_type shape) (T "rectangle")
  || text_eqb (shape_type shape) (T "polygon").

Lemma unsupported_parts shapes img_width img_height :
  forallb (fun s => negb (supported s)) shapes = true ->
  format_parts shapes img_width img_height = Ok [].
Proof.
  induction shapes as [|s tl IH]; [reflexivity|].
  cbn [forallb]. intros H. apply andb_true_iff in H as [Hs Htl].
  cbn [format_parts]. rewrite (IH Htl). unfold format_shape.
  unfold supported in Hs. apply negb_true_iff in Hs.
  apply orb_false_iff in Hs as [Hs Hpoly]. apply orb_false_iff in Hs as [Hpt Hrect].
  rewrite Hpt, Hrect, Hpoly. reflexivity.
Qed.

Lemma unsupported_response shapes img_width img_height :
  shapes <> [] ->
  forallb (fun s => negb (supported s)) shapes = true ->
  _format_annotations_in_response shapes img_width img_height = Raise IndexError.
Proof.
  intros Hne Hall. unfold _format_annotations_in_response.
  destruct shapes as [|s tl]; [congruence|].
  rewrite (unsupported_parts _ _ _ Hall). reflexivity.
Qed.

Section Files.

Variable image_size : list Byte.byte -> result (Z * Z).

(** X10. A label file that holds shapes, none of them a point, a rectangle
    or a polygon, is not exported at all: [export] returns [False] and
    writes nothing, whatever the prompt history, because building the
    sentence for an empty list of parts raises [IndexError]. *)
Theorem export_fails_without_supported_shape (label_file : LabelFile)
    (include_text_conversations : bool) :
  shapes label_file <> [] ->
  forallb (fun s => negb (supported s)) (shapes label_file) = true ->
  export image_size label_file include_text_conversations = None.
Proof.
  intros Hne Hall. unfold export.
  destruct (imageData label_file) as [[|b image_data]|]; try reflexivity.
  unfold export_conversations.
  destruct (image_size (b :: image_data)) as [[w h]|e]; [|reflexivity].
  cbn [bind]. destruct (otherData label_file) as [other|]; [|reflexivity].
  cbn [bind]. destruct (shapes label_file) as [|s tl] eqn:Es; [congruence|].
  cbn [truthy]. unfold _generate_grounding_conversation.
  rewrite (unsupported_response (s :: tl) w h Hne Hall). reflexivity.
Qed.

End Files.

Definition circle : Shape :=
  {| shape_label := T "wheel";
     points := [(Finite 10, Finite 10); (Finite 20, Finite 10)];
     shape_type := T "circle"; vlm_task := None; other_data := Absent |}.

Definition circle_file : LabelFile :=
  {| imageData := Some [Byte.x00]; imagePath := Some (T "a.jpg");
     shapes := [circle];
     otherData := Some {| prompt_history := None; vlm_description := None |} |}.

Lemma export_fails_without_supported_shape_witness :
  export (fun _ => Ok (640, 480)%Z) circle_file true = None.
Proof.
  apply (export_fails_without_supported_shape (fun _ => Ok (640, 480)%Z) circle_file true).
  - discriminate.
  - reflexivity.
Defined.

(** ** The form of the exported conversations *)

(** The turn carries one of the three attributes. *)
Definition attributed_turn (c : Turn) : Prop :=
  exists attr,
    attribute c = Some attr
    /\ In attr [T "Grounding"; T "Region Captioning"; T "Image Captioning"].

(** Consecutive (human, gpt) pairs of attributed turns. *)
Definition tidy (turns : list Turn) : Prop :=
  well_paired turns /\ Forall attributed_turn turns.

Lemma well_paired_app l1 l2 : well_paired l1 -> well_paired l2 -> well_paired (l1 ++ l2).
Proof.
  induction 1 as [|h g rest Hp Hrest IH]; intros H2; [exact H2|].
  cbn [app]. constructor; [exact Hp|apply IH; exact H2].
Qed.

Lemma tidy_nil : tidy [].
Proof. split; constructor. Qed.

Lemma tidy_app l1 l2 : tidy l1 -> tidy l2 -> tidy (l1 ++ l2).
Proof.
  intros [H1 A1] [H2 A2]. split; [apply well_paired_app; assumption|].
  apply Forall_app. auto.
Qed.

Lemma tidy_exchange p d attr :
  In attr [T "Grounding"; T "Region Captioning"; T "Image Captioning"] ->
  tidy (exchange p d attr).
Proof.
  intros Ha. split.
  - constructor; [apply exchange_is_pair|constructor].
  - constructor; [|constructor; [|constructor]]; exists attr; auto.
Qed.

Lemma tidy_ai_prompt entry : tidy (ai_prompt_conversation entry).
Proof.
  unfold ai_prompt_conversation.
  repeat match goal with
         | |- tidy (if ?b then _ else _) => destruct b
         end;
    try apply tidy_nil; apply tidy_exchange; cbn; tauto.
Qed.

Lemma tidy_ai_prompts prompt_history w h :
  tidy (_generate_ai_prompt_conversations prompt_history w h).
Proof.
  unfold _generate_ai_prompt_conversations.
  induction prompt_history as [|e l IH]; [apply tidy_nil|].
  cbn [flat_map]. apply tidy_app; [apply tidy_ai_prompt|exact IH].
Qed.

Lemma tidy_grounding shapes w h turns :
  _generate_grounding_conversation shapes w h = Ok turns -> tidy turns.
Proof.
  unfold _generate_grounding_conversation. destruct shapes as [|s l].
  - intros H. injection H as <-. apply tidy_nil.
  - destruct (_format_annotations_in_response (s :: l) w h) as [r|e]; [|discriminate].
    cbn [bind]. intros H. injection H as <-. apply tidy_exchange. cbn; tauto.
Qed.

Section Written.

Variable image_size : list Byte.byte -> result (Z * Z).

(** X11. Whatever the label file, the conversations that [export] writes are
    consecutive (human, gpt) pairs, and every turn carries one of the
    attributes Grounding, Region Captioning and Image Captioning; the
    image of the written data is the image path of the label file. *)
Theorem exported_conversations_paired (label_file : LabelFile)
    (include_text_conversations : bool) (written : ConversationData) :
  export image_size label_file include_text_conversations = Some written ->
  image written = imagePath label_file
  /\ well_paired (ConversationExport.conversations written)
  /\ Forall attributed_turn (ConversationExport.conversations written).
Proof.
  unfold export.
  destruct (imageData label_file) as [[|b image_data]|]; try discriminate.
  unfold export_conversations.
  destruct (image_size (b :: image_data)) as [[w h]|e]; [|discriminate].
  cbn [bind]. destruct (otherData label_file) as [other|]; [|discriminate].
  cbn [bind].
  destruct (if truthy (shapes label_file)
            then _generate_grounding_conversation (shapes label_file) w h
            else Ok []) as [grounding|e] eqn:Eg; [|discriminate].
  cbn [bind]. intros H. injection H as <-.
  cbn [image ConversationExport.conversations]. split; [reflexivity|].
  assert (tidy grounding) as Hg.
  { destruct (truthy (shapes label_file)).
    - eapply tidy_grounding. exact Eg.
    - injection Eg as <-. apply tidy_nil. }
  apply tidy_app; [exact Hg|]. apply tidy_app.
  - destruct (truthy (get (prompt_history other) []));
      [apply tidy_ai_prompts|apply tidy_nil].
  - destruct include_text_conversations; [|apply tidy_nil].
    destruct (truthy (strip (get (vlm_description other) []))); [|apply tidy_nil].
    apply tidy_exchange. cbn; tauto.
Qed.

End Written.

Definition captioned_file : LabelFile :=
  {| imageData := Some [Byte.x00]; imagePath := Some (T "a.jpg");
     shapes := [];
     otherData := Some {| prompt_history := None;
                          vlm_description := Some (T "A harbour at dusk.") |} |}.

Lemma exported_conversations_paired_witness :
  Some (T "a.jpg") = imagePath captioned_file
  /\ well_paired (_generate_text_conversation (T "A harbour at dusk."))
  /\ Forall attributed_turn (_generate_text_conversation (T "A harbour at dusk.")).
Proof.
  apply (exported_conversations_paired (fun _ => Ok (640, 480)%Z) captioned_file true
           {| image := Some (T "a.jpg");
              conversations := _generate_text_conversation (T "A harbour at dusk.") |}).
  reflexivity.
Defined.

(** ** Loading what was exported *)






















Section Reload.

Variable image_size : list Byte.byte -> result (Z * Z).


End Reload.



End ConversationExportFacts.

(* ================================================================= *)
(** * Conversation-format responses and normalized boxes *)
(* ================================================================= *)

Module FloatFacts.
Import Py Tags PyFacts NumberFacts StripFacts.

Lemma strip_unspaced s :
  Forall (fun c => is_space c = false) s -> strip s = s.
Proof.
  intros H. unfold strip, rstrip.
  assert (forall t, Forall (fun c => is_space c = false) t -> lstrip t = t) as Hl.
  { intros t Ht. destruct Ht as [|c t Hc Ht]; [reflexivity|]. apply lstrip_id. exact Hc. }
  rewrite (Hl s H). rewrite Hl by (apply Forall_rev; exact H).
  apply rev_involutive.
Qed.

Lemma digit_val_nonneg c d : digit_val c = Some d -> (0 <= d)%Z.
Proof.
  unfold digit_val. destruct ((48 <=? code c) && (code c <=? 57)); [|discriminate].
  intros H. injection H as <-. lia.
Qed.

Lemma digitpart_from_nonneg s : forall b ds,
  digitpart_from b s = Some ds -> Forall (fun d => 0 <= d)%Z ds.
Proof.
  induction s as [|c s IH]; intros b ds; cbn [digitpart_from].
  - destruct b; [|discriminate]. intros H. injection H as <-. constructor.
  - destruct (digit_val c) as [d|] eqn:Ed.
    + destruct (digitpart_from true s) as [ds'|] eqn:E; [|discriminate].
      cbn [option_map]. intros H. injection H as <-.
      constructor; [eapply digit_val_nonneg; exact Ed|eapply IH; exact E].
    + destruct (Ascii.eqb c "_" && b); [apply IH|discriminate].
Qed.

Lemma digits_value_nonneg ds :
  Forall (fun d => 0 <= d)%Z ds -> (0 <= digits_value ds)%Z.
Proof.
  unfold digits_value. intros H.
  assert (forall acc, 0 <= acc -> 0 <= fold_left (fun a d => 10 * a + d) ds acc)%Z as Hf.
  { induction H as [|d ds Hd Hds IH]; intros acc Hacc; [exact Hacc|].
    cbn [fold_left]. apply IH. lia. }
  apply Hf. lia.
Qed.

Lemma int_value_nonneg s v : int_value s = Some v -> (0 <= v)%Q.
Proof.
  unfold int_value, digitpart.
  destruct (digitpart_from false s) as [ds|] eqn:E; [|discriminate].
  cbn [option_map]. intros H. injection H as <-.
  apply digitpart_from_nonneg, digits_value_nonneg in E.
  change 0%Q with (inject_Z 0). rewrite <- Zle_Qle. exact E.
Qed.

Lemma frac_value_nonneg s v : frac_value s = Some v -> (0 <= v)%Q.
Proof.
  unfold frac_value, digitpart.
  destruct (digitpart_from false s) as [ds|] eqn:E; [|discriminate].
  cbn [option_map]. intros H. injection H as <-.
  apply digitpart_from_nonneg, digits_value_nonneg in E.
  apply Qle_shift_div_l.
  - change 0%Q with (inject_Z 0). rewrite <- Zlt_Qlt.
    apply Z.pow_pos_nonneg; lia.
  - rewrite Qmult_0_l. change 0%Q with (inject_Z 0). rewrite <- Zle_Qle. exact E.
Qed.

(** A number without sign and exponent is not negative. *)
Lemma parse_number_nonneg s v : parse_number s = Some v -> (0 <= v)%Q.
Proof.
  unfold parse_number. destruct (break (Ascii.eqb ".") s) as [ip [fp|]].
  - destruct ip as [|a ip], fp as [|b fp]; try discriminate.
    + apply frac_value_nonneg.
    + apply int_value_nonneg.
    + destruct (int_value (a :: ip)) as [i|] eqn:Ei; [|discriminate].
      destruct (frac_value (b :: fp)) as [f|] eqn:Ef; [|discriminate].
      intros H. injection H as <-.
      apply int_value_nonneg in Ei. apply frac_value_nonneg in Ef. lra.
  - apply int_value_nonneg.
Qed.

(** What a character of the class [[0-9.,]] is not. *)
Lemma digit_dot_comma_plain c :
  digit_dot_comma c = true ->
  is_space c = false /\ Ascii.eqb c "-" = false /\ Ascii.eqb c "+" = false
  /\ is_e c = false /\ lower_char c = c
  /\ Ascii.eqb c "i" = false /\ Ascii.eqb c "n" = false.
Proof.
  destruct c as [[] [] [] [] [] [] [] []]; intros H; try discriminate H;
    repeat split.
Qed.

Definition nonnegative (x : pyfloat) : Prop :=
  match x with
  | Finite q => (0 <= q)%Q
  | Infinity negative => negative = false
  | NaN => False
  end.

(** [float] of a token of digits, dots and commas, when it does not
    raise, is a number that is not negative. *)
Lemma float_of_digits x v :
  forallb digit_dot_comma x = true -> float (strip x) = Ok v -> nonnegative v.
Proof.
  intros Hx. rewrite forallb_forall in Hx.
  assert (Forall (fun c => is_space c = false) x) as Hsp
    by (apply Forall_forall; intros c Hc; apply (digit_dot_comma_plain c (Hx c Hc))).
  rewrite (strip_unspaced x Hsp). unfold float. rewrite (strip_unspaced x Hsp).
  destruct x as [|c tl].
  { vm_compute. discriminate. }
  destruct (digit_dot_comma_plain c (Hx c (or_introl eq_refl)))
    as (_ & Hm & Hp & _ & Hlow & Hi & Hn).
  cbn [take_sign]. rewrite Hm, Hp.
  assert (forall w, text_eqb (lower (c :: tl)) ("i"%char :: w) = false) as Hinf
    by (intros w; cbn [lower map text_eqb]; rewrite Hlow, Hi; reflexivity).
  assert (forall w, text_eqb (lower (c :: tl)) ("n"%char :: w) = false) as Hnan
    by (intros w; cbn [lower map text_eqb]; rewrite Hlow, Hn; reflexivity).
  change (T "inf") with ("i"%char :: T "nf").
  change (T "infinity") with ("i"%char :: T "nfinity").
  change (T "nan") with ("n"%char :: T "an").
  rewrite !Hinf, Hnan. cbn [orb].
  unfold parse_floatnumber. rewrite break_none.
  2:{ apply Forall_forall. intros a Ha. apply (digit_dot_comma_plain a (Hx a Ha)). }
  destruct (parse_number (c :: tl)) as [q|] eqn:E; [|discriminate].
  intros H. injection H as <-. cbn [nonnegative]. eapply parse_number_nonneg. exact E.
Qed.

Lemma split_chars (P : ascii -> Prop) sep s :
  Forall P s -> Forall (Forall P) (split sep s).
Proof.
  induction 1 as [|c s Hc Hs IH]; [repeat constructor|].
  cbn [split]. destruct (Ascii.eqb c sep); [constructor; [constructor|exact IH]|].
  destruct (split sep s) as [|p ps]; [repeat constructor; exact Hc|].
  inversion IH; subst. constructor; [constructor; assumption|assumption].
Qed.

Lemma mapM_Forall {A B} (f : A -> result B) (P : A -> Prop) (Q : B -> Prop) :
  (forall x y, P x -> f x = Ok y -> Q y) ->
  forall xs ys, Forall P xs -> mapM f xs = Ok ys -> Forall Q ys.
Proof.
  intros HPQ. induction xs as [|x xs IH]; intros ys HP; cbn [mapM].
  - intros H. injection H as <-. constructor.
  - inversion HP; subst. destruct (f x) as [y|e] eqn:Ey; [|discriminate].
    cbn [bind]. destruct (mapM f xs) as [ys'|e]; [|discriminate].
    cbn [bind]. intros H. injection H as <-. constructor; eauto.
Qed.

End FloatFacts.

Module ResponseFacts.
Import Py Tags PyFacts TagFacts FindallFacts VlmUtils DispatchFacts StripFacts
  ParserInvariants FloatFacts ScalingFacts.

Lemma parse_detection_facts l c d :
  forallb (other_than "<") l = true -> forallb digit_dot_comma c = true ->
  parse_detection [l; c] = Some d ->
  length (det_bbox d) = 4 /\ Forall nonnegative (det_bbox d)
  /\ det_label d = strip l /\ det_description d = [].
Proof.
  intros Hl Hc. unfold parse_detection.
  destruct (mapM (fun x => float (strip x)) (split "," c)) as [coords|e] eqn:E;
    [|discriminate].
  destruct (length coords =? 4) eqn:E4; [|discriminate].
  intros H. injection H as <-. cbn [det_bbox det_label det_description].
  apply Nat.eqb_eq in E4. split; [exact E4|]. split; [|auto].
  eapply (mapM_Forall (fun x => float (strip x))
            (fun x => forallb digit_dot_comma x = true) nonnegative);
    [apply float_of_digits| |exact E].
  eapply Forall_impl; [|apply (split_chars (fun a => digit_dot_comma a = true))].
  - intros x Hx. apply forallb_forall. rewrite Forall_forall in Hx. exact Hx.
  - apply Forall_forall. apply forallb_forall. exact Hc.
Qed.

Lemma parsed_detection_facts (text : text) (d : Detection) :
  In d (fst (parse_conversation_format_response text)) ->
  length (det_bbox d) = 4 /\ Forall nonnegative (det_bbox d)
  /\ forallb (other_than "<") (det_label d) = true
  /\ strip (det_label d) = det_label d
  /\ det_description d = [].
Proof.
  unfold parse_conversation_format_response, findall, response_pattern. cbn [fst].
  intros H. apply in_flat_map in H as (gs & Hgs & Hd).
  apply findall_fuel_groups in Hgs as (l & c & -> & _ & Hl & _ & Hc).
  destruct (parse_detection [l; c]) as [d'|] eqn:E; [|contradiction].
  destruct Hd as [<-|[]].
  destruct (parse_detection_facts l c d' Hl Hc E) as (H4 & Hnn & Hlab & Hdesc).
  split; [exact H4|]. split; [exact Hnn|]. rewrite Hlab.
  split; [apply strip_forallb; exact Hl|]. split; [apply strip_idempotent|exact Hdesc].
Qed.

(** X13. Every detection that [parse_conversation_format_response] returns
    has a box of exactly four coordinates, none of them negative or NaN,
    a label without [<] that [strip] leaves unchanged, and an empty
    description; the text comes back unchanged as the description. *)
Theorem parsed_detections_invariant (text : text) (d : Detection) :
  In d (fst (parse_conversation_format_response text)) ->
  snd (parse_conversation_format_response text) = text
  /\ length (det_bbox d) = 4 /\ Forall nonnegative (det_bbox d)
  /\ forallb (other_than "<") (det_label d) = true
  /\ strip (det_label d) = det_label d
  /\ det_description d = [].
Proof.
  intros H. split; [reflexivity|]. apply (parsed_detection_facts text d H).
Qed.

Definition two_ships : text :=
  T "There are <p>ship</p>[0.1,0.2,0.3,0.4], <p> buoy </p>[.5,0.5,1,1.] in the image.".

Lemma parsed_detections_invariant_witness :
  snd (parse_conversation_format_response two_ships) = two_ships
  /\ length [Finite (5 # 10); Finite (5 # 10); Finite 1; Finite 1] = 4
  /\ Forall nonnegative [Finite (5 # 10); Finite (5 # 10); Finite 1; Finite 1]
  /\ forallb (other_than "<") (T "buoy") = true
  /\ strip (T "buoy") = T "buoy"
  /\ @nil ascii = [].
Proof.
  apply (parsed_detections_invariant two_ships
           {| det_bbox := [Finite (5 # 10); Finite (5 # 10); Finite 1; Finite 1];
              det_label := T "buoy"; det_description := [] |}).
  vm_compute. right. left. reflexivity.
Defined.

(** ** The detector and the parser *)

Lemma findall_fuel_found r : forall fuel s,
  findall_fuel fuel r s <> [] ->
  exists pre suf x, s = pre ++ suf /\ match_at r suf = Some x.
Proof.
  induction fuel as [|f IH]; intros s H; [contradiction H; reflexivity|].
  cbn [findall_fuel] in H.
  destruct (match_at r s) as [x|] eqn:E.
  - exists [], s, x. auto.
  - destruct s as [|a tl]; [congruence|].
    destruct (IH tl H) as (pre & suf & x & -> & Hm).
    exists (a :: pre), suf, x. auto.
Qed.

Lemma undetected_no_match text :
  is_conversation_format_response text = false -> findall response_pattern text = [].
Proof.
  intros Hd. destruct (findall response_pattern text) as [|g gs] eqn:E; [reflexivity|].
  exfalso. unfold findall in E.
  destruct (findall_fuel_found response_pattern (S (length text)) text)
    as (pre & suf & [caps rest] & -> & Hm); [rewrite E; discriminate|].
  apply tag_match_sound in Hm as (l & c & Ht & _).
  pose proof (tag_match_complete false _ _ _ _ _ eq_refl Ht) as Hu.
  pose proof (search_finds _ _ _ pre Hu) as Hs.
  unfold is_conversation_format_response in Hd.
  destruct (search (tag_pattern false digit_dot_comma) (pre ++ suf)); [discriminate|congruence].
Qed.

(** X14. The dispatch never passes over a box the conversation-format
    parser would have returned: on a text that
    [is_conversation_format_response] rejects,
    [parse_conversation_format_response] finds no detection. *)
Theorem rejected_text_has_no_detection (text : text) :
  is_conversation_format_response text = false ->
  parse_conversation_format_response text = ([], text).
Proof.
  intros H. unfold parse_conversation_format_response.
  rewrite (undetected_no_match text H). reflexivity.
Qed.

Lemma rejected_text_has_no_detection_witness :
  parse_conversation_format_response (T "<p>ship</p>[-0.1,0.2,0.3,0.4]")
  = ([], T "<p>ship</p>[-0.1,0.2,0.3,0.4]").
Proof.
  apply (rejected_text_has_no_detection (T "<p>ship</p>[-0.1,0.2,0.3,0.4]")).
  reflexivity.
Defined.

(** ** Normalized boxes *)










(** X16. Without normalized coordinates and without a model input size the
    conversion raises [ValueError] as soon as there is one detection, and
    only then: an empty list is converted to an empty list. *)
Theorem model_input_size_required (detections : list BboxDetection)
    (image_shape : Z * Z) :
  convert_detections_to_labelme_shapes detections image_shape None false
  = match detections with
    | [] => Ok []
    | _ :: _ => Raise ValueError
    end.
Proof.
  destruct detections as [|d ds]; [reflexivity|].
  unfold convert_detections_to_labelme_shapes. cbn [mapM].
  assert (convert_detection d image_shape None false = Raise ValueError) as ->;
    [|reflexivity].
  unfold convert_detection. destruct image_shape as [h w].
  destruct (bbox d) as [|x1 [|y1 [|x2 [|y2 [|z tl]]]]]; reflexivity.
Qed.

(** ** The conversation-format branch of the detection *)







End ResponseFacts.

(* ================================================================= *)
(** * The schema cascade of the JSON responses *)
(* ================================================================= *)

Module CascadeFacts.
Import Py VlmUtils JsonFacts.

(** [item["position"]] is a dict. *)
Definition position_is_object (item : value) : bool :=
  match item with
  | VDict entries =>
      match lookup (T "position") entries with
      | Some (VDict _) => true
      | _ => false
      end
  | _ => false
  end.

(** The exception a result stands for, if any. *)
Definition raised {A} (r : result A) : option exn :=
  match r with
  | Ok _ => None
  | Raise e => Some e
  end.

Lemma convert_bbox_2d_total item :
  dict_with (T "bbox_2d") (T "label") item = true ->
  exists out, convert_bbox_2d item = Ok out.
Proof.
  intros H. apply dict_with_inv in H as (entries & b & l & -> & Hb & Hl).
  unfold convert_bbox_2d, subscript, method_get. rewrite Hb, Hl. cbn [bind].
  eexists. reflexivity.
Qed.

Lemma convert_position_outcome item :
  dict_with (T "position") (T "type") item = true ->
  if position_is_object item
  then exists out, convert_position item = Ok out
  else convert_position item = Raise AttributeError.
Proof.
  intros H. apply dict_with_inv in H as (entries & pos & ty & -> & Hp & Ht).
  unfold position_is_object, convert_position, subscript. rewrite Hp, Ht. cbn [bind].
  destruct pos; cbn [method_get bind]; try reflexivity. eexists. reflexivity.
Qed.

Lemma mapM_total {A B} (f : A -> result B) (p : A -> bool) items :
  (forall x, p x = true -> exists y, f x = Ok y) ->
  forallb p items = true ->
  exists out, mapM f items = Ok out /\ length out = length items.
Proof.
  intros Hf. induction items as [|x items IH]; cbn [forallb mapM]; intros H.
  - exists []. auto.
  - apply andb_true_iff in H as [Hx H]. destruct (Hf x Hx) as [y ->].
    destruct (IH H) as (out & -> & Hl). exists (y :: out). cbn [bind length]. auto.
Qed.

Lemma convert_positions_outcome items :
  forallb (dict_with (T "position") (T "type")) items = true ->
  if forallb position_is_object items
  then exists out, mapM convert_position items = Ok out /\ length out = length items
  else mapM convert_position items = Raise AttributeError.
Proof.
  induction items as [|x items IH]; cbn [forallb mapM]; intros H.
  - exists []. auto.
  - apply andb_true_iff in H as [Hx H].
    pose proof (convert_position_outcome x Hx) as Hc. specialize (IH H).
    destruct (position_is_object x); cbn [andb].
    + destruct Hc as [y ->]. cbn [bind].
      destruct (forallb position_is_object items).
      * destruct IH as (out & -> & Hl). exists (y :: out). cbn [bind length]. auto.
      * rewrite IH. reflexivity.
    + rewrite Hc. reflexivity.
Qed.

(** X18. The schema cascade of [parse_vlm_json_response] accepts the decoded
    payload exactly when it is an array all of whose elements have [bbox]
    and [label], or all have [bbox_2d] and [label], or all have [position]
    and [type] with an object as position; an array that mixes the schemas
    is refused as a whole.  A refusal is a [ValueError], except for
    [position] elements whose position is not an object, where the
    exception is [AttributeError].  On success there is one detection for
    each element, and the description is empty. *)
Theorem schema_cascade_outcome (data : value) :
  raised (normalize_detections data)
  = (if list_of_dicts_with (T "bbox") (T "label") data
        || list_of_dicts_with (T "bbox_2d") (T "label") data
     then None
     else if list_of_dicts_with (T "position") (T "type") data
     then if forallb position_is_object (elements data) then None
          else Some AttributeError
     else Some ValueError)
  /\ (forall out description,
        normalize_detections data = Ok (out, description) ->
        length out = length (elements data) /\ description = []).
Proof.
  unfold normalize_detections.
  destruct (list_of_dicts_with (T "bbox") (T "label") data) eqn:EA.
  { cbn [orb raised]. split; [reflexivity|].
    intros out d H. injection H as <- <-. auto. }
  destruct (list_of_dicts_with (T "bbox_2d") (T "label") data) eqn:EB.
  { cbn [orb]. destruct data as [| | | | |items|]; try discriminate EB.
    cbn [list_of_dicts_with elements] in *.
    destruct (mapM_total convert_bbox_2d _ items convert_bbox_2d_total EB)
      as (out & -> & Hl).
    cbn [bind raised]. split; [reflexivity|].
    intros out' d H. injection H as <- <-. auto. }
  cbn [orb].
  destruct (list_of_dicts_with (T "position") (T "type") data) eqn:EC;
    [|split; [reflexivity|discriminate]].
  destruct data as [| | | | |items|]; try discriminate EC.
  cbn [list_of_dicts_with elements] in *.
  pose proof (convert_positions_outcome items EC) as Hc.
  destruct (forallb position_is_object items).
  - destruct Hc as (out & -> & Hl). cbn [bind raised]. split; [reflexivity|].
    intros out' d H. injection H as <- <-. auto.
  - rewrite Hc. cbn [bind raised]. split; [reflexivity|discriminate].
Qed.

End CascadeFacts.

(* ================================================================= *)
(** * labelme/vlm/bbox_detection.py : the object names of a request *)
(* ================================================================= *)

Module DetectionRequest.
Import Py ConversationFormat.

Definition validate_detection_objects (objects : text) : result (list text) :=
  if negb (truthy objects) || negb (truthy (strip objects)) then Raise ValueError
  else
    let object_list := map strip (split "," objects) in
    let object_list := filter truthy object_list in
    if negb (truthy object_list) then Raise ValueError
    else Ok object_list.

End DetectionRequest.

Module DetectionRequestFacts.
Import Py Tags ConversationFormat LoaderFacts RoundTripFacts StripFacts DetectionRequest.

(** An object name as the validation returns it. *)
Definition clean_name (n : text) : Prop :=
  n <> [] /\ strip n = n /\ comma_free n.

Lemma split_pieces_comma_free s : Forall comma_free (split "," s).
Proof.
  induction s as [|c s IH]; [repeat constructor|].
  cbn [split]. destruct (Ascii.eqb c ",") eqn:Ec.
  - constructor; [constructor|exact IH].
  - destruct (split "," s) as [|p ps]; [repeat constructor; exact Ec|].
    inversion IH; subst. constructor; [constructor; assumption|assumption].
Qed.

Lemma kept_names pieces :
  Forall comma_free pieces ->
  Forall clean_name (filter truthy (map strip pieces)).
Proof.
  induction 1 as [|p ps Hp Hps IH]; [constructor|].
  cbn [map filter]. destruct (truthy (strip p)) eqn:Et; [|exact IH].
  constructor; [|exact IH]. split; [|split].
  - destruct (strip p); [discriminate|discriminate].
  - apply strip_idempotent.
  - apply strip_Forall. exact Hp.
Qed.

Lemma none_kept pieces :
  filter truthy (map strip pieces) = [] -> Forall (fun p => strip p = []) pieces.
Proof.
  induction pieces as [|p ps IH]; [constructor|].
  cbn [map filter]. destruct (strip p) eqn:E; cbn [truthy]; [|discriminate].
  intros H. constructor; [exact E|apply IH; exact H].
Qed.

Lemma spaces_comma_free s : forallb is_space s = true -> comma_free s.
Proof.
  intros H. apply Forall_forall. intros c Hc. rewrite forallb_forall in H.
  specialize (H c Hc). destruct (Ascii.eqb_spec c ","); [subst; discriminate|reflexivity].
Qed.

(** X19. [validate_detection_objects] returns the non-blank comma-separated
    pieces of the request, stripped and in order: a non-empty list of
    names, each of them non-empty, without a comma and without whitespace
    at either end.  It raises [ValueError], and nothing else, when every
    piece is blank. *)
Theorem validated_object_names (objects : text) :
  match validate_detection_objects objects with
  | Ok names =>
      names = filter truthy (map strip (split "," objects))
      /\ names <> [] /\ Forall clean_name names
  | Raise e => e = ValueError /\ Forall (fun p => strip p = []) (split "," objects)
  end.
Proof.
  unfold validate_detection_objects.
  destruct (truthy objects) eqn:Eo; cbn [negb orb].
  2:{ destruct objects; [|discriminate]. split; [reflexivity|repeat constructor]. }
  destruct (truthy (strip objects)) eqn:Es; cbn [negb].
  2:{ split; [reflexivity|].
      assert (strip objects = []) as E by (destruct (strip objects); [reflexivity|discriminate]).
      rewrite (split_comma_free objects (spaces_comma_free _ (strip_empty _ E))).
      constructor; [exact E|constructor]. }
  destruct (filter truthy (map strip (split "," objects))) as [|n names] eqn:Ef;
    cbn [truthy negb].
  - split; [reflexivity|]. apply none_kept. exact Ef.
  - split; [reflexivity|]. split; [discriminate|].
    rewrite <- Ef. apply kept_names, split_pieces_comma_free.
Qed.

Lemma clean_names_kept names :
  Forall clean_name names -> filter truthy (map strip names) = names.
Proof.
  induction 1 as [|n names (Hne & Hs & _) Hrest IH]; [reflexivity|].
  cbn [map filter]. rewrite Hs, IH. destruct n; [congruence|reflexivity].
Qed.

Lemma clean_head n :
  clean_name n -> exists a tl, n = a :: tl /\ is_space a = false.
Proof.
  intros (Hne & Hs & _).
  assert (lstrip n = n) as Hl.
  { unfold strip in Hs.
    destruct (rstrip_keeps_head (lstrip n) (lstrip_head n)) as [E|(a & tl & E & Ha)];
      rewrite Hs in E; [congruence|].
    rewrite E. cbn [lstrip]. rewrite Ha. reflexivity. }
  destruct (lstrip_head n) as [E|(a & tl & E & Ha)]; rewrite Hl in E; [congruence|].
  exists a, tl. auto.
Qed.

(** X20. Names that are non-empty, without a comma and without whitespace
    at either end come back unchanged, in order, from the request that
    joins them with commas. *)
Theorem joined_names_validate (names : list text) :
  names <> [] -> Forall clean_name names ->
  validate_detection_objects (join (T ",") names) = Ok names.
Proof.
  intros Hne Hall. unfold validate_detection_objects.
  assert (exists a tl, join (T ",") names = a :: tl /\ is_space a = false) as (a & tl & E & Ha).
  { destruct Hall as [|n rest Hn Hrest]; [congruence|].
    destruct (clean_head n Hn) as (a & tl & -> & Ha).
    destruct rest as [|m rest']; [exists a, tl; auto|].
    rewrite join_cons2. exists a. eexists. split; [reflexivity|exact Ha]. }
  assert (truthy (strip (join (T ",") names)) = true) as Hs.
  { destruct (strip (join (T ",") names)) eqn:E'; [|reflexivity].
    apply strip_empty in E'. rewrite E in E'. cbn [forallb] in E'.
    rewrite Ha in E'. discriminate. }
  rewrite Hs, E. cbn [truthy negb orb]. rewrite <- E.
  rewrite split_join;
    [|exact Hne|eapply Forall_impl; [|exact Hall]; intros n Hn; apply Hn].
  rewrite (clean_names_kept names Hall).
  destruct names; [congruence|reflexivity].
Qed.

Lemma joined_names_validate_witness :
  validate_detection_objects (join (T ",") [T "dog"; T "traffic light"])
  = Ok [T "dog"; T "traffic light"].
Proof.
  apply (joined_names_validate [T "dog"; T "traffic light"]); [discriminate|].
  constructor; [|constructor; [|constructor]];
    (split; [discriminate|split; [reflexivity|]]);
    repeat (constructor; [reflexivity|]); constructor.
Defined.

End DetectionRequestFacts.

(* ================================================================= *)
(** * Fenced JSON payloads *)
(* ================================================================= *)

Module FenceFacts.
Import Py Tags PyFacts TagFacts VlmUtils StripFacts.

(** The character is not a backtick. *)
Definition unfenced (c : ascii) : Prop := Ascii.eqb "`" c = false.

Lemma fence_needs_backtick a s : unfenced a -> match_at fence_pattern (a :: s) = None.
Proof.
  unfold unfenced. intros Ha. unfold match_at, fence_pattern. cbn [rmatch].
  change (T "```") with ("`"%char :: T "``"). cbn [strip_prefix]. rewrite Ha. reflexivity.
Qed.

Lemma search_here r s x : match_at r s = Some x -> search r s = Some x.
Proof. intros H. destruct s; cbn [search]; rewrite H; reflexivity. Qed.

Lemma search_fence_skip pre s :
  Forall unfenced pre -> search fence_pattern (pre ++ s) = search fence_pattern s.
Proof.
  induction 1 as [|a pre Ha Hpre IH]; [reflexivity|].
  cbn [app search]. rewrite (fence_needs_backtick a _ Ha). exact IH.
Qed.

Lemma search_no_fence s : Forall unfenced s -> search fence_pattern s = None.
Proof.
  induction 1 as [|a s Ha Hs IH]; [reflexivity|].
  cbn [search]. rewrite (fence_needs_backtick a _ Ha). exact IH.
Qed.

(** A lazy run stops at the first place where the rest of the pattern
    matches. *)
Lemma lazy_first cls (k : text -> outcome) rest x : forall mid,
  forallb cls mid = true ->
  (forall a t, In a mid -> k (a :: t) = None) ->
  k rest = Some x ->
  lazy cls (mid ++ rest) k = Some x.
Proof.
  induction mid as [|a mid IH]; intros Hc Hk Hx.
  - cbn [app]. destruct rest; cbn [lazy]; rewrite Hx; reflexivity.
  - cbn [app lazy]. rewrite (Hk a (mid ++ rest) (or_introl eq_refl)).
    cbn [forallb] in Hc. apply andb_true_iff in Hc as [-> Hc].
    apply IH; [exact Hc| |exact Hx]. intros b t Hb. apply Hk. right. exact Hb.
Qed.

Lemma closing_needs_backtick (k : text -> outcome) a t :
  unfenced a -> rmatch (Lit (T "```")) (a :: t) k = None.
Proof.
  unfold unfenced. intros Ha. cbn [rmatch].
  change (T "```") with ("`"%char :: T "``"). cbn [strip_prefix]. rewrite Ha. reflexivity.
Qed.

(** The group captured between the whitespace after the opening and
    the closing fence. *)
Lemma capture_inner inner post :
  inner <> [] -> Forall unfenced inner ->
  rmatch (Cat (Cap (Lazy1 (fun _ => true))) (Lit (T "```")))
         (inner ++ T "```" ++ post) (fun rest => Some ([], rest))
  = Some ([inner], post).
Proof.
  intros Hne Hin. destruct inner as [|c inner']; [congruence|].
  cbn [rmatch app].
  inversion Hin as [|? ? Hc Hin']; subst.
  rewrite (lazy_first (fun _ => true) _ (T "```" ++ post) ([c :: inner'], post)).
  - reflexivity.
  - apply forallb_forall. reflexivity.
  - intros a t Ha. rewrite Forall_forall in Hin'. specialize (Hin' a Ha).
    unfold unfenced in Hin'.
    change (T "```") with ("`"%char :: T "``"). cbn [strip_prefix]. rewrite Hin'. reflexivity.
  - rewrite strip_prefix_app.
    change (c :: inner' ++ T "```" ++ post) with ((c :: inner') ++ T "```" ++ post).
    rewrite consumed_app. reflexivity.
Qed.

Lemma lstrip_split s :
  exists ws, s = ws ++ lstrip s /\ forallb is_space ws = true.
Proof.
  induction s as [|c s (ws & Hs & Hw)]; [exists []; auto|].
  cbn [lstrip]. destruct (is_space c) eqn:Ec.
  - exists (c :: ws). cbn [app forallb]. rewrite Ec, <- Hs. auto.
  - exists []. auto.
Qed.

Lemma lstrip_app_stop a b :
  stops is_space b -> lstrip (a ++ b) = lstrip a ++ b.
Proof.
  intros Hb. induction a as [|c a IH].
  - cbn [app lstrip]. destruct b as [|x b]; [reflexivity|].
    cbn [stops] in Hb. cbn [lstrip]. rewrite Hb. reflexivity.
  - cbn [app lstrip]. destruct (is_space c); [exact IH|reflexivity].
Qed.

(** Stripping a text around a block that starts and ends with
    characters that are no spaces. *)
Lemma strip_around pre a mid z post :
  is_space a = false -> is_space z = false ->
  strip (pre ++ (a :: mid ++ [z]) ++ post)
  = lstrip pre ++ (a :: mid ++ [z]) ++ rstrip post.
Proof.
  intros Ha Hz. unfold strip.
  rewrite (lstrip_app_stop pre ((a :: mid ++ [z]) ++ post)) by exact Ha.
  unfold rstrip. rewrite app_assoc, rev_app_distr.
  assert (stops is_space (rev (lstrip pre ++ a :: mid ++ [z]))) as Hst.
  { change (a :: mid ++ [z]) with ((a :: mid) ++ [z]).
    rewrite app_assoc, rev_app_distr. exact Hz. }
  rewrite (lstrip_app_stop _ _ Hst), rev_app_distr, rev_involutive, <- app_assoc.
  reflexivity.
Qed.

Lemma rstrip_unfenced s : Forall unfenced s -> Forall unfenced (rstrip s).
Proof.
  intros H. unfold rstrip. apply Forall_rev, lstrip_Forall, Forall_rev, H.
Qed.

Lemma strip_prefix_fence p : forall s t,
  Forall unfenced p -> strip_prefix p s = None ->
  strip_prefix p (s ++ T "```" ++ t) = None.
Proof.
  induction p as [|x p IH]; intros s t Hp Hs; [discriminate Hs|].
  inversion Hp as [|? ? Hx Hp']; subst.
  destruct s as [|y s]; cbn [app strip_prefix] in *.
  - change (T "```" ++ t) with ("`"%char :: T "``" ++ t). cbn [strip_prefix].
    unfold unfenced in Hx. rewrite Ascii.eqb_sym, Hx. reflexivity.
  - destruct (Ascii.eqb x y); [apply IH; assumption|reflexivity].
Qed.

Section JsonDecoder.

Variable json_loads : text -> option value.

(** The opening of a fence, with or without the [json] tag. *)
Definition opening (tagged : bool) : text :=
  if tagged then T "```json" else T "```".

Lemma fence_match tagged content post :
  Forall unfenced content -> strip content <> [] ->
  (tagged = false -> startswith (T "json") content = false) ->
  match_at fence_pattern (opening tagged ++ content ++ T "```" ++ post)
  = Some ([lstrip content], post).
Proof.
  intros Hc Hs Htag.
  destruct (lstrip_split content) as (ws & Hsplit & Hws).
  assert (lstrip content <> []) as Hne.
  { intros E. apply Hs. unfold strip. rewrite E. reflexivity. }
  assert (stops is_space (lstrip content ++ T "```" ++ post)) as Hstop.
  { destruct (lstrip_head content) as [E|(a & tl & E & Ha)]; [congruence|].
    rewrite E. exact Ha. }
  assert (Forall unfenced (lstrip content)) as Hin by (apply lstrip_Forall; exact Hc).
  assert (rmatch (Cat (Many0 is_space)
                      (Cat (Cap (Lazy1 (fun _ => true))) (Lit (T "```"))))
                 (content ++ T "```" ++ post) (fun rest => Some ([], rest))
          = Some ([lstrip content], post)) as Hrest.
  { rewrite Hsplit at 1. rewrite <- app_assoc.
    change (rmatch (Cat (Many0 is_space) ?r) ?s ?k)
      with (greedy is_space s (fun s' => rmatch r s' k)).
    apply greedy_longest; [exact Hws|exact Hstop|].
    apply capture_inner; assumption. }
  unfold match_at, fence_pattern. destruct tagged; cbn [opening].
  - change (T "```json") with (T "```" ++ T "json"). rewrite <- app_assoc.
    rewrite rmatch_lit_app.
    change (rmatch (Cat (Maybe (Lit (T "json"))) ?r) ?s ?k)
      with (match rmatch (Lit (T "json")) s (fun s' => rmatch r s' k) with
            | Some x => Some x
            | None => rmatch r s k
            end).
    cbn [rmatch]. rewrite strip_prefix_app.
    cbn [rmatch] in Hrest. rewrite Hrest. reflexivity.
  - rewrite rmatch_lit_app.
    change (rmatch (Cat (Maybe (Lit (T "json"))) ?r) ?s ?k)
      with (match rmatch (Lit (T "json")) s (fun s' => rmatch r s' k) with
            | Some x => Some x
            | None => rmatch r s k
            end).
    assert (strip_prefix (T "json") (content ++ T "```" ++ post) = None) as Hj.
    { apply strip_prefix_fence; [repeat (constructor; [reflexivity|]); constructor|].
      specialize (Htag eq_refl). unfold startswith in Htag.
      destruct (strip_prefix (T "json") content); [discriminate|reflexivity]. }
    cbn [rmatch] in *. rewrite Hj. exact Hrest.
Qed.

(** X21. A payload between code fences is parsed like the bare payload:
    when the text before the fence and the payload hold no backtick, the
    payload is not blank and, for a fence without the [json] tag, does
    not itself begin with [json], [parse_vlm_json_response] gives for the
    fenced text, whatever follows the closing fence, the result it gives
    for the payload alone. *)
Theorem fenced_payload_parsed (tagged : bool) (pre content post : text) :
  Forall unfenced pre -> Forall unfenced content -> strip content <> [] ->
  (tagged = false -> startswith (T "json") content = false) ->
  parse_vlm_json_response json_loads
    (pre ++ opening tagged ++ content ++ T "```" ++ post)
  = parse_vlm_json_response json_loads content.
Proof.
  intros Hpre Hc Hs Htag. unfold parse_vlm_json_response.
  rewrite (search_no_fence (strip content)) by (apply strip_Forall; exact Hc).
  assert (exists mid,
            opening tagged ++ content ++ T "```" ++ post
            = ("`"%char :: mid ++ ["`"%char]) ++ post
            /\ "`"%char :: mid ++ ["`"%char]
               = opening tagged ++ content ++ T "```") as (mid & Hshape & Hblock).
  { exists (T "``" ++ (if tagged then T "json" else []) ++ content ++ T "``").
    destruct tagged; cbn [opening]; split;
      repeat (cbn [app T list_ascii_of_string]; rewrite <- ?app_assoc); reflexivity. }
  rewrite Hshape, (strip_around pre "`"%char mid "`"%char post eq_refl eq_refl), Hblock.
  rewrite <- !app_assoc.
  rewrite (search_fence_skip (lstrip pre)) by (apply lstrip_Forall; exact Hpre).
  rewrite (search_here _ _ _ (fence_match tagged content (rstrip post) Hc Hs Htag)).
  unfold strip at 1. rewrite lstrip_idempotent. reflexivity.
Qed.

End JsonDecoder.

Lemma fenced_payload_parsed_witness :
  parse_vlm_json_response (fun _ => Some (VList []))
    (T "Here you are: " ++ opening true ++ T " [] " ++ T "```" ++ T " Done.")
  = parse_vlm_json_response (fun _ => Some (VList [])) (T " [] ").
Proof.
  apply (fenced_payload_parsed (fun _ => Some (VList [])) true
           (T "Here you are: ") (T " [] ") (T " Done.")).
  - repeat (constructor; [reflexivity|]). constructor.
  - repeat (constructor; [reflexivity|]). constructor.
  - discriminate.
  - discriminate.
Defined.

End FenceFacts.

(* ================================================================= *)
(** * What the ShareGPT exporter writes *)
(* ================================================================= *)

Module ShareGptFacts.
Import Py ConversationFormat LoaderFacts ExportFacts.



Lemma polygon_not_rectangle s :
  text_eqb s (T "polygon") = true -> text_eqb s (T "rectangle") = false.
Proof. intros H. apply text_eqb_eq in H. subst s. reflexivity. Qed.

Section Exporter.

Variable image_size : list Byte.byte -> result (Z * Z).
Variable list_of_set : list text -> list text.
Variable json_dumps_box : list pyfloat -> text -> text.





(** ** What [export_single_file] writes *)

(** A document with one (human, gpt) exchange, for the image of the
    label file. *)
Definition one_exchange (label_file : LabelFile) (d : Document) : Prop :=
  doc_image d = Some (basename (or_default (imagePath label_file) (T "image.jpg")))
  /\ In (doc_task d) [T "Caption"; T "Detection"; T "OCR"]
  /\ exists human_prompt gpt_response,
       doc_conversations d = [say (T "human") human_prompt; say (T "gpt") gpt_response].

Definition has_task (task : text) (d : Document) : bool := text_eqb (doc_task d) task.

Definition tagged (task : text) (shape : Shape) : bool := get_eq (vlm_task shape) task.

Lemma truthy_filter {A} (p : A -> bool) l : truthy (filter p l) = existsb p l.
Proof.
  induction l as [|x l IH]; [reflexivity|].
  cbn [filter existsb]. destruct (p x); [reflexivity|exact IH].
Qed.

Lemma caption_documents label_file (history : list HistoryEntry) :
  let image := basename (or_default (imagePath label_file) (T "image.jpg")) in
  let captions :=
    flat_map (fun entry =>
                match caption_pair entry with
                | Some (h, g) =>
                    [{| doc_image := Some image; doc_task := T "Caption";
                        doc_conversations := [h; g] |}]
                | None => []
                end) history in
  Forall (one_exchange label_file) captions
  /\ filter (has_task (T "Detection")) captions = []
  /\ filter (has_task (T "OCR")) captions = [].
Proof.
  cbv zeta. induction history as [|entry history (IH1 & IH2 & IH3)].
  - repeat split; constructor.
  - cbn [flat_map]. unfold caption_pair at 1 3 5.
    destruct (truthy (strip (get (prompt entry) []))
              && truthy (strip (get (entry_description entry) []))).
    + cbn [app filter]. split; [|split; [exact IH2|exact IH3]].
      constructor; [|exact IH1]. split; [reflexivity|]. split; [left; reflexivity|].
      do 2 eexists. reflexivity.
    + cbn [app]. auto.
Qed.

(** X23. Whatever the label file, [export_single_file] either reports
    failure and writes nothing, or reports success and writes at least
    one document; each document written holds the base name of the image
    path, one of the tasks Caption, Detection and OCR, and exactly one
    human turn followed by one gpt turn; there is one Detection document
    when some shape is tagged Detection and none otherwise, and likewise
    for OCR. *)
Theorem single_file_outcome (label_file : LabelFile) :
  export_single_file image_size json_dumps_box label_file = failed
  \/ exists documents,
       export_single_file image_size json_dumps_box label_file
       = {| returned := true; written := Some documents |}
       /\ documents <> []
       /\ Forall (one_exchange label_file) documents
       /\ length (filter (has_task (T "Detection")) documents)
          = (if existsb (tagged (T "Detection")) (shapes label_file) then 1 else 0)
       /\ length (filter (has_task (T "OCR")) documents)
          = (if existsb (tagged (T "OCR")) (shapes label_file) then 1 else 0).
Proof.
  unfold export_single_file.
  destruct (imageData label_file) as [[|b image_data]|]; try (left; reflexivity).
  unfold single_file_objects.
  destruct (image_size (b :: image_data)) as [[w h]|e]; [|left; reflexivity].
  cbn [bind]. unfold single_file_groups. rewrite single_file_fold. cbn [app].
  rewrite !truthy_filter.
  fold (tagged (T "Detection")). fold (tagged (T "OCR")).
  match goal with
  | |- context [flat_map ?f ?l] =>
      pose proof (caption_documents label_file l) as Hcap; cbv zeta in Hcap;
      set (captions := flat_map f l) in *
  end.
  destruct Hcap as (Hc1 & Hc2 & Hc3). clearbody captions.
  set (image := basename (or_default (imagePath label_file) (T "image.jpg"))) in *.
  destruct (existsb (tagged (T "Detection")) (shapes label_file)).
  - destruct (_format_shapes_as_json json_dumps_box
                (filter (tagged (T "Detection")) (shapes label_file))
                w h) as [det|e]; [|left; reflexivity].
    cbn [bind].
    destruct (existsb (tagged (T "OCR")) (shapes label_file)).
    + destruct (_format_shapes_as_json json_dumps_box
                  (filter (tagged (T "OCR")) (shapes label_file))
                  w h) as [ocr|e]; [|left; reflexivity].
      cbn [bind]. right.
      destruct (captions ++ [task_document image (T "Detection") detection_prompt det]
                  ++ [task_document image (T "OCR") ocr_prompt ocr]) as [|d ds] eqn:E.
      { destruct captions; discriminate E. }
      eexists. split; [reflexivity|]. rewrite <- E. split; [destruct captions; discriminate|].
      split; [|rewrite !filter_app, Hc2, Hc3; split; reflexivity].
      apply Forall_app. split; [exact Hc1|].
      constructor; [|constructor; [|constructor]];
        (split; [reflexivity|]); (split; [cbn; tauto|]); do 2 eexists; reflexivity.
    + cbn [bind]. right.
      destruct (captions ++ [task_document image (T "Detection") detection_prompt det]
                  ++ []) as [|d ds] eqn:E.
      { destruct captions; discriminate E. }
      eexists. split; [reflexivity|]. rewrite <- E. split; [destruct captions; discriminate|].
      split; [|rewrite !filter_app, Hc2, Hc3; split; reflexivity].
      apply Forall_app. split; [exact Hc1|].
      constructor; [|constructor].
      split; [reflexivity|]. split; [cbn; tauto|]. do 2 eexists. reflexivity.
  - cbn [bind].
    destruct (existsb (tagged (T "OCR")) (shapes label_file)).
    + destruct (_format_shapes_as_json json_dumps_box
                  (filter (tagged (T "OCR")) (shapes label_file))
                  w h) as [ocr|e]; [|left; reflexivity].
      cbn [bind]. right.
      destruct (captions ++ [] ++ [task_document image (T "OCR") ocr_prompt ocr])
        as [|d ds] eqn:E.
      { destruct captions; discriminate E. }
      eexists. split; [reflexivity|]. rewrite <- E. split; [destruct captions; discriminate|].
      split; [|rewrite !filter_app, Hc2, Hc3; split; reflexivity].
      apply Forall_app. split; [exact Hc1|].
      constructor; [|constructor].
      split; [reflexivity|]. split; [cbn; tauto|]. do 2 eexists. reflexivity.
    + cbn [bind app]. rewrite app_nil_r.
      destruct captions as [|d ds] eqn:E; [left; reflexivity|right].
      eexists. split; [reflexivity|]. split; [discriminate|].
      split; [exact Hc1|]. rewrite Hc2, Hc3. split; reflexivity.
Qed.

(** ** What [export] writes *)

(** The turns of the caption conversations. *)
Definition caption_turns (history : list HistoryEntry) : list Turn :=
  flat_map (fun entry =>
              match caption_pair entry with
              | Some (h, g) => [h; g]
              | None => []
              end) history.

(** X24. [ShareGPTExporter.export] either reports failure and writes
    nothing, or writes a single document for the image path of the label
    file; the conversations of this document are the caption exchanges,
    followed, when the label file has shapes, by exactly one exchange whose
    answer is built from all the shapes, whatever their task tags: no
    second exchange is ever written for the OCR shapes. *)
Theorem sharegpt_export_outcome (label_file : LabelFile) :
  export image_size list_of_set json_dumps_box label_file = failed
  \/ exists document image_data other img_width img_height grounding,
       export image_size list_of_set json_dumps_box label_file
       = {| returned := true; written := Some [document] |}
       /\ imageData label_file = Some image_data
       /\ image_size image_data = Ok (img_width, img_height)
       /\ otherData label_file = Some other
       /\ doc_image document = imagePath label_file
       /\ doc_conversations document
          = caption_turns (get (caption_history other) []) ++ grounding
       /\ match shapes label_file with
          | [] => grounding = []
          | _ :: _ =>
              exists gpt_response,
                _format_shapes_as_json json_dumps_box (shapes label_file)
                                       img_width img_height = Ok gpt_response
                /\ grounding
                   = [say (T "human") (outline_prompt list_of_set (shapes label_file));
                      say (T "gpt") gpt_response]
          end.
Proof.
  unfold export.
  destruct (imageData label_file) as [[|b image_data]|]; try (left; reflexivity).
  unfold export_document.
  destruct (image_size (b :: image_data)) as [[w h]|e] eqn:Esize; [|left; reflexivity].
  cbn [bind]. destruct (otherData label_file) as [other|]; [|left; reflexivity].
  cbn [bind]. rewrite export_groups_all_detection. cbn [truthy].
  destruct (shapes label_file) as [|s l] eqn:Es.
  - cbn [truthy bind count_tagged]. right.
    exists {| doc_image := imagePath label_file; doc_task := T "Caption";
              doc_conversations := caption_turns (get (caption_history other) []) ++ [] ++ [] |}.
    exists (b :: image_data), other, w, h, [].
    split; [reflexivity|]. split; [reflexivity|]. split; [exact Esize|].
    repeat split; reflexivity.
  - cbn [truthy].
    destruct (_format_shapes_as_json json_dumps_box (s :: l) w h) as [r|e] eqn:Er;
      [|left; reflexivity].
    cbn [bind].
    destruct (count_tagged (T "Detection") (s :: l)) as [n|e]; [|left; reflexivity].
    cbn [bind].
    destruct (count_tagged (T "OCR") (s :: l)) as [m|e]; [|left; reflexivity].
    cbn [bind]. right. eexists. exists (b :: image_data), other, w, h. eexists.
    split; [reflexivity|]. split; [reflexivity|]. split; [exact Esize|].
    split; [reflexivity|]. split; [reflexivity|].
    split; [cbn [doc_conversations]; rewrite app_nil_r; reflexivity|].
    exists r. split; [exact Er|reflexivity].
Qed.

End Exporter.



End ShareGptFacts.

(* ================================================================= *)
(** * labelme/conversation_format.py : export to a directory *)
(* ================================================================= *)

Module DirectoryExport.
Import Py ConversationFormat.




Section Exporter.

Variable image_size : list Byte.byte -> result (Z * Z).
Variable list_of_set : list text -> list text.
Variable json_dumps_box : list pyfloat -> text -> text.




End Exporter.

End DirectoryExport.

Module DirectoryExportFacts.
Import Py ConversationFormat LoaderFacts ExportFacts ShareGptFacts DirectoryExport.


Section Exporter.

Variable image_size : list Byte.byte -> result (Z * Z).
Variable list_of_set : list text -> list text.
Variable json_dumps_box : list pyfloat -> text -> text.



End Exporter.



End DirectoryExportFacts.
